(** * crime-viz-flow: the AML dashboard core

    A shallow embedding of the logic of the dashboard
    ([AMLDashboard], in CSVUpload.tsx), of the transaction table
    ([SuspiciousTransactionsTable.tsx]) and of the what-if form
    ([TransactionSimulator.tsx]), and the properties the specification
    states about them.

    Conventions of the embedding.
    - A JavaScript number is a [num]: a finite value kept as an exact
      rational, or one of [NaN], [+Infinity], [-Infinity].  Rounding to
      binary64 is not modelled; a decimal literal such as [0.7] denotes
      7/10.  The sign of a difference of two doubles is the sign of the
      exact difference, so comparisons are exact.
    - A JavaScript string is a [string] of 8-bit code units.  The case
      conversions fold the letters A-Z and a-z and keep every other code
      unit: they are the ones of the runtime on ASCII text only, and
      what is stated of a text in another case is stated of ASCII text.
    - [Array.prototype.sort] is a built-in of the runtime.  For a
      comparator that is a consistent ordering ECMAScript fixes its
      result, the stable arrangement, which [JsArray.sort] computes; for
      any other comparator the result is the engine's own, and [V8.sort]
      is the one of V8.
    - [Math.random] and [new Date()] read an explicit environment [Env].
    - React state is an explicit record, each [setX] an update of it.
    - [await] is sequential composition: timers only delay. *)

From Stdlib Require Import QArith Qround Qabs String Ascii List ZArith Lia DecimalString.
From Stdlib Require Import Sorted Permutation Lqa.
From stdpp Require Import gmap list strings.
Import ListNotations.

Open Scope string_scope.

(** ** Strings *)

Module Str.

Definition is_upper (c : ascii) : bool :=
  (65 <=? nat_of_ascii c)%nat && (nat_of_ascii c <=? 90)%nat.

Definition is_lower (c : ascii) : bool :=
  (97 <=? nat_of_ascii c)%nat && (nat_of_ascii c <=? 122)%nat.

Definition lower_char (c : ascii) : ascii :=
  if is_upper c then ascii_of_nat (nat_of_ascii c + 32) else c.

Definition upper_char (c : ascii) : ascii :=
  if is_lower c then ascii_of_nat (nat_of_ascii c - 32) else c.

Fixpoint map_chars (f : ascii -> ascii) (s : string) : string :=
  match s with
  | EmptyString => EmptyString
  | String c s' => String (f c) (map_chars f s')
  end.

(** [String.prototype.toLowerCase], [toUpperCase], as they act on ASCII
    text: the 26 letters change case and every other code unit stays.
    The runtime also folds letters beyond ASCII, some of them to several
    characters or to characters beyond 8 bits (the upper case of the
    sharp s is SS); on a text with such a letter these two functions are
    not the built-ins. *)
Definition toLowerCase : string -> string := map_chars lower_char.
Definition toUpperCase : string -> string := map_chars upper_char.

(** Every code unit of [s] is an ASCII character. *)
Fixpoint ascii_only (s : string) : bool :=
  match s with
  | EmptyString => true
  | String c s' => (nat_of_ascii c <? 128)%nat && ascii_only s'
  end.

(** [s.includes(sub)]: [sub] occurs somewhere in [s]. *)
Fixpoint includes (s sub : string) : bool :=
  String.prefix sub s ||
  match s with
  | EmptyString => false
  | String _ s' => includes s' sub
  end.

(** [a.join(",")] on an array of strings. *)
Fixpoint join (sep : string) (l : list string) : string :=
  match l with
  | [] => ""
  | [x] => x
  | x :: l' => x ++ sep ++ join sep l'
  end.

Fixpoint repeat_char (c : ascii) (n : nat) : string :=
  match n with
  | O => ""
  | S n' => String c (repeat_char c n')
  end.

(** [s.padStart(n, c)] for a one-character filler. *)
Definition padStart (n : nat) (c : ascii) (s : string) : string :=
  repeat_char c (n - String.length s) ++ s.

(** [String(n)] for a non-negative integer. *)
Definition of_nat (n : nat) : string := NilZero.string_of_uint (Nat.to_uint n).

(** [s] is [sub] with something before it and something after it. *)
Definition substring_of (sub s : string) : Prop :=
  exists pre post, s = pre ++ sub ++ post.

(** Modelled from the spec: [String.prototype.localeCompare], a built-in
    of the runtime that is not part of the repository.  "All other
    fields compare as case-sensitive lexicographic strings": the
    comparison is the lexicographic one on code units, and yields -1, 0
    or 1. *)
Definition localeCompare (a b : string) : comparison := String.compare a b.

End Str.

(** ** Numbers *)

Inductive num : Type :=
| Finite (q : Q)
| PosInfinity
| NegInfinity
| NaN.

Module Num.

Definition of_comparison (c : comparison) : num :=
  match c with
  | Lt => Finite (-1)
  | Eq => Finite 0
  | Gt => Finite 1
  end.

(** The sign of a number, [None] for [NaN]. *)
Definition sign (x : num) : option comparison :=
  match x with
  | Finite q => Some (q ?= 0)%Q
  | PosInfinity => Some Gt
  | NegInfinity => Some Lt
  | NaN => None
  end.

Definition infinity (c : comparison) : num :=
  match c with
  | Gt => PosInfinity
  | Lt => NegInfinity
  | Eq => NaN
  end.

(** Values beyond the largest double become infinite; inside the range a
    finite value is kept as it is. *)
Definition overflow_bound : Q := inject_Z (2 ^ 1024 - 2 ^ 970).

Definition of_Q (q : Q) : num :=
  if Qle_bool overflow_bound (Qabs q) then infinity (q ?= 0)%Q else Finite q.

Definition neg (x : num) : num :=
  match x with
  | Finite q => Finite (- q)
  | PosInfinity => NegInfinity
  | NegInfinity => PosInfinity
  | NaN => NaN
  end.

Definition add (x y : num) : num :=
  match x, y with
  | NaN, _ | _, NaN => NaN
  | Finite a, Finite b => of_Q (a + b)
  | PosInfinity, NegInfinity | NegInfinity, PosInfinity => NaN
  | PosInfinity, _ | _, PosInfinity => PosInfinity
  | NegInfinity, _ | _, NegInfinity => NegInfinity
  end.

Definition sub (x y : num) : num := add x (neg y).

Definition mul_sign (a b : comparison) : comparison :=
  match a, b with
  | Eq, _ | _, Eq => Eq
  | Lt, Lt | Gt, Gt => Gt
  | Lt, Gt | Gt, Lt => Lt
  end.

Definition mul (x y : num) : num :=
  match x, y with
  | Finite a, Finite b => of_Q (a * b)
  | _, _ =>
      match sign x, sign y with
      | Some a, Some b => infinity (mul_sign a b)
      | _, _ => NaN
      end
  end.

(** [x > y]; false as soon as one side is [NaN]. *)
Definition gt (x y : num) : bool :=
  match sign (sub x y) with
  | Some Gt => true
  | _ => false
  end.

(** [Math.floor] of a finite number, as an integer. *)
Definition floor (q : Q) : Z := Qfloor q.

End Num.

(** ** [parseFloat] *)

Module Parse.

Definition is_space (c : ascii) : bool :=
  match nat_of_ascii c with
  | 9 | 10 | 11 | 12 | 13 | 32 => true
  | _ => false
  end%nat.

Fixpoint trimStart (s : string) : string :=
  match s with
  | String c s' => if is_space c then trimStart s' else s
  | EmptyString => s
  end.

Definition digit_of (c : ascii) : option Z :=
  let n := nat_of_ascii c in
  if (48 <=? n)%nat && (n <=? 57)%nat then Some (Z.of_nat (n - 48)) else None.

(** The longest run of decimal digits at the head of [s]: its value (on
    top of [acc]), how many digits were read (on top of [count]), and the
    rest of the string. *)
Fixpoint digits (acc : Z) (count : nat) (s : string) : Z * nat * string :=
  match s with
  | String c s' =>
      match digit_of c with
      | Some d => digits (acc * 10 + d) (S count) s'
      | None => (acc, count, s)
      end
  | EmptyString => (acc, count, s)
  end.

Definition pow10 (e : Z) : Q :=
  if (0 <=? e)%Z then inject_Z (10 ^ e) else 1 # Z.to_pos (10 ^ (- e)).

(** An exponent part [e], [e+] or [e-] followed by digits; anything else
    is not part of the number. *)
Definition exponent (s : string) : Z :=
  match s with
  | String c s' =>
      if (Ascii.eqb c "e" || Ascii.eqb c "E")%bool then
        let '(negative, s'') :=
          match s' with
          | String "-" r => (true, r)
          | String "+" r => (false, r)
          | _ => (false, s')
          end in
        let '(e, n, _) := digits 0 0 s'' in
        if (n =? 0)%nat then 0%Z else if negative then (- e)%Z else e
      else 0%Z
  | EmptyString => 0%Z
  end.

(** The longest prefix of [s] that is an unsigned decimal literal. *)
Definition decimal (s : string) : option Q :=
  let '(ip, ni, r1) := digits 0 0 s in
  let '(fp, nf, r2) :=
    match r1 with
    | String "." r => digits 0 0 r
    | _ => (0%Z, 0%nat, r1)
    end in
  if (ni + nf =? 0)%nat then None
  else
    let scale := (10 ^ Z.of_nat nf)%Z in
    Some (Qred (((ip * scale + fp) # Z.to_pos scale) * pow10 (exponent r2))).

Definition unsigned (s : string) : num :=
  if String.prefix "Infinity" s then PosInfinity
  else match decimal s with
       | Some q => Num.of_Q q
       | None => NaN
       end.

(** [parseFloat(s)] for a string [s]. *)
Definition parseFloat (s : string) : num :=
  match trimStart s with
  | String "-" r => Num.neg (unsigned r)
  | String "+" r => unsigned r
  | r => unsigned r
  end.

End Parse.

(** ** [Number.prototype.toString(36)] on a draw of [Math.random] *)

Module Radix36.

Definition digit (d : Z) : ascii :=
  if (d <? 10)%Z then ascii_of_nat (48 + Z.to_nat d)
  else ascii_of_nat (87 + Z.to_nat d).

(** The first [n] digits after the point of [q] in base 36, stopping when
    the expansion ends. *)
Fixpoint fraction (n : nat) (q : Q) : string :=
  match n with
  | O => ""
  | S n' =>
      if Qeq_bool q 0 then ""
      else
        let d := Qfloor (q * 36) in
        String (digit d) (fraction n' (q * 36 - inject_Z d))
  end.

(** [r.toString(36).substr(2, 6)] for [0 <= r < 1]: the text is ["0"] for
    zero and ["0."] followed by the digits otherwise, and [substr] skips
    the two leading characters. *)
Definition substr_2_6 (r : Q) : string := fraction 6 r.

End Radix36.

(** ** Data model *)

Inductive RiskLevel : Type := HIGH | MEDIUM | LOW.
Inductive Status : Type := FLAGGED | CLEARED | PENDING.

Definition RiskLevel_string (l : RiskLevel) : string :=
  match l with
  | HIGH => "HIGH"
  | MEDIUM => "MEDIUM"
  | LOW => "LOW"
  end.

Definition Status_string (s : Status) : string :=
  match s with
  | FLAGGED => "FLAGGED"
  | CLEARED => "CLEARED"
  | PENDING => "PENDING"
  end.

(** [interface Transaction] of SuspiciousTransactionsTable.tsx. *)
Record Transaction : Type := {
  tx_id : string;
  tx_amount : num;
  tx_from_account : string;
  tx_to_account : string;
  tx_timestamp : string;
  tx_risk_score : num;
  tx_risk_level : RiskLevel;
  tx_reason_codes : list string;
  tx_status : Status
}.

(** A row handed over by the upload: the columns [mockPredict] reads.
    [None] is a column the file does not have ([undefined]). *)
Record RawRow : Type := {
  row_amount : option string;
  row_from_account : option string;
  row_to_account : option string;
  row_timestamp : option string
}.

(** [interface SimulationResult] of TransactionSimulator.tsx. *)
Record SimulationResult : Type := {
  sim_risk_score : num;
  sim_risk_level : RiskLevel;
  sim_risk_factors : list string;
  sim_explanation : string
}.

(** [interface Node] and [interface Edge] of the graph view. *)
Record Node : Type := {
  node_id : string;
  node_label : string;
  node_risk_level : RiskLevel;
  node_account_type : string;
  node_total_volume : num
}.

Record Edge : Type := {
  edge_from : string;
  edge_to : string;
  edge_amount : num;
  edge_suspicious : bool
}.

Inductive Promise (A : Type) : Type :=
| Resolved (value : A)
| Rejected (reason : string).
Arguments Resolved {A} value.
Arguments Rejected {A} reason.

Record Toast : Type := {
  toast_title : string;
  toast_description : string;
  toast_destructive : bool
}.

(** ** Effects: the random source and the clock *)

Record Env : Type := {
  random_source : nat -> Q;   (* the successive values of [Math.random()] *)
  random_calls : nat;         (* how many of them were consumed *)
  now : string                (* [new Date().toISOString()] *)
}.

Definition Eff (A : Type) : Type := Env -> A * Env.

Definition ret {A : Type} (a : A) : Eff A := fun e => (a, e).

Definition bind {A B : Type} (c : Eff A) (k : A -> Eff B) : Eff B :=
  fun e => let '(a, e') := c e in k a e'.

Declare Scope eff_scope.
Delimit Scope eff_scope with eff.
Notation "x <- c ;; k" := (bind c (fun x => k))
  (at level 100, c at next level, right associativity) : eff_scope.
Open Scope eff_scope.

Definition Math_random : Eff Q :=
  fun e =>
    (random_source e (random_calls e),
     {| random_source := random_source e;
        random_calls := S (random_calls e);
        now := now e |}).

Definition Date_toISOString : Eff string := fun e => (now e, e).

(** [a || b] on a possibly missing string: [undefined] and [''] are the
    falsy ones, and [b] is evaluated only for them. *)
Definition falsy (s : string) : bool :=
  match s with
  | EmptyString => true
  | String _ _ => false
  end.

Definition or_else {A : Type} (v : option string) (present : string -> A)
    (otherwise : Eff A) : Eff A :=
  match v with
  | Some s => if falsy s then otherwise else ret (present s)
  | None => otherwise
  end.

(** [a.slice(0, end)] for an integral [end]. *)
Definition slice_0 {A : Type} (stop : Z) (l : list A) : list A :=
  if (stop <? 0)%Z then firstn (length l - Z.to_nat (- stop)) l
  else firstn (Z.to_nat stop) l.

(** [f] applied to each element and its index, left to right. *)
Fixpoint map_indexed {A B : Type} (f : A -> nat -> Eff B) (l : list A)
    (index : nat) : Eff (list B) :=
  match l with
  | [] => ret []
  | a :: l' =>
      b <- f a index ;;
      bs <- map_indexed f l' (S index) ;;
      ret (b :: bs)
  end.

(** ** The mock scoring service (CSVUpload.tsx, lines 159-190) *)

(** [`ACC-${Math.random().toString(36).substr(2, 6).toUpperCase()}`] *)
Definition random_account : Eff string :=
  r <- Math_random ;;
  ret ("ACC-" ++ Str.toUpperCase (Radix36.substr_2_6 r)).

(** [Math.floor(Math.random() * 3) + 1] *)
Definition random_count : Eff Z :=
  r <- Math_random ;;
  ret (Num.floor (r * 3) + 1)%Z.

(** The arrow function [mockPredict] maps over the rows. *)
Definition predict_row (row : RawRow) (index : nat) : Eff Transaction :=
  amount <- or_else (row_amount row) Parse.parseFloat
              (r <- Math_random ;; ret (Num.mul (Finite r) (Finite 100000))) ;;
  from_account <- or_else (row_from_account row) (fun s => s) random_account ;;
  to_account <- or_else (row_to_account row) (fun s => s) random_account ;;
  timestamp <- or_else (row_timestamp row) (fun s => s) Date_toISOString ;;
  risk_score <- Math_random ;;
  r1 <- Math_random ;;
  risk_level <-
    (if Num.gt (Finite r1) (Finite (7 # 10)) then ret HIGH
     else
       r2 <- Math_random ;;
       ret (if Num.gt (Finite r2) (Finite (4 # 10)) then MEDIUM else LOW)) ;;
  count <- random_count ;;
  ret {| tx_id := "TXN-" ++ Str.padStart 6 "0" (Str.of_nat (index + 1));
         tx_amount := amount;
         tx_from_account := from_account;
         tx_to_account := to_account;
         tx_timestamp := timestamp;
         tx_risk_score := Finite risk_score;
         tx_risk_level := risk_level;
         tx_reason_codes :=
           slice_0 count ["LARGE_AMOUNT"; "UNUSUAL_PATTERN"; "CROSS_BORDER"];
         tx_status := FLAGGED |}.

Definition mockPredict (data : list RawRow) : Eff (Promise (list Transaction)) :=
  txs <- map_indexed predict_row
           (slice_0 (Z.of_nat (Nat.min 10 (length data))) data) 0 ;;
  ret (Resolved txs).

(** The hypothetical transaction the simulator form submits. *)
Record SimTransaction : Type := {
  st_amount : num;
  st_from_account : string;
  st_to_account : string;
  st_transaction_type : string;
  st_timestamp : string
}.

Definition mockSimulate (transaction : SimTransaction)
    : Eff (Promise SimulationResult) :=
  r <- Math_random ;;
  let risk_score := Finite r in
  let risk_level :=
    if Num.gt risk_score (Finite (7 # 10)) then HIGH
    else if Num.gt risk_score (Finite (4 # 10)) then MEDIUM
    else LOW in
  count <- random_count ;;
  ret (Resolved
         {| sim_risk_score := risk_score;
            sim_risk_level := risk_level;
            sim_risk_factors :=
              slice_0 count ["LARGE_AMOUNT"; "UNUSUAL_TIME"; "NEW_RECIPIENT"];
            sim_explanation :=
              "This transaction has a "
              ++ Str.toLowerCase (RiskLevel_string risk_level)
              ++ " risk profile based on amount, timing, and recipient analysis." |}).

(** ** The derived graph (CSVUpload.tsx, lines 238-252) *)

Definition graphNodes (suspiciousTransactions : list Transaction) : list Node :=
  map (fun tx =>
         {| node_id := tx_from_account tx;
            node_label := tx_from_account tx;
            node_risk_level := tx_risk_level tx;
            node_account_type := "Standard";
            node_total_volume := tx_amount tx |})
      suspiciousTransactions.

Definition RiskLevel_eqb (a b : RiskLevel) : bool :=
  match a, b with
  | HIGH, HIGH | MEDIUM, MEDIUM | LOW, LOW => true
  | _, _ => false
  end.

Definition graphEdges (suspiciousTransactions : list Transaction) : list Edge :=
  map (fun tx =>
         {| edge_from := tx_from_account tx;
            edge_to := tx_to_account tx;
            edge_amount := tx_amount tx;
            edge_suspicious := RiskLevel_eqb (tx_risk_level tx) HIGH |})
      suspiciousTransactions.

(** ** React state *)

(** [useState] cells of [AMLDashboard]: the session. *)
Record Dashboard : Type := {
  uploadedData : list RawRow;
  suspiciousTransactions : list Transaction;
  isProcessing : bool;
  selectedTransaction : option Transaction
}.

Record FormData : Type := {
  form_amount : string;
  form_from_account : string;
  form_to_account : string;
  form_transaction_type : string
}.

(** [useState] cells of [TransactionSimulator]. *)
Record Simulator : Type := {
  formData : FormData;
  result : option SimulationResult;
  isLoading : bool
}.

Record World : Type := {
  env : Env;
  toasts : list Toast;          (* what [toast] was called with, oldest first *)
  dashboard : Dashboard;
  simulator : Simulator
}.

Definition set_env (e : Env) (w : World) : World :=
  {| env := e; toasts := toasts w; dashboard := dashboard w; simulator := simulator w |}.

Definition toast (t : Toast) (w : World) : World :=
  {| env := env w; toasts := toasts w ++ [t]; dashboard := dashboard w;
     simulator := simulator w |}.

Definition set_dashboard (d : Dashboard) (w : World) : World :=
  {| env := env w; toasts := toasts w; dashboard := d; simulator := simulator w |}.

Definition set_simulator (s : Simulator) (w : World) : World :=
  {| env := env w; toasts := toasts w; dashboard := dashboard w; simulator := s |}.

Definition setUploadedData (data : list RawRow) (w : World) : World :=
  let d := dashboard w in
  set_dashboard
    {| uploadedData := data; suspiciousTransactions := suspiciousTransactions d;
       isProcessing := isProcessing d; selectedTransaction := selectedTransaction d |} w.

Definition setSuspiciousTransactions (txs : list Transaction) (w : World) : World :=
  let d := dashboard w in
  set_dashboard
    {| uploadedData := uploadedData d; suspiciousTransactions := txs;
       isProcessing := isProcessing d; selectedTransaction := selectedTransaction d |} w.

Definition setIsProcessing (b : bool) (w : World) : World :=
  let d := dashboard w in
  set_dashboard
    {| uploadedData := uploadedData d;
       suspiciousTransactions := suspiciousTransactions d;
       isProcessing := b; selectedTransaction := selectedTransaction d |} w.

Definition setFormData (f : FormData) (w : World) : World :=
  let s := simulator w in
  set_simulator {| formData := f; result := result s; isLoading := isLoading s |} w.

Definition setResult (r : option SimulationResult) (w : World) : World :=
  let s := simulator w in
  set_simulator {| formData := formData s; result := r; isLoading := isLoading s |} w.

Definition setIsLoading (b : bool) (w : World) : World :=
  let s := simulator w in
  set_simulator {| formData := formData s; result := result s; isLoading := b |} w.

(** An effect on the environment alone, run inside the world. *)
Definition in_env {A : Type} (c : Eff A) (w : World) : A * World :=
  let '(a, e) := c (env w) in (a, set_env e w).

(** ** [AMLDashboard.handleDataUpload] (CSVUpload.tsx, lines 207-228) *)

Definition handleDataUpload (data : list RawRow) (w : World) : World :=
  let w := setUploadedData data w in
  let w := setIsProcessing true w in
  let '(outcome, w) := in_env (mockPredict data) w in
  let w :=
    match outcome with
    | Resolved suspicious =>
        let w := setSuspiciousTransactions suspicious w in
        toast {| toast_title := "Analysis Complete";
                 toast_description :=
                   "Found " ++ Str.of_nat (length suspicious)
                   ++ " suspicious transactions";
                 toast_destructive := false |} w
    | Rejected _ =>
        toast {| toast_title := "Analysis Failed";
                 toast_description := "Failed to analyze transactions";
                 toast_destructive := true |} w
    end in
  setIsProcessing false w.

(** ** [TransactionSimulator] (TransactionSimulator.tsx, lines 32-67) *)

Inductive FormField : Type :=
| field_amount | field_from_account | field_to_account | field_transaction_type.

Definition handleInputChange (field : FormField) (value : string) (w : World) : World :=
  let prev := formData (simulator w) in
  let next :=
    match field with
    | field_amount =>
        {| form_amount := value; form_from_account := form_from_account prev;
           form_to_account := form_to_account prev;
           form_transaction_type := form_transaction_type prev |}
    | field_from_account =>
        {| form_amount := form_amount prev; form_from_account := value;
           form_to_account := form_to_account prev;
           form_transaction_type := form_transaction_type prev |}
    | field_to_account =>
        {| form_amount := form_amount prev;
           form_from_account := form_from_account prev;
           form_to_account := value;
           form_transaction_type := form_transaction_type prev |}
    | field_transaction_type =>
        {| form_amount := form_amount prev;
           form_from_account := form_from_account prev;
           form_to_account := form_to_account prev;
           form_transaction_type := value |}
    end in
  setResult None (setFormData next w).

Definition missing_information : Toast :=
  {| toast_title := "Missing Information";
     toast_description := "Please fill in all required fields";
     toast_destructive := true |}.

Definition simulation_error : Toast :=
  {| toast_title := "Simulation Error";
     toast_description := "Failed to analyze transaction";
     toast_destructive := true |}.

(** The [onSimulate] prop is any function of the page: it may have any
    effect on the world. *)
Definition Scorer : Type := SimTransaction -> World -> Promise SimulationResult * World.

Definition handleSimulate (onSimulate : Scorer) (w : World) : World :=
  let form := formData (simulator w) in
  if falsy (form_amount form) || falsy (form_from_account form)
     || falsy (form_to_account form)
  then toast missing_information w
  else
    let w := setIsLoading true w in
    let '(timestamp, w) := in_env Date_toISOString w in
    let transaction :=
      {| st_amount := Parse.parseFloat (form_amount form);
         st_from_account := form_from_account form;
         st_to_account := form_to_account form;
         st_transaction_type := form_transaction_type form;
         st_timestamp := timestamp |} in
    let '(outcome, w) := onSimulate transaction w in
    let w :=
      match outcome with
      | Resolved simulationResult => setResult (Some simulationResult) w
      | Rejected _ => toast simulation_error w
      end in
    setIsLoading false w.

(** [<TransactionSimulator onSimulate={mockSimulate} />]: the scorer the
    dashboard passes down. *)
Definition dashboard_scorer : Scorer := fun transaction => in_env (mockSimulate transaction).

(** ** [Array.prototype.sort] *)

Module JsArray.

(** How [sort] reads the number a comparator returns: negative, zero or
    positive, with [NaN] read as zero. *)
Definition sort_order (v : num) : comparison :=
  match Num.sign v with
  | Some c => c
  | None => Eq
  end.

Section Sort.
Context {A : Type} (comparefn : A -> A -> num).

(** [x] moves right past every element it is greater than, and stops
    in front of the first one it is not. *)
Fixpoint insert (x : A) (l : list A) : list A :=
  match l with
  | [] => [x]
  | y :: l' =>
      match sort_order (comparefn x y) with
      | Gt => y :: insert x l'
      | _ => x :: l
      end
  end.

(** [Array.prototype.sort] is a built-in of the runtime.  For a
    comparator that is a consistent ordering ECMAScript asks for the
    sorted arrangement in which ties keep their input order; there is
    one such arrangement (lemma [stable_arrangement_unique]) and
    insertion sort builds it (lemma [sort_stands_before]), so [sort] is
    what every engine returns then (V8 does: lemma [V8_sort_stable]).
    For a comparator that is not a consistent ordering, as with a [NaN]
    among the numbers compared, the result is left to the engine, and
    [sort] is the result of an engine that sorts by insertion;
    [V8.sort] below is another. *)
Fixpoint sort (l : list A) : list A :=
  match l with
  | [] => []
  | x :: l' => insert x (sort l')
  end.
End Sort.

(** The elements of an array with their positions. *)
Definition positions {A : Type} (l : list A) : list (nat * A) :=
  combine (seq 0 (length l)) l.

(** [pos] gives the place an element had in the input.  In the output
    an element stands behind one that came later in the input only if
    the comparator put it there. *)
Definition in_place {A : Type} (comparefn : A -> A -> num) (pos : A -> nat)
    (p q : A) : Prop :=
  (pos p < pos q)%nat \/ sort_order (comparefn q p) = Gt.

End JsArray.

(** ** [Array.prototype.sort] in V8 *)

Module V8.

(** The sort of V8 (builtins/array-sort.tq) on an array of fewer than
    64 elements, which is sorted as a single run; the table never holds
    more than ten rows.  The run the array starts with is found and, if
    it descends, reversed; every further element is put into the sorted
    part at the place a binary search finds. *)
Section Sort.
Context {A : Type} (comparefn : A -> A -> num).

(** [Compare]: the sign of what the comparator returns, [NaN] read as
    zero. *)
Definition order (x y : A) : comparison := JsArray.sort_order (comparefn x y).

(** The loop of [CountAndMakeRun]: how many more elements the run has. *)
Fixpoint run_rest (isDescending : bool) (previousElement : A) (rest : list A) : nat :=
  match rest with
  | [] => 0
  | currentElement :: rest' =>
      match order currentElement previousElement, isDescending with
      | Lt, true | Eq, false | Gt, false =>
          S (run_rest isDescending currentElement rest')
      | _, _ => 0
      end
  end.

(** [CountAndMakeRun]: the length of the run at the head of the array,
    and the array with that run in ascending order. *)
Definition CountAndMakeRun (workArray : list A) : nat * list A :=
  match workArray with
  | elementHigh :: elementLow :: rest =>
      let isDescending :=
        match order elementLow elementHigh with Lt => true | _ => false end in
      let runLength := (2 + run_rest isDescending elementLow rest)%nat in
      (runLength,
       if isDescending
       then (rev (firstn runLength workArray) ++ skipn runLength workArray)%list
       else workArray)
  | _ => (length workArray, workArray)
  end.

(** The binary search of [BinaryInsertionSort]: the place of [pivot]
    among the elements [left] to [right - 1] of the sorted part.  The
    range halves at each step, so its length is fuel enough. *)
Fixpoint search (fuel : nat) (pivot : A) (sorted : list A) (left right : nat) : nat :=
  match fuel with
  | O => left
  | S fuel' =>
      if (left <? right)%nat then
        let mid := (left + (right - left) / 2)%nat in
        match sorted !! mid with
        | Some element =>
            match order pivot element with
            | Lt => search fuel' pivot sorted left mid
            | _ => search fuel' pivot sorted (S mid) right
            end
        | None => left
        end
      else left
  end.

(** [BinaryInsertionSort]: the elements of [rest] are put into the
    sorted part one after the other. *)
Fixpoint BinaryInsertionSort (sorted rest : list A) : list A :=
  match rest with
  | [] => sorted
  | pivot :: rest' =>
      let left := search (length sorted) pivot sorted 0 (length sorted) in
      BinaryInsertionSort (firstn left sorted ++ pivot :: skipn left sorted)%list rest'
  end.

Definition sort (l : list A) : list A :=
  let '(runLength, workArray) := CountAndMakeRun l in
  BinaryInsertionSort (firstn runLength workArray) (skipn runLength workArray).
End Sort.

End V8.

(** ** The table's query (SuspiciousTransactionsTable.tsx, lines 30-65) *)

(** [keyof Transaction] *)
Inductive SortField : Type :=
| sf_id | sf_amount | sf_from_account | sf_to_account | sf_timestamp
| sf_risk_score | sf_risk_level | sf_reason_codes | sf_status.

Inductive SortDirection : Type := asc | desc.

(** What a field of a transaction holds. *)
Inductive value : Type :=
| VNumber (n : num)
| VString (s : string)
| VArray (l : list string).

(** [tx[sortField]] *)
Definition get (sortField : SortField) (tx : Transaction) : value :=
  match sortField with
  | sf_id => VString (tx_id tx)
  | sf_amount => VNumber (tx_amount tx)
  | sf_from_account => VString (tx_from_account tx)
  | sf_to_account => VString (tx_to_account tx)
  | sf_timestamp => VString (tx_timestamp tx)
  | sf_risk_score => VNumber (tx_risk_score tx)
  | sf_risk_level => VString (RiskLevel_string (tx_risk_level tx))
  | sf_reason_codes => VArray (tx_reason_codes tx)
  | sf_status => VString (Status_string (tx_status tx))
  end.

(** The filter callback. *)
Definition matches (searchTerm filterRisk : string) (tx : Transaction) : bool :=
  let matchesSearch :=
    Str.includes (Str.toLowerCase (tx_from_account tx)) (Str.toLowerCase searchTerm)
    || Str.includes (Str.toLowerCase (tx_to_account tx)) (Str.toLowerCase searchTerm)
    || Str.includes (Str.toLowerCase (tx_id tx)) (Str.toLowerCase searchTerm) in
  let matchesRisk :=
    String.eqb filterRisk "all"
    || String.eqb (RiskLevel_string (tx_risk_level tx)) filterRisk in
  matchesSearch && matchesRisk.

Definition multiplier (sortDirection : SortDirection) : num :=
  match sortDirection with
  | asc => Finite 1
  | desc => Finite (-1)
  end.

(** Arrays live in a store and are named by references: [filter] makes a
    new array, [sort] rearranges the array it is called on and returns
    that same array. *)
Abbreviation loc := nat.
Abbreviation heap := (gmap nat (list Transaction)).

(** The sort of the engine the page runs on: the order it gives an array
    for a comparator. *)
Definition Engine : Type :=
  (Transaction -> Transaction -> num) -> list Transaction -> list Transaction.

Definition Array_filter (p : Transaction -> bool) (this : loc) (h : heap)
    : option (loc * heap) :=
  match h !! this with
  | Some xs => let l := fresh (dom h) in Some (l, <[l := List.filter p xs]> h)
  | None => None
  end.

Definition Array_sort (sort : Engine) (comparefn : Transaction -> Transaction -> num)
    (this : loc) (h : heap) : option (loc * heap) :=
  match h !! this with
  | Some xs => Some (this, <[this := sort comparefn xs]> h)
  | None => None
  end.

Section Query.
(** [String(n)] for a number [n] is a built-in of the runtime; the
    sort callback never reaches it with the fields of a [Transaction]
    (lemma [compareFn_same_kind]), and it is left open. *)
Variable Number_toString : num -> string.

(** [String(v)] *)
Definition String_of (v : value) : string :=
  match v with
  | VNumber n => Number_toString n
  | VString s => s
  | VArray l => Str.join "," l
  end.

(** The sort callback. *)
Definition compareFn (sortField : SortField) (sortDirection : SortDirection)
    (a b : Transaction) : num :=
  let aVal := get sortField a in
  let bVal := get sortField b in
  let multiplier := multiplier sortDirection in
  match aVal, bVal with
  | VNumber x, VNumber y => Num.mul (Num.sub x y) multiplier
  | _, _ =>
      Num.mul
        (Num.of_comparison (Str.localeCompare (String_of aVal) (String_of bVal)))
        multiplier
  end.

(** [transactions.filter(...).sort(...)], on the store, with the sort of
    the engine. *)
Definition filteredAndSortedTransactions (sort : Engine) (sortField : SortField)
    (sortDirection : SortDirection) (filterRisk searchTerm : string)
    (transactions : loc) (h : heap) : option (loc * heap) :=
  match Array_filter (matches searchTerm filterRisk) transactions h with
  | Some (filtered, h') =>
      Array_sort sort (compareFn sortField sortDirection) filtered h'
  | None => None
  end.

(** The array the query returns, as a function of the array it reads,
    when the comparator is a consistent ordering (for any comparator:
    on an engine that sorts by insertion). *)
Definition query (sortField : SortField) (sortDirection : SortDirection)
    (filterRisk searchTerm : string) (ts : list Transaction) : list Transaction :=
  JsArray.sort (compareFn sortField sortDirection)
    (List.filter (matches searchTerm filterRisk) ts).

(** The same query on transactions that carry their position in the
    input along. *)
Definition query_positions (sortField : SortField) (sortDirection : SortDirection)
    (filterRisk searchTerm : string) (ts : list Transaction)
    : list (nat * Transaction) :=
  JsArray.sort (fun p q => compareFn sortField sortDirection (snd p) (snd q))
    (List.filter (fun p => matches searchTerm filterRisk (snd p))
       (JsArray.positions ts)).
(** How the comparator orders two transactions before the direction is
    applied: the sign of the difference for two numbers, the comparison
    of the string forms otherwise. *)
Definition base_order (sortField : SortField) (a b : Transaction) : comparison :=
  match get sortField a, get sortField b with
  | VNumber x, VNumber y => JsArray.sort_order (Num.sub x y)
  | va, vb =>
      Str.localeCompare (String_of va) (String_of vb)
  end.
End Query.

(** [handleSort]: the next sort field and direction. *)
Definition SortField_eqb (a b : SortField) : bool :=
  match a, b with
  | sf_id, sf_id | sf_amount, sf_amount | sf_from_account, sf_from_account
  | sf_to_account, sf_to_account | sf_timestamp, sf_timestamp
  | sf_risk_score, sf_risk_score | sf_risk_level, sf_risk_level
  | sf_reason_codes, sf_reason_codes | sf_status, sf_status => true
  | _, _ => false
  end.

Definition handleSort (field : SortField) (current : SortField * SortDirection)
    : SortField * SortDirection :=
  let '(sortField, sortDirection) := current in
  if SortField_eqb sortField field
  then (sortField, match sortDirection with asc => desc | desc => asc end)
  else (field, desc).

(** ** What the specification asks for *)

Module Spec.

(** "risk_level = HIGH if risk_score > 0.7, MEDIUM if risk_score > 0.4,
    else LOW" *)
Definition quantize (risk_score : num) : RiskLevel :=
  if Num.gt risk_score (Finite (7 # 10)) then HIGH
  else if Num.gt risk_score (Finite (4 # 10)) then MEDIUM
  else LOW.

(** "severity order is HIGH > MEDIUM > LOW" *)
Definition severity (l : RiskLevel) : nat :=
  match l with
  | LOW => 0
  | MEDIUM => 1
  | HIGH => 2
  end.

Definition more_severe (a b : RiskLevel) : RiskLevel :=
  if (severity a <? severity b)%nat then b else a.

(** The transaction touches the account, as sender or as receiver. *)
Definition touches (account : string) (tx : Transaction) : bool :=
  String.eqb (tx_from_account tx) account || String.eqb (tx_to_account tx) account.

(** "sum of amounts of transactions where this account is sender or
    receiver" *)
Definition total_volume (account : string) (ts : list Transaction) : num :=
  fold_left (fun acc tx => Num.add acc (tx_amount tx))
    (List.filter (touches account) ts) (Finite 0).

(** "the maximum risk level among transactions touching this account" *)
Definition max_risk_level (account : string) (ts : list Transaction) : RiskLevel :=
  fold_left (fun acc tx => more_severe acc (tx_risk_level tx))
    (List.filter (touches account) ts) LOW.

(** Two numbers are the same number. *)
Definition same_number (x y : num) : Prop :=
  match x, y with
  | Finite a, Finite b => (a == b)%Q
  | PosInfinity, PosInfinity | NegInfinity, NegInfinity | NaN, NaN => True
  | _, _ => False
  end.

(** Graph Builder invariant: one node per account that appears in a
    transaction, with the summed volume and the maximal severity. *)
Definition node_invariant (ts : list Transaction) (nodes : list Node) : Prop :=
  forall account,
    (exists tx, In tx ts /\ touches account tx = true) ->
    exists n,
      List.filter (fun n => String.eqb (node_id n) account) nodes = [n]
      /\ same_number (node_total_volume n) (total_volume account ts)
      /\ node_risk_level n = max_risk_level account ts.

Definition present (v : option string) : bool :=
  match v with
  | Some s => negb (falsy s)
  | None => false
  end.

(** A raw transaction the spec lets in: a numeric, non-negative amount
    and two non-empty account identifiers. *)
Definition valid (row : RawRow) : bool :=
  match row_amount row with
  | Some s =>
      match Parse.parseFloat s with
      | Finite q => Qle_bool 0 q
      | _ => false
      end
  | None => false
  end
  && present (row_from_account row) && present (row_to_account row).

(** "Fails the whole batch with ValidationError if any raw transaction
    has a negative or non-numeric amount, or an empty account
    identifier", and the store is left as it was. *)
Definition atomic_ingest (data : list RawRow) (w : World) : Prop :=
  (exists row, In row data /\ valid row = false) ->
  (exists reason, fst (mockPredict data (env w)) = Rejected reason)
  /\ suspiciousTransactions (dashboard (handleDataUpload data w))
     = suspiciousTransactions (dashboard w).

(** The transaction was made from the record. *)
Definition made_from (row : RawRow) (tx : Transaction) : Prop :=
  (forall s, row_amount row = Some s -> falsy s = false ->
             tx_amount tx = Parse.parseFloat s)
  /\ (forall s, row_from_account row = Some s -> falsy s = false ->
                tx_from_account tx = s)
  /\ (forall s, row_to_account row = Some s -> falsy s = false ->
                tx_to_account tx = s).

(** "ingest followed by all() returns transactions in the same order as
    the input", none dropped. *)
Definition ingest_complete (data : list RawRow) (w : World) : Prop :=
  forallb valid data = true ->
  Forall2 made_from data (suspiciousTransactions (dashboard (handleDataUpload data w))).

(** The search text occurs in the field, whatever the case of letters. *)
Definition ci_substring (searchTerm field : string) : Prop :=
  Str.substring_of (Str.toLowerCase searchTerm) (Str.toLowerCase field).

Definition search_condition (searchTerm : string) (tx : Transaction) : Prop :=
  ci_substring searchTerm (tx_id tx)
  \/ ci_substring searchTerm (tx_from_account tx)
  \/ ci_substring searchTerm (tx_to_account tx).

Definition risk_condition (filterRisk : string) (tx : Transaction) : Prop :=
  filterRisk = "all" \/ filterRisk = RiskLevel_string (tx_risk_level tx).

End Spec.

(** ** Concrete inputs used below *)

Module Sample.

Definition raw (amount from_account to_account : string) : RawRow :=
  {| row_amount := Some amount; row_from_account := Some from_account;
     row_to_account := Some to_account; row_timestamp := Some "2024-01-01T00:00:00.000Z" |}.

(** A random source that yields the listed values, then zeros. *)
Definition draws (l : list Q) : Env :=
  {| random_source := fun n => nth n l 0%Q; random_calls := 0; now := "2024-01-01T00:00:00.000Z" |}.

Definition empty_dashboard : Dashboard :=
  {| uploadedData := []; suspiciousTransactions := []; isProcessing := false;
     selectedTransaction := None |}.

Definition form (amount from_account to_account : string) : FormData :=
  {| form_amount := amount; form_from_account := from_account;
     form_to_account := to_account; form_transaction_type := "transfer" |}.

(** The page as it is first rendered. *)
Definition initial (e : Env) : World :=
  {| env := e; toasts := []; dashboard := empty_dashboard;
     simulator := {| formData := form "" "" ""; result := None; isLoading := false |} |}.

End Sample.

(** ** Notions the statements below use *)

(** An identifier [mockPredict] makes up for a missing account. *)
Definition generated_account (s : string) : Prop :=
  exists r : Q, s = "ACC-" ++ Str.toUpperCase (Radix36.substr_2_6 r).

Definition transaction_id (index : nat) : string :=
  "TXN-" ++ Str.padStart 6 "0" (Str.of_nat (index + 1)).

(** What [predict_row] makes of a record at a given index. *)
Record row_outcome (row : RawRow) (index : nat) (tx : Transaction) : Prop := {
  outcome_id : tx_id tx = transaction_id index;
  outcome_amount :
    match row_amount row with
    | Some (String c s) => tx_amount tx = Parse.parseFloat (String c s)
    | _ => exists r : Q, tx_amount tx = Num.mul (Finite r) (Finite 100000)
    end;
  outcome_from :
    match row_from_account row with
    | Some (String c s) => tx_from_account tx = String c s
    | _ => generated_account (tx_from_account tx)
    end;
  outcome_to :
    match row_to_account row with
    | Some (String c s) => tx_to_account tx = String c s
    | _ => generated_account (tx_to_account tx)
    end;
  outcome_status : tx_status tx = FLAGGED
}.

(** The transactions [mockPredict] resolves with. *)
Definition predicted (data : list RawRow) (e : Env) : list Transaction :=
  fst (map_indexed predict_row (firstn 10 data) 0 e).

(** What the stored transaction keeps of a record, valid or not. *)
Definition taken_unchecked (row : RawRow) (tx : Transaction) : Prop :=
  match row_amount row with
  | Some (String c s) => tx_amount tx = Parse.parseFloat (String c s)
  | _ => exists r : Q, tx_amount tx = Num.mul (Finite r) (Finite 100000)
  end
  /\ match row_from_account row with
     | Some (String c s) => tx_from_account tx = String c s
     | _ => generated_account (tx_from_account tx)
     end
  /\ match row_to_account row with
     | Some (String c s) => tx_to_account tx = String c s
     | _ => generated_account (tx_to_account tx)
     end.

Definition eleven_rows : list RawRow :=
  map (fun n => Sample.raw "100" ("ACC-" ++ Str.of_nat n) "ACC-0") (seq 1 11).

Definition store_A_to_B : list Transaction :=
  [ {| tx_id := "TXN-000001"; tx_amount := Finite 10000;
       tx_from_account := "A"; tx_to_account := "B";
       tx_timestamp := "2024-01-01T00:00:00.000Z";
       tx_risk_score := Finite (85 # 100); tx_risk_level := HIGH;
       tx_reason_codes := ["LARGE_AMOUNT"]; tx_status := FLAGGED |} ].

(** The analyst types an amount, a sender and a receiver into the form
    and submits it; and again, once per entry of the list. *)
Definition fill_form (entry : string * string * string) (w : World) : World :=
  let '(amount, from_account, to_account) := entry in
  handleInputChange field_to_account to_account
    (handleInputChange field_from_account from_account
       (handleInputChange field_amount amount w)).

Fixpoint simulate_each (entries : list (string * string * string)) (w : World) : World :=
  match entries with
  | [] => w
  | entry :: entries' =>
      simulate_each entries' (handleSimulate dashboard_scorer (fill_form entry w))
  end.

(** A scorer that would leave a trace: it throws the form away. *)
Definition tracing_scorer : Scorer :=
  fun transaction w =>
    (Rejected "called", setFormData (Sample.form "called" "called" "called") w).

(** The sort direction applied to an order. *)
Definition directed (sortDirection : SortDirection) (c : comparison) : comparison :=
  match sortDirection with
  | asc => c
  | desc => CompOpp c
  end.

(** The string a field that is not a number is compared by. *)
Definition text_form (sortField : SortField) (tx : Transaction) : option string :=
  match sortField with
  | sf_amount | sf_risk_score => None
  | sf_id => Some (tx_id tx)
  | sf_from_account => Some (tx_from_account tx)
  | sf_to_account => Some (tx_to_account tx)
  | sf_timestamp => Some (tx_timestamp tx)
  | sf_risk_level => Some (RiskLevel_string (tx_risk_level tx))
  | sf_reason_codes => Some (Str.join "," (tx_reason_codes tx))
  | sf_status => Some (Status_string (tx_status tx))
  end.

(** The place of a level in the alphabet: HIGH, LOW, MEDIUM. *)
Definition alphabetical (l : RiskLevel) : nat :=
  match l with
  | HIGH => 0
  | LOW => 1
  | MEDIUM => 2
  end.

Definition two_ties : list Transaction :=
  [ {| tx_id := "TXN-000001"; tx_amount := Finite 500;
       tx_from_account := "ACC-A1"; tx_to_account := "ACC-B1";
       tx_timestamp := "2024-01-01T00:00:00.000Z";
       tx_risk_score := Finite (85 # 100); tx_risk_level := HIGH;
       tx_reason_codes := ["LARGE_AMOUNT"]; tx_status := FLAGGED |};
    {| tx_id := "TXN-000002"; tx_amount := Finite 500;
       tx_from_account := "ACC-B1"; tx_to_account := "ACC-C1";
       tx_timestamp := "2024-01-02T00:00:00.000Z";
       tx_risk_score := Finite (10 # 100); tx_risk_level := LOW;
       tx_reason_codes := ["LARGE_AMOUNT"]; tx_status := FLAGGED |} ].

(** A comparator is a consistent ordering of the elements of [l]:
    swapping the arguments swaps the sign, and "not after" is
    transitive.  (This implies what ECMAScript calls a consistent
    comparator on [l].) *)
Definition consistent {A : Type} (comparefn : A -> A -> num) (l : list A) : Prop :=
  (forall a b, In a l -> In b l ->
     JsArray.sort_order (comparefn a b) = CompOpp (JsArray.sort_order (comparefn b a)))
  /\ (forall a b c, In a l -> In b l -> In c l ->
        JsArray.sort_order (comparefn a b) <> Gt ->
        JsArray.sort_order (comparefn b c) <> Gt ->
        JsArray.sort_order (comparefn a c) <> Gt).

(** Of two elements that carry their input position, [p] may stand
    before [q]: the comparator puts it first, or ties them and [p] came
    first. *)
Definition stands_before {A : Type} (comparefn : A -> A -> num) (p q : nat * A) : Prop :=
  match JsArray.sort_order (comparefn (snd p) (snd q)) with
  | Lt => True
  | Eq => (fst p < fst q)%nat
  | Gt => False
  end.

(** What ECMAScript asks of [sort] for a consistent comparator: the
    output holds the elements of the input, in order, ties in the order
    of the input. *)
Definition stable_arrangement {A : Type} (comparefn : A -> A -> num)
    (input output : list (nat * A)) : Prop :=
  Permutation output input /\ StronglySorted (stands_before comparefn) output.

(** The sort field of a transaction holds [NaN]. *)
Definition holds_NaN (sortField : SortField) (tx : Transaction) : Prop :=
  get sortField tx = VNumber NaN.

(** Four records whose amount cells read 2, 1, n/a and 0, and the
    transactions the store holds once they are uploaded: the third
    amount is [NaN], what [parseFloat] makes of a cell that holds no
    number. *)
Definition nan_rows : list RawRow :=
  [ Sample.raw "2" "ACC-A1" "ACC-B1"; Sample.raw "1" "ACC-A1" "ACC-B1";
    Sample.raw "n/a" "ACC-A1" "ACC-B1"; Sample.raw "0" "ACC-A1" "ACC-B1" ].

Definition amount_of (id : string) (amount : num) : Transaction :=
  {| tx_id := id; tx_amount := amount;
     tx_from_account := "ACC-A1"; tx_to_account := "ACC-B1";
     tx_timestamp := "2024-01-01T00:00:00.000Z";
     tx_risk_score := Finite 0; tx_risk_level := LOW;
     tx_reason_codes := ["LARGE_AMOUNT"]; tx_status := FLAGGED |}.

Definition nan_amounts : list Transaction :=
  [ amount_of "TXN-000001" (Finite 2);
    amount_of "TXN-000002" (Finite 1);
    amount_of "TXN-000003" NaN;
    amount_of "TXN-000004" (Finite 0) ].

(** ** The CSV upload (CSVUpload.tsx, lines 12-75) *)

Module Csv.

(** [s.split(sep)] for a one-character separator: the pieces between the
    separators, one more than there are separators. *)
Fixpoint split (sep : ascii) (s : string) : list string :=
  match s with
  | EmptyString => [EmptyString]
  | String c s' =>
      if Ascii.eqb c sep then EmptyString :: split sep s'
      else
        match split sep s' with
        | piece :: pieces => String c piece :: pieces
        | [] => [String c EmptyString]
        end
  end.

Fixpoint trimEnd (s : string) : string :=
  match s with
  | EmptyString => EmptyString
  | String c s' =>
      match trimEnd s' with
      | EmptyString => if Parse.is_space c then EmptyString else String c EmptyString
      | t => String c t
      end
  end.

(** [s.trim()] *)
Definition trim (s : string) : string := trimEnd (Parse.trimStart s).

(** The [id] property of a row: the number the parser gives it, or the
    text of a column that is itself called [id]. *)
Inductive RowId : Type :=
| IdNumber (n : nat)
| IdText (s : string).

(** The object built for one line: its [id] and its other own
    properties, which all hold strings. *)
Record Row : Type := {
  csv_id : RowId;
  csv_fields : gmap string string
}.

(** [row[header] = value].  Assigning a string to [__proto__] leaves an
    object as it is. *)
Definition set_property (header value : string) (row : Row) : Row :=
  if String.eqb header "__proto__" then row
  else if String.eqb header "id" then
    {| csv_id := IdText value; csv_fields := csv_fields row |}
  else
    {| csv_id := csv_id row; csv_fields := <[header := value]> (csv_fields row) |}.

(** [headers.forEach((header, i) => { row[header] = values[i] || ''; })],
    from position [i] on. *)
Fixpoint assign_columns (headers values : list string) (i : nat) (row : Row) : Row :=
  match headers with
  | [] => row
  | header :: headers' =>
      assign_columns headers' values (S i)
        (set_property header (nth i values "") row)
  end.

Definition cells (line : string) : list string := map trim (split "," line).

(** The body of [reader.onload] up to [onUpload(data)]. *)
Definition parse (csv : string) : list Row :=
  let lines := split "010" csv in
  let headers := cells (hd "" lines) in
  imap (fun index line =>
          assign_columns headers (cells line) 0
            {| csv_id := IdNumber (index + 1); csv_fields := ∅ |})
    (List.filter (fun line => negb (falsy (trim line))) (tl lines)).

(** What [mockPredict] reads of a row. *)
Definition to_raw (row : Row) : RawRow :=
  {| row_amount := csv_fields row !! "amount";
     row_from_account := csv_fields row !! "from_account";
     row_to_account := csv_fields row !! "to_account";
     row_timestamp := csv_fields row !! "timestamp" |}.

End Csv.

Record File : Type := {
  file_name : string;
  file_type : string;
  file_text : string      (* what [reader.readAsText] hands to [onload] *)
}.

(** [useState] cells of [CSVUpload]. *)
Record UploadState : Type := {
  file : option File;
  isDragging : bool
}.

(** The dashboard page with the upload card on it. *)
Record Page : Type := {
  world : World;
  upload : UploadState
}.

Definition setFile (f : File) (p : Page) : Page :=
  {| world := world p;
     upload := {| file := Some f; isDragging := isDragging (upload p) |} |}.

Definition setIsDragging (b : bool) (p : Page) : Page :=
  {| world := world p;
     upload := {| file := file (upload p); isDragging := b |} |}.

Definition in_world (f : World -> World) (p : Page) : Page :=
  {| world := f (world p); upload := upload p |}.

(** [handleDataUpload] is asynchronous: called without [await], it runs
    up to its first [await] (the timer inside [mockPredict]) and the rest
    of it runs after its caller has finished. *)
Definition handleDataUpload_begin (data : list RawRow) (w : World) : World :=
  setIsProcessing true (setUploadedData data w).

Definition handleDataUpload_resume (data : list RawRow) (w : World) : World :=
  let '(outcome, w) := in_env (mockPredict data) w in
  let w :=
    match outcome with
    | Resolved suspicious =>
        let w := setSuspiciousTransactions suspicious w in
        toast {| toast_title := "Analysis Complete";
                 toast_description :=
                   "Found " ++ Str.of_nat (length suspicious)
                   ++ " suspicious transactions";
                 toast_destructive := false |} w
    | Rejected _ =>
        toast {| toast_title := "Analysis Failed";
                 toast_description := "Failed to analyze transactions";
                 toast_destructive := true |} w
    end in
  setIsProcessing false w.

Definition file_uploaded (rows : nat) : Toast :=
  {| toast_title := "File uploaded successfully";
     toast_description := "Processed " ++ Str.of_nat rows ++ " transactions";
     toast_destructive := false |}.

Definition invalid_file_type : Toast :=
  {| toast_title := "Invalid file type";
     toast_description := "Please upload a CSV file";
     toast_destructive := true |}.

(** [processFile]: the file is read, parsed and handed to the dashboard
    ([onUpload] is [handleDataUpload]); nothing in the [try] block
    throws on a text, so its [catch] is never entered. *)
Definition processFile (selectedFile : File) (p : Page) : Page :=
  let data := map Csv.to_raw (Csv.parse (file_text selectedFile)) in
  let p := in_world (handleDataUpload_begin data) p in
  let p := in_world (toast (file_uploaded (length data))) p in
  in_world (handleDataUpload_resume data) p.

(** [handleDrop], given [e.dataTransfer.files[0]]. *)
Definition handleDrop (droppedFile : option File) (p : Page) : Page :=
  let p := setIsDragging false p in
  match droppedFile with
  | Some f =>
      if String.eqb (file_type f) "text/csv" then processFile f (setFile f p)
      else in_world (toast invalid_file_type) p
  | None => in_world (toast invalid_file_type) p
  end.

(** [handleFileSelect], given [e.target.files?.[0]]. *)
Definition handleFileSelect (selectedFile : option File) (p : Page) : Page :=
  match selectedFile with
  | Some f => processFile f (setFile f p)
  | None => p
  end.

(** [getStatusText]; [isProcessing] is the dashboard's. *)
Definition getStatusText (p : Page) : string :=
  if isProcessing (dashboard (world p)) then "Processing..."
  else match file (upload p) with
       | Some f => file_name f
       | None => "Drop CSV file or click to browse"
       end.

(** ** The rest of the dashboard (CSVUpload.tsx, lines 230-291) *)

Definition setSelectedTransaction (t : option Transaction) (w : World) : World :=
  let d := dashboard w in
  set_dashboard
    {| uploadedData := uploadedData d;
       suspiciousTransactions := suspiciousTransactions d;
       isProcessing := isProcessing d; selectedTransaction := t |} w.

Definition handleViewTransactionDetails (transaction : Transaction) (w : World) : World :=
  let w := setSelectedTransaction (Some transaction) w in
  toast {| toast_title := "Transaction Details";
           toast_description := "Viewing details for " ++ tx_id transaction;
           toast_destructive := false |} w.

(** The filter of [handleNodeClick]. *)
Definition relatedTransactions (nodeId : string) (ts : list Transaction)
    : list Transaction :=
  List.filter
    (fun tx => String.eqb (tx_from_account tx) nodeId
               || String.eqb (tx_to_account tx) nodeId) ts.

Definition account_analysis (count : nat) (nodeId : string) : Toast :=
  {| toast_title := "Account Analysis";
     toast_description :=
       Str.of_nat count ++ " transactions involving " ++ nodeId;
     toast_destructive := false |}.

Definition handleNodeClick (nodeId : string) (w : World) : World :=
  let related := relatedTransactions nodeId (suspiciousTransactions (dashboard w)) in
  toast (account_analysis (length related) nodeId) w.

(** [x / y], the zero of a divisor being the positive one. *)
Definition num_div (x y : num) : num :=
  match x, y with
  | NaN, _ | _, NaN => NaN
  | Finite a, Finite b =>
      if Qeq_bool b 0 then Num.infinity (a ?= 0)%Q else Num.of_Q (a / b)
  | Finite _, _ => Finite 0
  | _, Finite b =>
      match Num.sign x, (b ?= 0)%Q with
      | Some s, Lt => Num.infinity (CompOpp s)
      | Some s, _ => Num.infinity s
      | None, _ => NaN
      end
  | _, _ => NaN
  end.

(** The numbers of [dashboardStats].  The "Risk Score" card shows the
    text "0%" for an empty store ([None]) and otherwise the number below
    with one decimal. *)
Definition stat_total (d : Dashboard) : nat := length (uploadedData d).

Definition stat_flagged (d : Dashboard) : nat := length (suspiciousTransactions d).

Definition stat_high_risk (d : Dashboard) : nat :=
  length (List.filter (fun tx => RiskLevel_eqb (tx_risk_level tx) HIGH)
            (suspiciousTransactions d)).

Definition stat_risk_score (d : Dashboard) : option num :=
  let txs := suspiciousTransactions d in
  if (0 <? length txs)%nat then
    Some (Num.mul
            (num_div (fold_left (fun acc tx => Num.add acc (tx_risk_score tx)) txs (Finite 0))
                     (Finite (inject_Z (Z.of_nat (length txs)))))
            (Finite 100))
  else None.

(** ** The report card (ReportGenerator.tsx) *)

(** The "Risk Percentage" of [reportStats]: the text "0%" when nothing
    was uploaded ([None]), otherwise the number below with one decimal. *)
Definition risk_percentage (transactionCount suspiciousCount : nat) : option num :=
  if (0 <? transactionCount)%nat then
    Some (Num.mul
            (num_div (Finite (inject_Z (Z.of_nat suspiciousCount)))
                     (Finite (inject_Z (Z.of_nat transactionCount))))
            (Finite 100))
  else None.

(** [disabled={isGenerating || suspiciousCount === 0}] *)
Definition generate_disabled (isGenerating : bool) (suspiciousCount : nat) : bool :=
  isGenerating || (suspiciousCount =? 0)%nat.

(** The props the dashboard passes to the report card. *)
Definition report_transactionCount (d : Dashboard) : nat := length (uploadedData d).
Definition report_suspiciousCount (d : Dashboard) : nat :=
  length (suspiciousTransactions d).

(** [`AML_Report_${new Date().toISOString().split('T')[0]}.pdf`] *)
Definition report_filename (e : Env) : string :=
  "AML_Report_" ++ hd "" (Csv.split "T" (now e)) ++ ".pdf".

(** ** The graph view (GraphVisualization) *)

(** Where the node at [index] is drawn, in percent of the panel. *)
Definition node_x (index : nat) : nat := 20 + (index mod 4) * 20.
Definition node_y (index : nat) : nat := 20 + (index / 4) * 25.

(** [nodes.find(p)], by the place of the node found.  The nodes of the
    array are distinct objects, so [nodes.indexOf] of the node found is
    that place. *)
Fixpoint find_index {A : Type} (p : A -> bool) (l : list A) : option nat :=
  match l with
  | [] => None
  | a :: l' => if p a then Some 0%nat else option_map S (find_index p l')
  end.

(** The line drawn for an edge, [None] when the edge is skipped:
    [x1], [y1], [x2], [y2]. *)
Definition edge_line (nodes : list Node) (edge : Edge) : option (nat * nat * nat * nat) :=
  let fromNode := find_index (fun n => String.eqb (node_id n) (edge_from edge)) nodes in
  let toNode := find_index (fun n => String.eqb (node_id n) (edge_to edge)) nodes in
  match fromNode, toNode with
  | Some fromIndex, Some toIndex =>
      Some (node_x fromIndex * 4, node_y fromIndex * 4,
            node_x toIndex * 4, node_y toIndex * 4)%nat
  | _, _ => None
  end.

(** ** The table's cells (SuspiciousTransactionsTable.tsx, lines 170-181) *)

(** The reason codes shown in a row: the first two, and the number of
    the others when there are others. *)
Definition shown_reason_codes (tx : Transaction) : list string * option nat :=
  (slice_0 2 (tx_reason_codes tx),
   if (2 <? length (tx_reason_codes tx))%nat
   then Some (length (tx_reason_codes tx) - 2)%nat else None).

(** ** Notions the statements about the upload use *)

(** The lines of a file that become rows: those after the first that
    are not blank. *)
Definition data_lines (csv : string) : list string :=
  List.filter (fun line => negb (falsy (Csv.trim line))) (tl (Csv.split "010" csv)).

(** The column names of a file. *)
Definition header_names (csv : string) : list string :=
  Csv.cells (hd "" (Csv.split "010" csv)).

(** The place of the last column called [name], counting from [i]. *)
Fixpoint last_column (name : string) (headers : list string) (i : nat) : option nat :=
  match headers with
  | [] => None
  | header :: headers' =>
      match last_column name headers' (S i) with
      | Some j => Some j
      | None => if String.eqb header name then Some i else None
      end
  end.

(** [Math.random] keeps its promise: every value is in [0, 1). *)
Definition unit_source (e : Env) : Prop :=
  forall n : nat, (0 <= random_source e n)%Q /\ (random_source e n < 1)%Q.

(** The first one, two or three of a list of three. *)
Definition leading_part (l part : list string) : Prop :=
  part = firstn 1 l \/ part = firstn 2 l \/ part = firstn 3 l.

(** A score [Math.random] can give. *)
Definition unit_score (x : num) : Prop :=
  exists r : Q, x = Finite r /\ (0 <= r)%Q /\ (r < 1)%Q.

(** What [predict_row] makes under a random source that keeps its
    promise. *)
Definition scored_in_range (tx : Transaction) : Prop :=
  unit_score (tx_risk_score tx)
  /\ leading_part ["LARGE_AMOUNT"; "UNUSUAL_PATTERN"; "CROSS_BORDER"] (tx_reason_codes tx)
  /\ tx_status tx = FLAGGED.

(** The name of a level as the explanation of a simulation spells it. *)
Definition level_word (l : RiskLevel) : string :=
  match l with
  | HIGH => "high"
  | MEDIUM => "medium"
  | LOW => "low"
  end.

(** ** Notions the statements about sorting use *)

(** The number a transaction holds in a field, when it is a finite
    number. *)
Definition number_key (sortField : SortField) (tx : Transaction) : option Q :=
  match get sortField tx with
  | VNumber (Finite q) => Some q
  | _ => None
  end.

(** Two numbers stand in the order of the sort direction. *)
Definition key_ordered (sortDirection : SortDirection) (p q : Q) : Prop :=
  match sortDirection with
  | asc => (p <= q)%Q
  | desc => (q <= p)%Q
  end.

(** ** More concrete inputs *)

Definition pdf_file : File :=
  {| file_name := "report.pdf"; file_type := "application/pdf";
     file_text := "amount,from_account,to_account" |}.

Definition first_page : Page :=
  {| world := Sample.initial (Sample.draws []);
     upload := {| file := None; isDragging := true |} |}.

(** A scorer that fails and touches nothing. *)
Definition failing_scorer (reason : string) : Scorer :=
  fun transaction w => (Rejected reason, w).

(** The first transaction of a list. *)
Definition hd_tx (ts : list Transaction) : Transaction :=
  hd {| tx_id := ""; tx_amount := NaN; tx_from_account := ""; tx_to_account := "";
        tx_timestamp := ""; tx_risk_score := NaN; tx_risk_level := LOW;
        tx_reason_codes := []; tx_status := PENDING |} ts.

(** A file of a header line, a full line, a blank line and a short
    line. *)
Definition sample_csv : string :=
  "amount, from_account ,to_account" ++ String "010"
    ("100,A,B" ++ String "010" ("   " ++ String "010" ("5" ++ String "010" ""))).

(** * Properties *)

(** ** Scoring: level against score *)

(** [mockSimulate] derives the level from the score it drew. *)
Lemma mockSimulate_quantized (transaction : SimTransaction) (e : Env) :
  exists r,
    fst (mockSimulate transaction e) = Resolved r
    /\ sim_risk_level r = Spec.quantize (sim_risk_score r).
Proof.
  unfold mockSimulate, bind, Math_random, random_count, ret; simpl.
  eexists; split; [reflexivity | reflexivity].
Qed.

(** C1 (fails on the ingestion path): [mockPredict] draws the score with
    one call of [Math.random] and decides the level from two later,
    unrelated draws.  With the draws 0.9, 0.1, 0.1 the one transaction of
    the batch has score 0.9, which quantizes to HIGH, and level LOW. *)
Theorem mockPredict_level_not_from_score :
  exists tx,
    fst (mockPredict [Sample.raw "10000" "A" "B"]
           (Sample.draws [9 # 10; 1 # 10; 1 # 10])) = Resolved [tx]
    /\ tx_risk_score tx = Finite (9 # 10)
    /\ tx_risk_level tx = LOW
    /\ Spec.quantize (tx_risk_score tx) = HIGH.
Proof.
  eexists; split; [vm_compute; reflexivity |].
  repeat split.
Qed.

(** ** Ingestion *)

Ltac run_eff :=
  repeat match goal with
         | |- context [let '(_, _) := ?c in _] => destruct c eqn:?
         end.

Lemma predict_row_fields (row : RawRow) (index : nat) (e : Env) :
  let tx := fst (predict_row row index e) in
  tx_id tx = transaction_id index
  /\ tx_amount tx
     = fst (or_else (row_amount row) Parse.parseFloat
              (r <- Math_random ;; ret (Num.mul (Finite r) (Finite 100000))) e)
  /\ (exists e1, tx_from_account tx
                 = fst (or_else (row_from_account row) (fun s => s) random_account e1))
  /\ (exists e2, tx_to_account tx
                 = fst (or_else (row_to_account row) (fun s => s) random_account e2))
  /\ tx_status tx = FLAGGED.
Proof.
  unfold predict_row, bind.
  destruct (or_else (row_amount row) _ _ e) as [amount e1].
  destruct (or_else (row_from_account row) _ _ e1) as [from_account e2] eqn:Ef.
  destruct (or_else (row_to_account row) _ _ e2) as [to_account e3] eqn:Et.
  run_eff.
  destruct (Num.gt _ _); run_eff; cbn [fst ret tx_id tx_amount tx_from_account
                                        tx_to_account tx_status];
    (split; [reflexivity |]; split; [reflexivity |];
     split; [exists e1; rewrite Ef; reflexivity |];
     split; [exists e2; rewrite Et; reflexivity | reflexivity]).
Qed.

Lemma or_else_account (v : option string) (e : Env) :
  match v with
  | Some (String c s) => fst (or_else v (fun s => s) random_account e) = String c s
  | _ => generated_account (fst (or_else v (fun s => s) random_account e))
  end.
Proof.
  destruct v as [[|c s]|]; try reflexivity;
    (exists (random_source e (random_calls e)); reflexivity).
Qed.

Lemma predict_row_outcome (row : RawRow) (index : nat) (e : Env) :
  row_outcome row index (fst (predict_row row index e)).
Proof.
  destruct (predict_row_fields row index e) as (Hid & Ha & [e1 Hf] & [e2 Ht] & Hs).
  split; try assumption.
  - rewrite Ha. destruct (row_amount row) as [[|c s]|]; try reflexivity;
      (exists (random_source e (random_calls e)); reflexivity).
  - rewrite Hf. apply or_else_account.
  - rewrite Ht. apply or_else_account.
Qed.

Lemma map_indexed_length {A B : Type} (f : A -> nat -> Eff B) (l : list A) :
  forall index e, length (fst (map_indexed f l index e)) = length l.
Proof.
  induction l as [|a l IH]; intros index e; [reflexivity |].
  cbn [map_indexed]. unfold bind at 1.
  destruct (f a index e) as [b e1]. unfold bind at 1.
  specialize (IH (S index) e1).
  destruct (map_indexed f l (S index) e1) as [bs e2].
  cbn in *. now rewrite IH.
Qed.

Lemma map_indexed_lookup {A B : Type} (P : A -> nat -> B -> Prop)
    (f : A -> nat -> Eff B) :
  (forall a index e, P a index (fst (f a index e))) ->
  forall (l : list A) index e j a,
    l !! j = Some a ->
    exists b, fst (map_indexed f l index e) !! j = Some b /\ P a (index + j)%nat b.
Proof.
  intros Hf. induction l as [|x l IH]; intros index e j a Hj; [discriminate |].
  cbn [map_indexed]. unfold bind at 1.
  pose proof (Hf x index e) as Hx.
  destruct (f x index e) as [b e1]. unfold bind at 1.
  destruct j as [|j].
  - injection Hj as ->.
    destruct (map_indexed f l (S index) e1) as [bs e2].
    exists b. split; [reflexivity |]. now rewrite Nat.add_0_r.
  - destruct (IH (S index) e1 j a Hj) as (b' & Hb' & HP).
    destruct (map_indexed f l (S index) e1) as [bs e2].
    exists b'. split; [exact Hb' |].
    now replace (index + S j)%nat with (S index + j)%nat by lia.
Qed.

Lemma slice_first_ten {A : Type} (data : list A) :
  slice_0 (Z.of_nat (Nat.min 10 (length data))) data = firstn 10 data.
Proof.
  unfold slice_0.
  destruct (Z.ltb_spec (Z.of_nat (Nat.min 10 (length data))) 0) as [H|_]; [lia |].
  rewrite Nat2Z.id.
  destruct (Nat.le_ge_cases 10 (length data)) as [H|H].
  - now rewrite Nat.min_l.
  - rewrite Nat.min_r by exact H.
    rewrite !firstn_all2; [reflexivity | lia | lia].
Qed.

Lemma mockPredict_resolves (data : list RawRow) (e : Env) :
  fst (mockPredict data e) = Resolved (predicted data e).
Proof.
  unfold mockPredict, predicted, bind. rewrite slice_first_ten.
  now destruct (map_indexed predict_row (firstn 10 data) 0 e).
Qed.

Lemma handleDataUpload_dashboard (data : list RawRow) (w : World) :
  dashboard (handleDataUpload data w)
  = {| uploadedData := data;
       suspiciousTransactions := predicted data (env w);
       isProcessing := false;
       selectedTransaction := selectedTransaction (dashboard w) |}.
Proof.
  unfold handleDataUpload, in_env, mockPredict, predicted, bind.
  rewrite slice_first_ten. cbn [env setIsProcessing setUploadedData set_dashboard].
  now destruct (map_indexed predict_row (firstn 10 data) 0 (env w)).
Qed.

Lemma predicted_length (data : list RawRow) (e : Env) :
  length (predicted data e) = Nat.min 10 (length data).
Proof. unfold predicted. now rewrite map_indexed_length, length_firstn. Qed.

Lemma predicted_lookup (data : list RawRow) (e : Env) (j : nat) (row : RawRow) :
  (j < 10)%nat -> data !! j = Some row ->
  exists tx, predicted data e !! j = Some tx /\ row_outcome row j tx.
Proof.
  intros Hj Hrow. unfold predicted.
  apply (map_indexed_lookup row_outcome predict_row predict_row_outcome
           (firstn 10 data) 0%nat e j row).
  change (take 10 data !! j = Some row).
  now rewrite lookup_take_lt.
Qed.

Example parseFloat_negative : Parse.parseFloat "-5" = Finite (-5).
Proof. vm_compute. reflexivity. Qed.

Example parseFloat_not_a_number : Parse.parseFloat "abc" = NaN.
Proof. vm_compute. reflexivity. Qed.

(** C3 (as stated, fails): a batch whose only record has amount -5 is
    not rejected. *)
Lemma ingest_accepts_negative_amount :
  ~ Spec.atomic_ingest [Sample.raw "-5" "A" "B"] (Sample.initial (Sample.draws [])).
Proof.
  intros H. destruct H as [[reason Hr] _].
  - exists (Sample.raw "-5" "A" "B"). split; [now left | vm_compute; reflexivity].
  - rewrite mockPredict_resolves in Hr. discriminate Hr.
Qed.

(** C3 (amended): ingestion validates nothing.  For every batch
    [mockPredict] resolves and [handleDataUpload] replaces the store by
    what it resolved with; each of the first ten records gives a stored
    transaction whose amount is [parseFloat] of the amount text when
    there is one (negative if the text is, NaN if it is not numeric) and
    a random value otherwise, and whose account identifiers are the
    record's when they are not empty and generated ones otherwise. *)
Theorem ingest_never_rejects (data : list RawRow) (w : World) :
  exists txs,
    fst (mockPredict data (env w)) = Resolved txs
    /\ suspiciousTransactions (dashboard (handleDataUpload data w)) = txs
    /\ forall (j : nat) (row : RawRow),
         (j < 10)%nat -> data !! j = Some row ->
         exists tx, txs !! j = Some tx /\ taken_unchecked row tx.
Proof.
  exists (predicted data (env w)). split; [apply mockPredict_resolves |].
  split; [now rewrite handleDataUpload_dashboard |].
  intros j row Hj Hrow.
  destruct (predicted_lookup data (env w) j row Hj Hrow) as (tx & Htx & Hout).
  exists tx. split; [exact Htx |].
  destruct Hout as [_ Ha Hf Ht _]. now repeat split.
Qed.

Lemma eleven_rows_valid : forallb Spec.valid eleven_rows = true.
Proof. vm_compute. reflexivity. Qed.

Lemma eleven_rows_length : length eleven_rows = 11%nat.
Proof. reflexivity. Qed.

Lemma store_length_after_upload (data : list RawRow) (w : World) :
  length (suspiciousTransactions (dashboard (handleDataUpload data w)))
  = Nat.min 10 (length data).
Proof. rewrite handleDataUpload_dashboard. apply predicted_length. Qed.

(** C4 (as stated, fails): of eleven valid records only ten are stored. *)
Lemma ingest_drops_eleventh :
  ~ Spec.ingest_complete eleven_rows (Sample.initial (Sample.draws [])).
Proof.
  intros H. specialize (H eleven_rows_valid).
  apply Forall2_length in H.
  rewrite store_length_after_upload, eleven_rows_length in H.
  discriminate H.
Qed.

Lemma row_outcome_made_from (row : RawRow) (index : nat) (tx : Transaction) :
  row_outcome row index tx -> Spec.made_from row tx.
Proof.
  intros [_ Ha Hf Ht _]. unfold Spec.made_from.
  repeat split; intros s Hs Hfalsy.
  - rewrite Hs in Ha. destruct s; [discriminate | exact Ha].
  - rewrite Hs in Hf. destruct s; [discriminate | exact Hf].
  - rewrite Hs in Ht. destruct s; [discriminate | exact Ht].
Qed.

(** C4 (amended): for every batch, the store after ingestion holds one
    transaction for each of the first ten records and nothing else, in
    the order of the input: the transaction at position [j] has the
    identifier number [j + 1] and was made from record [j].  Records
    after the tenth are left out without an error. *)
Theorem ingest_keeps_first_ten (data : list RawRow) (w : World) :
  let store := suspiciousTransactions (dashboard (handleDataUpload data w)) in
  length store = Nat.min 10 (length data)
  /\ forall (j : nat) (row : RawRow),
       (j < 10)%nat -> data !! j = Some row ->
       exists tx,
         store !! j = Some tx
         /\ tx_id tx = transaction_id j
         /\ Spec.made_from row tx.
Proof.
  intros store. subst store. rewrite handleDataUpload_dashboard.
  cbn [suspiciousTransactions]. split; [apply predicted_length |].
  intros j row Hj Hrow.
  destruct (predicted_lookup data (env w) j row Hj Hrow) as (tx & Htx & Hout).
  exists tx. split; [exact Htx |]. split; [apply Hout |].
  eapply row_outcome_made_from; exact Hout.
Qed.

(** ** The derived graph *)

Lemma lookup_map {A B : Type} (f : A -> B) (l : list A) (i : nat) :
  map f l !! i = option_map f (l !! i).
Proof.
  revert i. induction l as [|a l IH]; intros [|i]; try reflexivity. apply IH.
Qed.

Lemma filter_map_length {A B : Type} (f : A -> B) (p : B -> bool) (l : list A) :
  length (List.filter p (map f l)) = length (List.filter (fun a => p (f a)) l).
Proof.
  induction l as [|a l IH]; [reflexivity |].
  cbn. destruct (p (f a)); cbn; now rewrite IH.
Qed.

(** C2 (as stated, fails): with the one transaction A -> B stored, the
    receiver B has no node. *)
Lemma graphNodes_misses_receiver :
  ~ Spec.node_invariant store_A_to_B (graphNodes store_A_to_B).
Proof.
  intros H. destruct (H "B") as (n & Hn & _).
  - eexists. split; [left; reflexivity | reflexivity].
  - vm_compute in Hn. discriminate Hn.
Qed.

(** C2 (amended): the derived node list has one node per stored
    transaction, at the same position, made from that transaction alone:
    its id and label are the sender, its total_volume is the amount of
    that transaction and its risk_level is the level of that transaction.
    So an account has as many nodes as it sends transactions, and none
    if it only receives. *)
Theorem graphNodes_one_per_transaction (ts : list Transaction) :
  length (graphNodes ts) = length ts
  /\ (forall i : nat,
        match ts !! i with
        | Some tx =>
            exists n,
              graphNodes ts !! i = Some n
              /\ node_id n = tx_from_account tx
              /\ node_label n = tx_from_account tx
              /\ node_total_volume n = tx_amount tx
              /\ node_risk_level n = tx_risk_level tx
              /\ node_account_type n = "Standard"
        | None => graphNodes ts !! i = None
        end)
  /\ (forall account : string,
        length (List.filter (fun n => String.eqb (node_id n) account) (graphNodes ts))
        = length (List.filter (fun tx => String.eqb (tx_from_account tx) account) ts)).
Proof.
  unfold graphNodes. split; [apply length_map |]. split.
  - intros i. rewrite lookup_map. destruct (ts !! i) as [tx|]; [| reflexivity].
    eexists. split; [reflexivity |]. now repeat split.
  - intros account. apply filter_map_length.
Qed.

(** C9: the derived edge list has one edge per stored transaction, at
    the same position, with that transaction's sender, receiver and
    amount, and marked suspicious exactly when the level is HIGH; the
    edges between two accounts are as many as the transactions between
    them. *)
Theorem graphEdges_one_per_transaction (ts : list Transaction) :
  length (graphEdges ts) = length ts
  /\ (forall i : nat,
        match ts !! i with
        | Some tx =>
            exists e,
              graphEdges ts !! i = Some e
              /\ edge_from e = tx_from_account tx
              /\ edge_to e = tx_to_account tx
              /\ edge_amount e = tx_amount tx
              /\ (edge_suspicious e = true <-> tx_risk_level tx = HIGH)
        | None => graphEdges ts !! i = None
        end)
  /\ (forall a b : string,
        length (List.filter
                  (fun e => String.eqb (edge_from e) a && String.eqb (edge_to e) b)
                  (graphEdges ts))
        = length (List.filter
                    (fun tx => String.eqb (tx_from_account tx) a
                               && String.eqb (tx_to_account tx) b) ts)).
Proof.
  unfold graphEdges. split; [apply length_map |]. split.
  - intros i. rewrite lookup_map. destruct (ts !! i) as [tx|]; [| reflexivity].
    eexists. split; [reflexivity |]. cbn. repeat split; try reflexivity.
    + destruct (tx_risk_level tx); [reflexivity | discriminate | discriminate].
    + intros ->. reflexivity.
  - intros a b. apply filter_map_length.
Qed.

(** ** The simulator *)

Lemma dashboard_scorer_dashboard (transaction : SimTransaction) (w : World) :
  dashboard (snd (dashboard_scorer transaction w)) = dashboard w.
Proof.
  unfold dashboard_scorer, in_env.
  now destruct (mockSimulate transaction (env w)).
Qed.

Lemma handleSimulate_dashboard (w : World) :
  dashboard (handleSimulate dashboard_scorer w) = dashboard w.
Proof.
  unfold handleSimulate.
  destruct (falsy _ || falsy _ || falsy _); [reflexivity |].
  cbv [in_env Date_toISOString].
  match goal with
  | |- context [dashboard_scorer ?t ?w'] =>
      pose proof (dashboard_scorer_dashboard t w') as Hd;
      destruct (dashboard_scorer t w') as [[r|reason] w'']
  end; cbn in *; exact Hd.
Qed.

(** C5: simulation commits nothing.  The scorer the dashboard passes
    down leaves the session state as it is for every hypothetical
    transaction, and after any number of submissions of the simulator
    form the session state, and with it the stored transactions and the
    graph derived from them, are what they were before. *)
Theorem simulate_commits_nothing (transaction : SimTransaction)
    (entries : list (string * string * string)) (w : World) :
  dashboard (snd (dashboard_scorer transaction w)) = dashboard w
  /\ dashboard (simulate_each entries w) = dashboard w
  /\ suspiciousTransactions (dashboard (simulate_each entries w))
     = suspiciousTransactions (dashboard w)
  /\ graphNodes (suspiciousTransactions (dashboard (simulate_each entries w)))
     = graphNodes (suspiciousTransactions (dashboard w))
  /\ graphEdges (suspiciousTransactions (dashboard (simulate_each entries w)))
     = graphEdges (suspiciousTransactions (dashboard w)).
Proof.
  split; [apply dashboard_scorer_dashboard |].
  assert (H : dashboard (simulate_each entries w) = dashboard w).
  { revert w. induction entries as [|[[amount from_account] to_account] entries IH];
      intros w; [reflexivity |].
    cbn [simulate_each]. rewrite IH, handleSimulate_dashboard. reflexivity. }
  rewrite H. repeat split.
Qed.

(** A submission does change what is the simulator's own: here the
    result it shows. *)
Example simulate_sets_result :
  result (simulator
            (simulate_each [("100", "A", "B")]
               (Sample.initial (Sample.draws [5 # 10]))))
  <> None.
Proof. vm_compute. discriminate. Qed.

(** C10: with an empty amount, sender or receiver in the form, the
    submit handler only reports the missing information: whatever the
    scoring function is, the world afterwards is the world before with
    that one message added, so the scoring function had no part in it,
    and the result shown is the previous one. *)
Theorem handleSimulate_missing_field (onSimulate : Scorer) (w : World) :
  form_amount (formData (simulator w)) = ""
  \/ form_from_account (formData (simulator w)) = ""
  \/ form_to_account (formData (simulator w)) = "" ->
  handleSimulate onSimulate w = toast missing_information w
  /\ result (simulator (handleSimulate onSimulate w)) = result (simulator w)
  /\ random_calls (env (handleSimulate onSimulate w)) = random_calls (env w).
Proof.
  intros H.
  assert (E : handleSimulate onSimulate w = toast missing_information w).
  { unfold handleSimulate.
    destruct H as [-> | [-> | ->]]; cbn [falsy orb]; try reflexivity.
    - destruct (falsy _); reflexivity.
    - destruct (falsy _), (falsy _); reflexivity. }
  rewrite E. repeat split.
Qed.

Lemma handleSimulate_missing_field_witness :
  handleSimulate tracing_scorer
    (setFormData (Sample.form "100" "" "B") (Sample.initial (Sample.draws [])))
  = toast missing_information
      (setFormData (Sample.form "100" "" "B") (Sample.initial (Sample.draws []))).
Proof.
  refine (proj1 (handleSimulate_missing_field tracing_scorer
           (setFormData (Sample.form "100" "" "B") (Sample.initial (Sample.draws []))) _)).
  right. left. reflexivity.
Defined.

(** ** The filter of the table *)

Lemma prefix_iff (sub s : string) :
  String.prefix sub s = true <-> exists post, s = sub ++ post.
Proof.
  revert s. induction sub as [|a sub IH]; intros s.
  - split; [intros _; exists s; reflexivity | intros _; destruct s; reflexivity].
  - destruct s as [|b s]; cbn.
    + split; [discriminate | intros [post H]; discriminate H].
    + destruct (ascii_dec a b) as [->|Hab].
      * rewrite IH. split; intros [post H]; exists post.
        -- now rewrite H.
        -- now injection H.
      * split; [discriminate | intros [post H]; injection H as H _; congruence].
Qed.

Lemma includes_iff (s sub : string) :
  Str.includes s sub = true <-> Str.substring_of sub s.
Proof.
  unfold Str.substring_of. induction s as [|c s IH].
  - cbn [Str.includes]. rewrite orb_false_r, prefix_iff. split.
    + intros [post H]. exists "", post. exact H.
    + intros (pre & post & H). destruct pre; [| discriminate H].
      exists post. exact H.
  - cbn [Str.includes]. rewrite orb_true_iff, prefix_iff, IH. split.
    + intros [[post H] | (pre & post & H)].
      * exists "", post. exact H.
      * exists (String c pre), post. cbn. now rewrite H.
    + intros (pre & post & H). destruct pre as [|c' pre].
      * left. exists post. exact H.
      * right. injection H as _ H. exists pre, post. exact H.
Qed.

Lemma includes_empty (s : string) : Str.includes s "" = true.
Proof. destruct s; reflexivity. Qed.

Lemma matches_iff (searchTerm filterRisk : string) (tx : Transaction) :
  matches searchTerm filterRisk tx = true
  <-> Spec.search_condition searchTerm tx /\ Spec.risk_condition filterRisk tx.
Proof.
  unfold matches, Spec.search_condition, Spec.risk_condition, Spec.ci_substring.
  rewrite andb_true_iff, !orb_true_iff, !includes_iff, !String.eqb_eq.
  intuition congruence.
Qed.

Lemma filter_matches_all (ts : list Transaction) :
  List.filter (matches "" "all") ts = ts.
Proof.
  induction ts as [|tx ts IH]; [reflexivity |].
  cbn [List.filter].
  replace (matches "" "all" tx) with true; [now rewrite IH |].
  symmetry. apply matches_iff. split.
  - left. exists "", (Str.toLowerCase (tx_id tx)). reflexivity.
  - now left.
Qed.

(** ** Sorting *)

Section SortFacts.
Context {A : Type} (comparefn : A -> A -> num).

Lemma insert_perm (x : A) (l : list A) :
  Permutation (JsArray.insert comparefn x l) (x :: l).
Proof.
  induction l as [|y l IH]; cbn; [reflexivity |].
  destruct (JsArray.sort_order (comparefn x y)); try reflexivity.
  rewrite IH. apply perm_swap.
Qed.

Lemma sort_perm (l : list A) : Permutation (JsArray.sort comparefn l) l.
Proof.
  induction l as [|x l IH]; cbn; [reflexivity |].
  rewrite insert_perm. now apply perm_skip.
Qed.

Context (pos : A -> nat).

Lemma insert_in_place (x : A) (l : list A) :
  StronglySorted (JsArray.in_place comparefn pos) l ->
  Forall (fun q => (pos x < pos q)%nat) l ->
  StronglySorted (JsArray.in_place comparefn pos) (JsArray.insert comparefn x l).
Proof.
  induction l as [|y l IH]; intros Hl Hx; cbn.
  - constructor; constructor.
  - apply StronglySorted_inv in Hl as [Hl Hy].
    inversion Hx as [|? ? Hxy Hxl]; subst.
    destruct (JsArray.sort_order (comparefn x y)) eqn:E.
    + constructor; [now constructor |].
      constructor; [now left |].
      eapply Forall_impl; [exact Hxl |]. intros q Hq. now left.
    + constructor; [now constructor |].
      constructor; [now left |].
      eapply Forall_impl; [exact Hxl |]. intros q Hq. now left.
    + constructor; [now apply IH |].
      eapply Permutation_Forall; [symmetry; apply insert_perm |].
      constructor; [now right | exact Hy].
Qed.

Lemma sort_in_place (l : list A) :
  StronglySorted (fun p q => (pos p < pos q)%nat) l ->
  StronglySorted (JsArray.in_place comparefn pos) (JsArray.sort comparefn l).
Proof.
  induction l as [|x l IH]; intros Hl; cbn; [constructor |].
  apply StronglySorted_inv in Hl as [Hl Hx].
  apply insert_in_place; [now apply IH |].
  eapply Permutation_Forall; [symmetry; apply sort_perm | exact Hx].
Qed.
End SortFacts.

Lemma StronglySorted_lookup {A : Type} (R : A -> A -> Prop) (l : list A) :
  StronglySorted R l ->
  forall (i j : nat) (p q : A),
    (i < j)%nat -> l !! i = Some p -> l !! j = Some q -> R p q.
Proof.
  induction 1 as [|a l Hl IH Ha]; intros i j p q Hij Hi Hj; [discriminate |].
  destruct j as [|j]; [lia |]. cbn in Hj.
  destruct i as [|i].
  - injection Hi as <-. rewrite Forall_forall in Ha. apply Ha.
    eapply list_elem_of_lookup_2. exact Hj.
  - cbn in Hi. apply (IH i j); [lia | assumption | assumption].
Qed.

Section Stable.
Context {A : Type} (comparefn : A -> A -> num).
Hypothesis antisym : forall a b,
  JsArray.sort_order (comparefn a b) = CompOpp (JsArray.sort_order (comparefn b a)).

Let le (a b : A) : Prop := JsArray.sort_order (comparefn a b) <> Gt.

Lemma insert_sorted (x : A) (l : list A) :
  (forall a b c, In a (x :: l) -> In b (x :: l) -> In c (x :: l) ->
     le a b -> le b c -> le a c) ->
  StronglySorted le l ->
  StronglySorted le (JsArray.insert comparefn x l).
Proof.
  induction l as [|y l IH]; intros Htrans Hl; cbn [JsArray.insert].
  - constructor; constructor.
  - apply StronglySorted_inv in Hl as [Hl Hy].
    assert (Hhead : le x y -> StronglySorted le (x :: y :: l)).
    { intros Hxy. constructor; [now constructor |].
      constructor; [exact Hxy |].
      rewrite Forall_forall in *. intros z Hz.
      apply (Htrans x y z); [now left | right; now left | | exact Hxy | now apply Hy].
      right; right. now apply list_elem_of_In. }
    destruct (JsArray.sort_order (comparefn x y)) eqn:E.
    + apply Hhead. unfold le. rewrite E. discriminate.
    + apply Hhead. unfold le. rewrite E. discriminate.
    + constructor.
      * apply IH; [| exact Hl].
        intros a b c Ha Hb Hc. apply Htrans.
        -- destruct Ha as [-> | Ha]; [now left | right; now right].
        -- destruct Hb as [-> | Hb]; [now left | right; now right].
        -- destruct Hc as [-> | Hc]; [now left | right; now right].
      * eapply Permutation_Forall; [symmetry; apply insert_perm |].
        constructor; [| exact Hy].
        unfold le. rewrite antisym, E. discriminate.
Qed.

Lemma sort_sorted (l : list A) :
  (forall a b c, In a l -> In b l -> In c l -> le a b -> le b c -> le a c) ->
  StronglySorted le (JsArray.sort comparefn l).
Proof.
  induction l as [|x l IH]; intros Htrans; cbn [JsArray.sort]; [constructor |].
  apply insert_sorted.
  - assert (Hin : forall a, In a (x :: JsArray.sort comparefn l) -> In a (x :: l)).
    { intros a [-> | Ha]; [now left | right].
      eapply Permutation_in; [apply sort_perm | exact Ha]. }
    intros a b c Ha Hb Hc. apply Htrans; now apply Hin.
  - apply IH. intros a b c Ha Hb Hc. apply Htrans; now right.
Qed.
End Stable.

Lemma StronglySorted_of_lookup {A : Type} (R : A -> A -> Prop) (l : list A) :
  (forall (i j : nat) (p q : A),
     (i < j)%nat -> l !! i = Some p -> l !! j = Some q -> R p q) ->
  StronglySorted R l.
Proof.
  induction l as [|a l IH]; intros H; constructor.
  - apply IH. intros i j p q Hij Hi Hj. apply (H (S i) (S j)); [lia | exact Hi | exact Hj].
  - apply Forall_forall. intros x Hx. apply list_elem_of_lookup_1 in Hx as [k Hk].
    apply (H 0%nat (S k)); [lia | reflexivity | exact Hk].
Qed.

Lemma increasing_NoDup {A : Type} (l : list (nat * A)) :
  StronglySorted (fun p q => (fst p < fst q)%nat) l -> NoDup (map fst l).
Proof.
  induction 1 as [|a l Hl IH Ha]; cbn; [constructor |].
  apply NoDup_cons. split; [| exact IH].
  intros Hin. apply list_elem_of_In, in_map_iff in Hin as (b & Hb & Hin).
  rewrite Forall_forall in Ha. apply list_elem_of_In, Ha in Hin. lia.
Qed.

(** Two arrangements of the same elements in the same order are the same
    list, when no two elements have the same key. *)
Lemma sorted_arrangement_unique {A K : Type} (R : A -> A -> Prop) (k : A -> K)
    (l1 l2 : list A) :
  (forall a b, R a b -> R b a -> k a = k b) ->
  NoDup (map k l1) ->
  Permutation l1 l2 ->
  StronglySorted R l1 -> StronglySorted R l2 -> l1 = l2.
Proof.
  intros Hanti. revert l2.
  induction l1 as [|a l1 IH]; intros l2 Hnd Hperm H1 H2.
  - apply Permutation_nil in Hperm. now subst.
  - destruct l2 as [|b l2].
    { symmetry in Hperm. apply Permutation_nil in Hperm. discriminate. }
    apply StronglySorted_inv in H1 as [H1 Ha], H2 as [H2 Hb].
    apply NoDup_cons in Hnd as [Hka Hnd].
    rewrite Forall_forall in Ha, Hb.
    assert (Hab : a = b).
    { assert (Hin_a : In a (b :: l2))
        by (eapply Permutation_in; [exact Hperm | now left]).
      assert (Hin_b : In b (a :: l1))
        by (eapply Permutation_in; [symmetry; exact Hperm | now left]).
      destruct Hin_a as [-> | Hin_a]; [reflexivity |].
      destruct Hin_b as [-> | Hin_b]; [reflexivity |].
      exfalso. apply Hka.
      rewrite (Hanti a b).
      - apply list_elem_of_In, in_map, Hin_b.
      - apply Ha, list_elem_of_In, Hin_b.
      - apply Hb, list_elem_of_In, Hin_a. }
    subst b. f_equal. apply IH; try assumption.
    eapply Permutation_cons_inv. exact Hperm.
Qed.

Section StableTagged.
Context {A : Type} (comparefn : A -> A -> num).
Hypothesis antisym : forall a b,
  JsArray.sort_order (comparefn a b) = CompOpp (JsArray.sort_order (comparefn b a)).

Let tagged_comparefn (p q : nat * A) : num := comparefn (snd p) (snd q).

Lemma sort_stands_before (input : list (nat * A)) :
  StronglySorted (fun p q => (fst p < fst q)%nat) input ->
  consistent comparefn (map snd input) ->
  stable_arrangement comparefn input (JsArray.sort tagged_comparefn input).
Proof.
  intros Hinc [_ Htrans]. split; [apply sort_perm |].
  pose proof (sort_in_place tagged_comparefn fst input Hinc) as Hplace.
  assert (Hsorted : StronglySorted
                      (fun p q => JsArray.sort_order (tagged_comparefn p q) <> Gt)
                      (JsArray.sort tagged_comparefn input)).
  { apply sort_sorted.
    - intros a b. apply antisym.
    - intros a b c Ha Hb Hc. apply Htrans; now apply in_map. }
  apply StronglySorted_of_lookup. intros i j p q Hij Hi Hj.
  pose proof (StronglySorted_lookup _ _ Hplace i j p q Hij Hi Hj) as Hp.
  pose proof (StronglySorted_lookup _ _ Hsorted i j p q Hij Hi Hj) as Hs.
  unfold stands_before. unfold tagged_comparefn in *. cbv beta in Hs.
  destruct Hp as [Hlt | Hgt].
  - destruct (JsArray.sort_order (comparefn (snd p) (snd q))); [exact Hlt | exact I | congruence].
  - rewrite antisym, Hgt. exact I.
Qed.

Lemma stable_arrangement_unique (input output1 output2 : list (nat * A)) :
  NoDup (map fst input) ->
  stable_arrangement comparefn input output1 ->
  stable_arrangement comparefn input output2 ->
  output1 = output2.
Proof.
  intros Hnd [Hp1 Hs1] [Hp2 Hs2].
  apply (sorted_arrangement_unique (stands_before comparefn) fst); try assumption.
  - intros a b. unfold stands_before. rewrite (antisym (snd b) (snd a)).
    destruct (JsArray.sort_order (comparefn (snd a) (snd b))); cbn; try tauto. lia.
  - now rewrite Hp1.
  - now rewrite Hp2.
Qed.
End StableTagged.

Lemma sort_map {A B : Type} (f : B -> A) (comparefn : A -> A -> num) (l : list B) :
  map f (JsArray.sort (fun p q => comparefn (f p) (f q)) l)
  = JsArray.sort comparefn (map f l).
Proof.
  assert (Hins : forall x l', map f (JsArray.insert (fun p q => comparefn (f p) (f q)) x l')
                              = JsArray.insert comparefn (f x) (map f l')).
  { intros x l'. induction l' as [|y l' IH]; cbn; [reflexivity |].
    destruct (JsArray.sort_order (comparefn (f x) (f y))); cbn; try reflexivity.
    now rewrite IH. }
  induction l as [|x l IH]; cbn; [reflexivity |].
  now rewrite Hins, IH.
Qed.

Lemma filter_map_snd {A B : Type} (p : A -> bool) (l : list (B * A)) :
  map snd (List.filter (fun x => p (snd x)) l) = List.filter p (map snd l).
Proof.
  induction l as [|x l IH]; cbn; [reflexivity |].
  destruct (p (snd x)); cbn; now rewrite IH.
Qed.

Lemma filter_StronglySorted {A : Type} (R : A -> A -> Prop) (p : A -> bool) (l : list A) :
  StronglySorted R l -> StronglySorted R (List.filter p l).
Proof.
  induction 1 as [|a l Hl IH Ha]; cbn; [constructor |].
  destruct (p a); [| exact IH].
  constructor; [exact IH |].
  rewrite Forall_forall in *. intros x Hx. apply Ha.
  apply list_elem_of_In. apply list_elem_of_In, filter_In in Hx. tauto.
Qed.

Lemma positions_from {A : Type} (l : list A) (k : nat) :
  map snd (combine (seq k (length l)) l) = l
  /\ StronglySorted (fun p q : nat * A => (fst p < fst q)%nat) (combine (seq k (length l)) l)
  /\ Forall (fun p : nat * A => (k <= fst p)%nat /\ l !! (fst p - k)%nat = Some (snd p))
       (combine (seq k (length l)) l).
Proof.
  revert k. induction l as [|a l IH]; intros k; cbn.
  - repeat split; constructor.
  - destruct (IH (S k)) as (Hm & Hs & Hf). repeat split.
    + now rewrite Hm.
    + constructor; [exact Hs |].
      eapply Forall_impl; [exact Hf |]. cbn. intros p [Hp _]. lia.
    + constructor.
      * cbn. split; [lia |]. now rewrite Nat.sub_diag.
      * eapply Forall_impl; [exact Hf |]. cbn. intros p [Hp Hl]. split; [lia |].
        replace (fst p - k)%nat with (S (fst p - S k)) by lia. exact Hl.
Qed.

(** ** The sort of V8 *)

Lemma StronglySorted_snoc {A : Type} (R : A -> A -> Prop) (l : list A) (a : A) :
  StronglySorted R l -> Forall (fun x => R x a) l -> StronglySorted R (l ++ [a]).
Proof.
  induction 1 as [|b l Hl IH Hb]; intros Ha; cbn.
  - constructor; constructor.
  - inversion Ha as [|? ? Hba Hla]; subst.
    constructor; [now apply IH |].
    apply Forall_app. split; [exact Hb | now constructor].
Qed.

Lemma StronglySorted_rev {A : Type} (R : A -> A -> Prop) (l : list A) :
  StronglySorted R l -> StronglySorted (fun a b => R b a) (rev l).
Proof.
  induction 1 as [|a l Hl IH Ha]; cbn; [constructor |].
  apply StronglySorted_snoc; [exact IH |].
  eapply Permutation_Forall; [apply Permutation_rev | exact Ha].
Qed.

Lemma StronglySorted_app_inv {A : Type} (R : A -> A -> Prop) (l1 l2 : list A) :
  StronglySorted R (l1 ++ l2)%list ->
  StronglySorted R l1 /\ StronglySorted R l2
  /\ forall a b, In a l1 -> In b l2 -> R a b.
Proof.
  induction l1 as [|x l1 IH]; cbn; intros H.
  - split; [constructor |]. split; [exact H |]. intros a b [].
  - apply StronglySorted_inv in H as [H Hx]. destruct (IH H) as (H1 & H2 & H12).
    apply Forall_app in Hx as [Hx1 Hx2].
    split; [now constructor |]. split; [exact H2 |].
    intros a b [<- | Ha] Hb; [| now apply H12].
    rewrite Forall_forall in Hx2. now apply Hx2, list_elem_of_In.
Qed.

Lemma StronglySorted_insert_middle {A : Type} (R : A -> A -> Prop) (l1 l2 : list A) (x : A) :
  StronglySorted R (l1 ++ l2)%list ->
  (forall a, In a l1 -> R a x) -> (forall b, In b l2 -> R x b) ->
  StronglySorted R (l1 ++ x :: l2)%list.
Proof.
  induction l1 as [|y l1 IH]; cbn; intros H H1 H2.
  - constructor; [exact H |]. apply Forall_forall. intros b Hb.
    now apply H2, list_elem_of_In.
  - apply StronglySorted_inv in H as [H Hy]. constructor.
    + apply IH; [exact H | intros a Ha; apply H1; now right | exact H2].
    + apply Forall_app in Hy as [Hy1 Hy2]. apply Forall_app. split; [exact Hy1 |].
      constructor; [apply H1; now left | exact Hy2].
Qed.

Lemma StronglySorted_weaken {A : Type} (R S : A -> A -> Prop) (l : list A) :
  (forall a b, In a l -> In b l -> R a b -> S a b) ->
  StronglySorted R l -> StronglySorted S l.
Proof.
  intros H Hl. induction Hl as [|a l Hl IH Ha]; constructor.
  - apply IH. intros x y Hx Hy. apply H; now right.
  - rewrite Forall_forall in *. intros x Hx. apply H; [now left | right; now apply list_elem_of_In |].
    now apply Ha.
Qed.

Lemma StronglySorted_both {A : Type} (R S : A -> A -> Prop) (l : list A) :
  StronglySorted R l -> StronglySorted S l ->
  StronglySorted (fun a b => R a b /\ S a b) l.
Proof.
  induction 1 as [|a l Hl IH Ha]; intros HS; constructor;
    apply StronglySorted_inv in HS as [HS Hb].
  - now apply IH.
  - rewrite Forall_forall in *. intros x Hx. split; [now apply Ha | now apply Hb].
Qed.

Lemma StronglySorted_take {A : Type} (R : A -> A -> Prop) (n : nat) (l : list A) :
  StronglySorted R l -> StronglySorted R (take n l).
Proof.
  intros H. rewrite <- (take_drop n l) in H.
  now apply StronglySorted_app_inv in H.
Qed.

Lemma take_elem {A : Type} (x : A) (n : nat) (l : list A) : x ∈ take n l -> x ∈ l.
Proof.
  intros H. apply elem_of_take in H as (i & Hi & _).
  eapply list_elem_of_lookup_2. exact Hi.
Qed.

Section V8Facts.
Context {A : Type} (comparefn : A -> A -> num) (pos : A -> nat) (known : A -> Prop).

Let order (a b : A) : comparison := JsArray.sort_order (comparefn a b).
Let le (a b : A) : Prop := order a b <> Gt.
Let before (p q : A) : Prop :=
  match order p q with
  | Lt => True
  | Eq => (pos p < pos q)%nat
  | Gt => False
  end.
Let increasing (p q : A) : Prop := (pos p < pos q)%nat.

Hypothesis antisym : forall a b, order a b = CompOpp (order b a).
Hypothesis trans : forall a b c,
  known a -> known b -> known c -> le a b -> le b c -> le a c.

Lemma lt_le_trans (a b c : A) :
  known a -> known b -> known c -> order a b = Lt -> le b c -> order a c = Lt.
Proof.
  intros Ha Hb Hc Hab Hbc.
  assert (Hac : le a c) by (apply (trans a b c); try assumption; unfold le; congruence).
  destruct (order a c) eqn:E; [| reflexivity | now elim Hac].
  exfalso.
  assert (Hca : le c a) by (unfold le; rewrite antisym, E; discriminate).
  pose proof (trans b c a Hb Hc Ha Hbc Hca) as Hba.
  apply Hba. rewrite antisym, Hab. reflexivity.
Qed.

Lemma le_lt_trans (a b c : A) :
  known a -> known b -> known c -> le a b -> order b c = Lt -> order a c = Lt.
Proof.
  intros Ha Hb Hc Hab Hbc.
  assert (Hac : le a c) by (apply (trans a b c); try assumption; unfold le; congruence).
  destruct (order a c) eqn:E; [| reflexivity | now elim Hac].
  exfalso.
  assert (Hca : le c a) by (unfold le; rewrite antisym, E; discriminate).
  pose proof (trans c a b Hc Ha Hb Hca Hab) as Hcb.
  apply Hcb. rewrite antisym, Hbc. reflexivity.
Qed.

Lemma before_le (a b : A) : before a b -> le a b.
Proof. unfold before, le. destruct (order a b); [discriminate | discriminate | tauto]. Qed.

(** An ascending run: each element is not before the one it follows. *)
Lemma run_ascending (previousElement : A) (rest : list A) :
  known previousElement -> Forall known rest ->
  StronglySorted le
    (previousElement :: take (V8.run_rest comparefn false previousElement rest) rest).
Proof.
  revert previousElement. induction rest as [|currentElement rest IH];
    intros previousElement Hp Hrest; cbn [V8.run_rest].
  - cbn. constructor; constructor.
  - apply Forall_cons in Hrest as [Hc Hrest].
    fold (order currentElement previousElement) in *.
    unfold V8.order.
    fold (order currentElement previousElement).
    assert (Hstep : le previousElement currentElement ->
                    StronglySorted le
                      (previousElement
                       :: take (S (V8.run_rest comparefn false currentElement rest))
                            (currentElement :: rest))).
    { intros Hle. cbn [take firstn]. pose proof (IH currentElement Hc Hrest) as Hs.
      constructor; [exact Hs |].
      constructor; [exact Hle |].
      apply StronglySorted_inv in Hs as [_ Hs].
      rewrite Forall_forall in *. intros x Hx.
      apply (trans previousElement currentElement x); try assumption.
      - eapply Hrest, take_elem. exact Hx.
      - now apply Hs. }
    destruct (order currentElement previousElement) eqn:E.
    + apply Hstep. unfold le. rewrite antisym, E. discriminate.
    + cbn. constructor; constructor.
    + apply Hstep. unfold le. rewrite antisym, E. discriminate.
Qed.

(** A descending run: each element is before the one it follows. *)
Lemma run_descending (previousElement : A) (rest : list A) :
  known previousElement -> Forall known rest ->
  StronglySorted (fun a b => order b a = Lt)
    (previousElement :: take (V8.run_rest comparefn true previousElement rest) rest).
Proof.
  revert previousElement. induction rest as [|currentElement rest IH];
    intros previousElement Hp Hrest; cbn [V8.run_rest].
  - cbn. constructor; constructor.
  - apply Forall_cons in Hrest as [Hc Hrest].
    unfold V8.order. fold (order currentElement previousElement).
    destruct (order currentElement previousElement) eqn:E;
      [cbn; constructor; constructor | | cbn; constructor; constructor].
    cbn [take firstn]. pose proof (IH currentElement Hc Hrest) as Hs.
    constructor; [exact Hs |].
    constructor; [exact E |].
    apply StronglySorted_inv in Hs as [_ Hs].
    rewrite Forall_forall in *. intros x Hx.
    assert (Hkx : known x).
    { eapply Hrest, take_elem. exact Hx. }
    apply (lt_le_trans x currentElement previousElement); try assumption.
    + now apply Hs.
    + unfold le. rewrite E. discriminate.
Qed.

(** The binary search finds the place of the pivot: the elements in
    front of it are not after the pivot, the pivot is before the
    others. *)
Lemma search_place (pivot : A) (sorted : list A) (fuel left right : nat) :
  known pivot -> Forall known sorted -> StronglySorted le sorted ->
  (left <= right <= length sorted)%nat -> (right - left <= fuel)%nat ->
  (forall i element, (i < left)%nat -> sorted !! i = Some element ->
     order pivot element <> Lt) ->
  (forall i element, (right <= i)%nat -> sorted !! i = Some element ->
     order pivot element = Lt) ->
  let place := V8.search comparefn fuel pivot sorted left right in
  (place <= length sorted)%nat
  /\ (forall i element, (i < place)%nat -> sorted !! i = Some element ->
        order pivot element <> Lt)
  /\ (forall i element, (place <= i)%nat -> sorted !! i = Some element ->
        order pivot element = Lt).
Proof.
  intros Hp Hknown Hsorted. revert left right.
  induction fuel as [|fuel IH]; intros left right Hrange Hfuel Hleft Hright;
    cbn [V8.search].
  - replace right with left in Hright by lia.
    split; [lia |]. split; assumption.
  - destruct (left <? right)%nat eqn:Hlt.
    2:{ apply Nat.ltb_ge in Hlt. replace right with left in Hright by lia.
        split; [lia |]. split; assumption. }
    apply Nat.ltb_lt in Hlt.
    set (mid := (left + (right - left) / 2)%nat).
    assert (Hhalf : ((right - left) / 2 < right - left)%nat)
      by (apply Nat.div_lt; lia).
    assert (Hmid : (left <= mid < right)%nat) by (subst mid; lia).
    destruct (lookup_lt_is_Some_2 sorted mid ltac:(lia)) as [element Helement].
    rewrite Helement.
    assert (Hke : known element).
    { rewrite Forall_forall in Hknown. eapply Hknown, list_elem_of_lookup_2. exact Helement. }
    unfold V8.order. fold (order pivot element).
    assert (Hup : order pivot element <> Lt ->
                  forall i x, (i < S mid)%nat -> sorted !! i = Some x ->
                    order pivot x <> Lt).
    { intros Hnot i x Hi Hx.
      destruct (decide (i = mid)) as [-> | Hne]; [congruence |].
      assert (Hkx : known x).
      { rewrite Forall_forall in Hknown. eapply Hknown, list_elem_of_lookup_2. exact Hx. }
      pose proof (StronglySorted_lookup _ _ Hsorted i mid x element ltac:(lia) Hx Helement)
        as Hxe.
      assert (Hep : le element pivot).
      { unfold le. rewrite antisym. destruct (order pivot element); cbn; congruence. }
      pose proof (trans x element pivot Hkx Hke Hp Hxe Hep) as Hxp.
      unfold le in Hxp. rewrite antisym in Hxp.
      destruct (order pivot x); cbn in Hxp; congruence. }
    destruct (order pivot element) eqn:E.
    + apply IH; [lia | lia | | exact Hright].
      apply Hup. discriminate.
    + apply IH; [lia | lia | exact Hleft |].
      intros i x Hi Hx.
      destruct (decide (i = mid)) as [-> | Hne]; [congruence |].
      assert (Hkx : known x).
      { rewrite Forall_forall in Hknown. eapply Hknown, list_elem_of_lookup_2. exact Hx. }
      pose proof (StronglySorted_lookup _ _ Hsorted mid i element x ltac:(lia) Helement Hx)
        as Hex.
      now apply (lt_le_trans pivot element x).
    + apply IH; [lia | lia | | exact Hright].
      apply Hup. discriminate.
Qed.

(** The sorted part stays sorted, ties in input order, when the pivot is
    put at its place. *)
Lemma BinaryInsertionSort_sorted (rest sorted : list A) :
  Forall known sorted -> Forall known rest ->
  StronglySorted before sorted ->
  StronglySorted increasing rest ->
  (forall a b, In a sorted -> In b rest -> increasing a b) ->
  StronglySorted before (V8.BinaryInsertionSort comparefn sorted rest)
  /\ Permutation (V8.BinaryInsertionSort comparefn sorted rest) (sorted ++ rest).
Proof.
  revert sorted. induction rest as [|pivot rest IH];
    intros sorted Hks Hkr Hsorted Hrest Hcross; cbn [V8.BinaryInsertionSort].
  - rewrite app_nil_r. split; [exact Hsorted | reflexivity].
  - apply Forall_cons in Hkr as [Hkp Hkr].
    apply StronglySorted_inv in Hrest as [Hrest Hpivot].
    assert (Hle : StronglySorted le sorted).
    { eapply StronglySorted_weaken; [| exact Hsorted]. intros a b _ _. apply before_le. }
    destruct (search_place pivot sorted (length sorted) 0 (length sorted)
                Hkp Hks Hle ltac:(lia) ltac:(lia)) as (Hplace & Hfront & Hback).
    { intros i element Hi. lia. }
    { intros i element Hi Hx. apply lookup_lt_Some in Hx. lia. }
    set (place := V8.search comparefn (length sorted) pivot sorted 0 (length sorted)) in *.
    assert (Hperm : Permutation (take place sorted ++ pivot :: drop place sorted)
                      (pivot :: sorted)).
    { rewrite <- Permutation_middle. now rewrite take_drop. }
    destruct (IH (take place sorted ++ pivot :: drop place sorted)%list) as [Hs Hp].
    + eapply Permutation_Forall; [symmetry; exact Hperm |]. now constructor.
    + exact Hkr.
    + apply StronglySorted_insert_middle.
      * now rewrite take_drop.
      * intros a Ha. apply list_elem_of_In, elem_of_take in Ha as (i & Hi & Hlt).
        pose proof (Hfront i a Hlt Hi) as Hnot.
        assert (Hinc : increasing a pivot).
        { apply Hcross; [| now left]. apply list_elem_of_In.
          eapply list_elem_of_lookup_2. exact Hi. }
        unfold before. rewrite antisym.
        destruct (order pivot a); cbn; [exact Hinc | congruence | exact I].
      * intros b Hb. apply list_elem_of_In, list_elem_of_lookup_1 in Hb as [i Hi].
        rewrite lookup_drop in Hi.
        unfold before. rewrite (Hback (place + i)%nat b ltac:(lia) Hi). exact I.
    + exact Hrest.
    + intros a b Ha Hb.
      apply (Permutation_in _ Hperm) in Ha. destruct Ha as [<- | Ha].
      * rewrite Forall_forall in Hpivot. now apply Hpivot, list_elem_of_In.
      * apply Hcross; [exact Ha | now right].
    + split; [exact Hs |]. rewrite Hp, Hperm. cbn. apply Permutation_middle.
Qed.

Lemma ordered_before (l : list A) :
  StronglySorted le l -> StronglySorted increasing l -> StronglySorted before l.
Proof.
  intros Hle Hinc.
  eapply StronglySorted_weaken; [| exact (StronglySorted_both _ _ _ Hle Hinc)].
  intros a b _ _ [Hab Hpos]. unfold before, le in *.
  destruct (order a b); [exact Hpos | exact I | congruence].
Qed.

(** [CountAndMakeRun] leaves the elements as they are behind the run,
    and the run sorted, ties in input order. *)
Lemma CountAndMakeRun_sorted (l : list A) :
  Forall known l -> StronglySorted increasing l ->
  let '(runLength, workArray) := V8.CountAndMakeRun comparefn l in
  StronglySorted before (take runLength workArray)
  /\ Permutation (take runLength workArray) (take runLength l)
  /\ drop runLength workArray = drop runLength l.
Proof.
  intros Hknown Hinc. unfold V8.CountAndMakeRun.
  destruct l as [|elementHigh [|elementLow rest]].
  - cbn. repeat split; constructor.
  - cbn. repeat split; try reflexivity. constructor; constructor.
  - apply Forall_cons in Hknown as [Hkh Hknown].
    unfold V8.order. fold (order elementLow elementHigh).
    destruct (order elementLow elementHigh) eqn:E.
    + split; [| split; reflexivity].
      apply ordered_before; [| now apply StronglySorted_take].
      pose proof (run_ascending elementHigh (elementLow :: rest) Hkh Hknown) as H.
      cbn [V8.run_rest] in H. unfold V8.order in H.
      fold (order elementLow elementHigh) in H. rewrite E in H. exact H.
    + set (runLength := (2 + V8.run_rest comparefn true elementLow rest)%nat).
      set (l := elementHigh :: elementLow :: rest).
      assert (Hlen : length (rev (take runLength l)) = runLength).
      { rewrite length_rev, length_take. subst runLength l. cbn [length].
        assert (H : (V8.run_rest comparefn true elementLow rest <= length rest)%nat).
        { clear. generalize elementLow. induction rest as [|c rest IH]; intros p; cbn; [lia |].
          destruct (V8.order comparefn c p); try lia. specialize (IH c). lia. }
        lia. }
      rewrite take_app_length' by (symmetry; exact Hlen).
      rewrite drop_app_length' by (symmetry; exact Hlen).
      split; [| split; [symmetry; apply Permutation_rev | reflexivity]].
      pose proof (run_descending elementHigh (elementLow :: rest) Hkh Hknown) as H.
      cbn [V8.run_rest] in H. unfold V8.order in H.
      fold (order elementLow elementHigh) in H. rewrite E in H.
      apply StronglySorted_rev in H.
      eapply StronglySorted_weaken; [| exact H].
      intros a b _ _ Hab. cbv beta in Hab. unfold before. now rewrite Hab.
    + split; [| split; reflexivity].
      apply ordered_before; [| now apply StronglySorted_take].
      pose proof (run_ascending elementHigh (elementLow :: rest) Hkh Hknown) as H.
      cbn [V8.run_rest] in H. unfold V8.order in H.
      fold (order elementLow elementHigh) in H. rewrite E in H. exact H.
Qed.

(** On an array whose elements the comparator orders consistently, V8
    returns the elements sorted, ties in input order. *)
Lemma V8_sort_sorted (l : list A) :
  Forall known l -> StronglySorted increasing l ->
  StronglySorted before (V8.sort comparefn l)
  /\ Permutation (V8.sort comparefn l) l.
Proof.
  intros Hknown Hinc. unfold V8.sort.
  pose proof (CountAndMakeRun_sorted l Hknown Hinc) as H.
  destruct (V8.CountAndMakeRun comparefn l) as [runLength workArray].
  destruct H as (Hrun & Hperm & Hdrop).
  rewrite <- (take_drop runLength l) in Hinc, Hknown.
  apply StronglySorted_app_inv in Hinc as (_ & Hrest & Hcross).
  apply Forall_app in Hknown as [Hk1 Hk2].
  destruct (BinaryInsertionSort_sorted (drop runLength workArray) (take runLength workArray))
    as [Hs Hp].
  - eapply Permutation_Forall; [symmetry; exact Hperm | exact Hk1].
  - now rewrite Hdrop.
  - exact Hrun.
  - now rewrite Hdrop.
  - intros a b Ha Hb. rewrite Hdrop in Hb. apply (Permutation_in _ Hperm) in Ha.
    now apply Hcross.
  - split; [exact Hs |].
    rewrite Hp, Hdrop, Hperm. now rewrite take_drop.
Qed.
End V8Facts.

Section V8Map.
Context {A B : Type} (f : B -> A) (comparefn : A -> A -> num).

Let comparefn_f (p q : B) : num := comparefn (f p) (f q).

Lemma run_rest_map (isDescending : bool) (previousElement : B) (rest : list B) :
  V8.run_rest comparefn isDescending (f previousElement) (map f rest)
  = V8.run_rest comparefn_f isDescending previousElement rest.
Proof.
  revert previousElement. induction rest as [|c rest IH]; intros p; cbn; [reflexivity |].
  unfold V8.order, comparefn_f. rewrite IH. reflexivity.
Qed.

Lemma CountAndMakeRun_map (l : list B) :
  V8.CountAndMakeRun comparefn (map f l)
  = (fst (V8.CountAndMakeRun comparefn_f l), map f (snd (V8.CountAndMakeRun comparefn_f l))).
Proof.
  destruct l as [|high [|low rest]]; [reflexivity | reflexivity |].
  unfold V8.CountAndMakeRun. cbn [map]. rewrite run_rest_map.
  unfold V8.order, comparefn_f. cbn [fst snd length].
  destruct (JsArray.sort_order (comparefn (f low) (f high))); try reflexivity.
  f_equal. rewrite map_app, map_rev, <- !firstn_map, <- !skipn_map. reflexivity.
Qed.

Lemma search_map (fuel : nat) (pivot : B) (sorted : list B) (left right : nat) :
  V8.search comparefn fuel (f pivot) (map f sorted) left right
  = V8.search comparefn_f fuel pivot sorted left right.
Proof.
  revert left right. induction fuel as [|fuel IH]; intros left right;
    cbn [V8.search]; [reflexivity |].
  destruct (left <? right)%nat; [| reflexivity].
  change (map f sorted) with (f <$> sorted). rewrite list_lookup_fmap.
  change (f <$> sorted) with (map f sorted).
  destruct (sorted !! _) as [element|]; cbn [fmap option_fmap option_map]; [| reflexivity].
  unfold V8.order, comparefn_f. rewrite !IH. reflexivity.
Qed.

Lemma BinaryInsertionSort_map (rest sorted : list B) :
  V8.BinaryInsertionSort comparefn (map f sorted) (map f rest)
  = map f (V8.BinaryInsertionSort comparefn_f sorted rest).
Proof.
  revert sorted. induction rest as [|pivot rest IH]; intros sorted; cbn; [reflexivity |].
  rewrite length_map, search_map, <- IH. f_equal.
  rewrite map_app, <- firstn_map. cbn [map]. now rewrite <- skipn_map.
Qed.

Lemma V8_sort_map (l : list B) :
  V8.sort comparefn (map f l) = map f (V8.sort comparefn_f l).
Proof.
  unfold V8.sort. rewrite CountAndMakeRun_map.
  destruct (V8.CountAndMakeRun comparefn_f l) as [runLength workArray]. cbn [fst snd].
  now rewrite firstn_map, skipn_map, BinaryInsertionSort_map.
Qed.
End V8Map.

(** For a comparator that is a consistent ordering of the array, V8
    returns the array insertion sort returns. *)
Lemma V8_sort_stable {A : Type} (comparefn : A -> A -> num) (l : list A) :
  (forall a b,
     JsArray.sort_order (comparefn a b) = CompOpp (JsArray.sort_order (comparefn b a))) ->
  consistent comparefn l ->
  V8.sort comparefn l = JsArray.sort comparefn l.
Proof.
  intros Hanti Hcons.
  destruct (positions_from l 0) as (Hmap & Hinc & _).
  set (input := combine (seq 0 (length l)) l) in *.
  rewrite <- Hmap.
  rewrite V8_sort_map, <- (sort_map snd comparefn input). f_equal.
  apply (stable_arrangement_unique comparefn Hanti input).
  - now apply increasing_NoDup.
  - destruct (V8_sort_sorted (fun p q : nat * A => comparefn (snd p) (snd q)) fst
                (fun p => In (snd p) l)) with (l := input) as [Hs Hp].
    + intros a b. apply Hanti.
    + intros a b c Ha Hb Hc. now apply (proj2 Hcons).
    + apply Forall_forall. intros p Hp. rewrite <- Hmap.
      now apply in_map, list_elem_of_In.
    + exact Hinc.
    + split; [exact Hp | exact Hs].
  - apply (sort_stands_before comparefn Hanti input Hinc). now rewrite Hmap.
Qed.

(** ** The order the comparator induces *)

Lemma sort_order_of_Q (q : Q) : JsArray.sort_order (Num.of_Q q) = (q ?= 0)%Q.
Proof.
  unfold Num.of_Q. destruct (Qle_bool _ _); [| reflexivity].
  destruct (q ?= 0)%Q; reflexivity.
Qed.

Lemma sort_order_of_comparison (c : comparison) :
  JsArray.sort_order (Num.of_comparison c) = c.
Proof. destruct c; reflexivity. Qed.

Lemma Qcompare_times_one (q : Q) : (q * 1 ?= 0)%Q = (q ?= 0)%Q.
Proof. now rewrite Qmult_1_r. Qed.

Lemma Qcompare_times_minus_one (q : Q) : (q * -1 ?= 0)%Q = CompOpp (q ?= 0)%Q.
Proof.
  rewrite Qcompare_antisym. destruct q as [n d]. unfold Qcompare. cbn.
  rewrite !Z.mul_1_r. replace (n * -1)%Z with (- n)%Z by lia.
  apply (Z.compare_opp n 0).
Qed.

Lemma sort_order_times (x : num) (sortDirection : SortDirection) :
  JsArray.sort_order (Num.mul x (multiplier sortDirection))
  = directed sortDirection (JsArray.sort_order x).
Proof.
  destruct sortDirection, x as [q| | |]; try reflexivity; cbn [Num.mul multiplier directed].
  - now rewrite sort_order_of_Q, Qcompare_times_one.
  - now rewrite sort_order_of_Q, Qcompare_times_minus_one.
Qed.

Lemma sort_order_sub_finite (p q : Q) :
  JsArray.sort_order (Num.sub (Finite p) (Finite q)) = (p ?= q)%Q.
Proof.
  unfold Num.sub. cbn [Num.neg Num.add]. rewrite sort_order_of_Q.
  destruct p as [pn pd], q as [qn qd]. unfold Qcompare. cbn.
  rewrite (Z.compare_sub (pn * Z.pos qd) (qn * Z.pos pd)).
  f_equal. lia.
Qed.

Lemma sort_order_sub_antisym (x y : num) :
  JsArray.sort_order (Num.sub x y) = CompOpp (JsArray.sort_order (Num.sub y x)).
Proof.
  destruct x as [p| | |], y as [q| | |]; try reflexivity.
  now rewrite !sort_order_sub_finite, Qcompare_antisym.
Qed.

Lemma string_compare_trans (a b c : string) :
  String.compare a b <> Gt -> String.compare b c <> Gt -> String.compare a c <> Gt.
Proof.
  revert b c. induction a as [|x a IH]; intros [|y b] [|z c]; cbn; try congruence.
  destruct (Ascii.compare x y) eqn:Exy; [| | congruence].
  - apply Ascii.compare_eq_iff in Exy. subst y.
    destruct (Ascii.compare x z); [apply IH | congruence | congruence].
  - destruct (Ascii.compare y z) eqn:Eyz; [| | congruence]; intros _ _.
    + apply Ascii.compare_eq_iff in Eyz. subst z. rewrite Exy. discriminate.
    + unfold Ascii.compare in *. rewrite N.compare_lt_iff in Exy, Eyz.
      assert (H : (N_of_ascii x ?= N_of_ascii z)%N = Lt) by (apply N.compare_lt_iff; lia).
      rewrite H. discriminate.
Qed.

Lemma sub_order_trans (x y z : num) :
  x <> NaN -> y <> NaN -> z <> NaN ->
  JsArray.sort_order (Num.sub x y) <> Gt ->
  JsArray.sort_order (Num.sub y z) <> Gt ->
  JsArray.sort_order (Num.sub x z) <> Gt.
Proof.
  destruct x as [p| | |], y as [q| | |], z as [r| | |]; try congruence;
    rewrite ?sort_order_sub_finite; cbn; try congruence.
  intros _ _ _ Hpq Hqr. apply Qle_alt. apply Qle_alt in Hpq, Hqr.
  eapply Qle_trans; eassumption.
Qed.

Section QueryFacts.
Variable Number_toString : num -> string.

Lemma compareFn_order (sortField : SortField) (sortDirection : SortDirection)
    (a b : Transaction) :
  JsArray.sort_order (compareFn Number_toString sortField sortDirection a b)
  = directed sortDirection (base_order Number_toString sortField a b).
Proof.
  unfold compareFn, base_order.
  destruct (get sortField a), (get sortField b);
    now rewrite sort_order_times, ?sort_order_of_comparison.
Qed.

(** The two fields the comparator reads always hold values of the same
    kind, so [String] is never applied to a number. *)
Lemma compareFn_same_kind (sortField : SortField) (a b : Transaction) :
  match get sortField a, get sortField b with
  | VNumber _, VNumber _ | VString _, VString _ | VArray _, VArray _ => True
  | _, _ => False
  end.
Proof. destruct sortField; exact I. Qed.

Lemma compareFn_antisym (sortField : SortField) (sortDirection : SortDirection)
    (a b : Transaction) :
  JsArray.sort_order (compareFn Number_toString sortField sortDirection a b)
  = CompOpp (JsArray.sort_order (compareFn Number_toString sortField sortDirection b a)).
Proof.
  rewrite !compareFn_order.
  assert (H : base_order Number_toString sortField a b = CompOpp (base_order Number_toString sortField b a)).
  { unfold base_order, Str.localeCompare.
    destruct sortField; cbn [get];
      first [apply sort_order_sub_antisym | apply String.compare_antisym]. }
  rewrite H. destruct sortDirection; cbn [directed]; now rewrite ?CompOpp_involutive.
Qed.

(** C6: the filter keeps exactly the transactions that meet both
    conditions: the search text occurs, whatever the case, in the id,
    the sender or the receiver, and the selector is "all" or the
    transaction's level.  The query returns those transactions and no
    others; the empty search text and the selector "all" let every
    transaction through. *)
Theorem filter_keeps_exactly (sortField : SortField) (sortDirection : SortDirection)
    (searchTerm filterRisk : string) (ts : list Transaction) :
  (forall tx,
     matches searchTerm filterRisk tx = true
     <-> Spec.search_condition searchTerm tx /\ Spec.risk_condition filterRisk tx)
  /\ (forall tx,
        In tx (query Number_toString sortField sortDirection filterRisk searchTerm ts)
        <-> In tx ts /\ Spec.search_condition searchTerm tx
            /\ Spec.risk_condition filterRisk tx)
  /\ (forall tx, Spec.search_condition "" tx)
  /\ (forall tx, Spec.risk_condition "all" tx)
  /\ List.filter (matches "" "all") ts = ts.
Proof.
  split; [intros tx; apply matches_iff |].
  split.
  { intros tx. unfold query. rewrite <- matches_iff, <- filter_In. split.
    - apply Permutation_in, sort_perm.
    - apply Permutation_in. symmetry. apply sort_perm. }
  assert (Hs : forall tx, Spec.search_condition "" tx).
  { intros tx. left. exists "", (Str.toLowerCase (tx_id tx)). reflexivity. }
  assert (Hr : forall tx, Spec.risk_condition "all" tx) by (intros tx; now left).
  repeat split; try assumption.
  apply filter_matches_all.
Qed.

Lemma filteredAndSortedTransactions_run (sort : Engine) (sortField : SortField)
    (sortDirection : SortDirection) (filterRisk searchTerm : string)
    (transactions : loc) (ts : list Transaction) (h : heap) :
  h !! transactions = Some ts ->
  filteredAndSortedTransactions Number_toString sort sortField sortDirection
    filterRisk searchTerm transactions h
  = Some (fresh (dom h),
          <[fresh (dom h) :=
              sort (compareFn Number_toString sortField sortDirection)
                (List.filter (matches searchTerm filterRisk) ts)]> h).
Proof.
  intros H. unfold filteredAndSortedTransactions, Array_filter, Array_sort.
  rewrite H. cbn. now rewrite lookup_insert_eq, insert_insert_eq.
Qed.

Lemma fresh_not_allocated (h : heap) (l : loc) (xs : list Transaction) :
  h !! l = Some xs -> fresh (dom h) <> l.
Proof.
  intros H E. pose proof (is_fresh (dom h)) as Hf.
  apply not_elem_of_dom in Hf. rewrite E in Hf. congruence.
Qed.

Lemma query_positions_stable (sortField : SortField) (sortDirection : SortDirection)
    (filterRisk searchTerm : string) (ts : list Transaction) :
  let out := query_positions Number_toString sortField sortDirection
               filterRisk searchTerm ts in
  map snd out = query Number_toString sortField sortDirection filterRisk searchTerm ts
  /\ forall (i j : nat) (p q : nat * Transaction),
       (i < j)%nat -> out !! i = Some p -> out !! j = Some q ->
       ts !! fst p = Some (snd p)
       /\ ts !! fst q = Some (snd q)
       /\ (JsArray.sort_order
             (compareFn Number_toString sortField sortDirection (snd p) (snd q)) = Eq ->
           (fst p < fst q)%nat).
Proof.
  intros out. subst out. unfold query_positions, query, JsArray.positions.
  destruct (positions_from ts 0) as (Hmap & Hsorted & Hall).
  set (cmp := compareFn Number_toString sortField sortDirection).
  set (tagged := List.filter _ _).
  split.
  - rewrite (sort_map snd cmp). subst tagged.
    now rewrite (filter_map_snd (matches searchTerm filterRisk)), Hmap.
  - assert (Hin : forall k p, JsArray.sort (fun p q => cmp (snd p) (snd q)) tagged !! k = Some p ->
                              ts !! fst p = Some (snd p)).
    { intros k p Hk. apply list_elem_of_lookup_2, list_elem_of_In in Hk.
      apply (Permutation_in _ (sort_perm _ tagged)) in Hk.
      subst tagged. apply filter_In in Hk as [Hk _].
      rewrite Forall_forall in Hall. apply list_elem_of_In, Hall in Hk.
      destruct Hk as [_ Hk]. now rewrite Nat.sub_0_r in Hk. }
    intros i j p q Hij Hi Hj.
    split; [eapply Hin; exact Hi |]. split; [eapply Hin; exact Hj |].
    intros Htie.
    assert (Hs : StronglySorted (JsArray.in_place (fun p q => cmp (snd p) (snd q)) fst)
                   (JsArray.sort (fun p q => cmp (snd p) (snd q)) tagged)).
    { apply sort_in_place. subst tagged. now apply filter_StronglySorted. }
    destruct (StronglySorted_lookup _ _ Hs i j p q Hij Hi Hj) as [Hlt | Hgt];
      [exact Hlt |].
    subst cmp. rewrite compareFn_antisym, Htie in Hgt. discriminate Hgt.
Qed.

Lemma base_order_antisym (sortField : SortField) (a b : Transaction) :
  base_order Number_toString sortField a b
  = CompOpp (base_order Number_toString sortField b a).
Proof.
  pose proof (compareFn_antisym sortField asc a b) as H.
  now rewrite !compareFn_order in H.
Qed.

Lemma base_order_trans (sortField : SortField) (a b c : Transaction) :
  ~ holds_NaN sortField a -> ~ holds_NaN sortField b -> ~ holds_NaN sortField c ->
  base_order Number_toString sortField a b <> Gt ->
  base_order Number_toString sortField b c <> Gt ->
  base_order Number_toString sortField a c <> Gt.
Proof.
  unfold holds_NaN, base_order, Str.localeCompare.
  destruct sortField; cbn [get]; intros Ha Hb Hc;
    first [apply string_compare_trans | apply sub_order_trans; congruence].
Qed.

Lemma compareFn_consistent (sortField : SortField) (sortDirection : SortDirection)
    (l : list Transaction) :
  (forall tx, In tx l -> ~ holds_NaN sortField tx) ->
  consistent (compareFn Number_toString sortField sortDirection) l.
Proof.
  intros Hnum. split; [intros a b _ _; apply compareFn_antisym |].
  intros a b c Ha Hb Hc. rewrite !compareFn_order.
  apply Hnum in Ha, Hb, Hc.
  destruct sortDirection; cbn [directed].
  - now apply base_order_trans.
  - rewrite (base_order_antisym sortField a b), (base_order_antisym sortField b c),
      (base_order_antisym sortField a c), !CompOpp_involutive.
    intros Hba Hcb. now apply (base_order_trans sortField c b a).
Qed.

Lemma query_positions_arrangement (sortField : SortField) (sortDirection : SortDirection)
    (filterRisk searchTerm : string) (ts : list Transaction) :
  let comparefn := compareFn Number_toString sortField sortDirection in
  let input := List.filter (fun p => matches searchTerm filterRisk (snd p))
                 (JsArray.positions ts) in
  consistent comparefn (List.filter (matches searchTerm filterRisk) ts) ->
  stable_arrangement comparefn input
    (query_positions Number_toString sortField sortDirection filterRisk searchTerm ts)
  /\ forall output, stable_arrangement comparefn input output ->
       output = query_positions Number_toString sortField sortDirection
                  filterRisk searchTerm ts.
Proof.
  intros comparefn input Hcons.
  destruct (positions_from ts 0) as (Hmap & Hinc & _).
  assert (Hinput : StronglySorted (fun p q : nat * Transaction => (fst p < fst q)%nat) input)
    by (subst input; now apply filter_StronglySorted).
  assert (Hanti : forall a b, JsArray.sort_order (comparefn a b)
                              = CompOpp (JsArray.sort_order (comparefn b a)))
    by (intros a b; apply compareFn_antisym).
  assert (Hq : stable_arrangement comparefn input
                 (query_positions Number_toString sortField sortDirection
                    filterRisk searchTerm ts)).
  { apply (sort_stands_before comparefn Hanti input Hinput).
    subst input. unfold JsArray.positions.
    now rewrite (filter_map_snd (matches searchTerm filterRisk)), Hmap. }
  split; [exact Hq |].
  intros output Hout.
  apply (stable_arrangement_unique comparefn Hanti input); [| exact Hout | exact Hq].
  now apply increasing_NoDup.
Qed.

(** C7: the query reads the array it is given and leaves it as it is:
    whatever the sort of the engine, it returns a new array, and every
    array that existed before the call is unchanged after it; a second
    call with the same arguments returns an array with the same elements
    in the same order.  When none of the transactions that pass the
    filter holds [NaN] in the sort field, the comparator is a consistent
    ordering of them.  When the comparator is a consistent ordering,
    there is one arrangement that is sorted with ties in input order,
    the one every engine has to return; it is the query's output, V8
    returns it, and in it, of two transactions the comparator ties, the
    one that stood first in the input stands first. *)
Theorem query_is_pure_and_stable (sort : Engine) (sortField : SortField)
    (sortDirection : SortDirection) (filterRisk searchTerm : string)
    (transactions : loc) (ts : list Transaction) (h : heap) :
  h !! transactions = Some ts ->
  exists (out : loc) (h' : heap),
    filteredAndSortedTransactions Number_toString sort sortField sortDirection
      filterRisk searchTerm transactions h = Some (out, h')
    /\ h !! out = None
    /\ (forall l : loc, l <> out -> h' !! l = h !! l)
    /\ h' !! transactions = Some ts
    /\ h' !! out
       = Some (sort (compareFn Number_toString sortField sortDirection)
                 (List.filter (matches searchTerm filterRisk) ts))
    /\ (exists (out2 : loc) (h'' : heap),
          filteredAndSortedTransactions Number_toString sort sortField sortDirection
            filterRisk searchTerm transactions h' = Some (out2, h'')
          /\ h'' !! out2 = h' !! out
          /\ h'' !! out = h' !! out
          /\ h'' !! transactions = Some ts)
    /\ ((forall tx, In tx (List.filter (matches searchTerm filterRisk) ts) ->
           ~ holds_NaN sortField tx) ->
        consistent (compareFn Number_toString sortField sortDirection)
          (List.filter (matches searchTerm filterRisk) ts))
    /\ (consistent (compareFn Number_toString sortField sortDirection)
          (List.filter (matches searchTerm filterRisk) ts) ->
        let input := List.filter (fun p => matches searchTerm filterRisk (snd p))
                       (JsArray.positions ts) in
        let tagged := query_positions Number_toString sortField sortDirection
                        filterRisk searchTerm ts in
        stable_arrangement (compareFn Number_toString sortField sortDirection)
          input tagged
        /\ (forall output,
              stable_arrangement (compareFn Number_toString sortField sortDirection)
                input output ->
              output = tagged)
        /\ map snd tagged
           = query Number_toString sortField sortDirection filterRisk searchTerm ts
        /\ V8.sort (compareFn Number_toString sortField sortDirection)
             (List.filter (matches searchTerm filterRisk) ts)
           = query Number_toString sortField sortDirection filterRisk searchTerm ts
        /\ forall (i j : nat) (p q : nat * Transaction),
             (i < j)%nat -> tagged !! i = Some p -> tagged !! j = Some q ->
             ts !! fst p = Some (snd p)
             /\ ts !! fst q = Some (snd q)
             /\ (JsArray.sort_order
                   (compareFn Number_toString sortField sortDirection (snd p) (snd q))
                 = Eq ->
                 (fst p < fst q)%nat)).
Proof.
  intros H.
  pose proof (fresh_not_allocated h transactions ts H) as Hne.
  set (result := sort (compareFn Number_toString sortField sortDirection)
                   (List.filter (matches searchTerm filterRisk) ts)).
  exists (fresh (dom h)), (<[fresh (dom h) := result]> h).
  assert (H' : <[fresh (dom h) := result]> h !! transactions = Some ts)
    by now rewrite lookup_insert_ne.
  split; [now apply filteredAndSortedTransactions_run |].
  split; [apply not_elem_of_dom, is_fresh |].
  split; [intros l Hl; now rewrite lookup_insert_ne |].
  split; [exact H' |].
  split; [apply lookup_insert_eq |].
  split.
  { pose proof (fresh_not_allocated _ transactions ts H') as Hne2.
    pose proof (fresh_not_allocated (<[fresh (dom h) := result]> h) (fresh (dom h)) result
                  (lookup_insert_eq _ _ _)) as Hne3.
    eexists _, _. split; [apply filteredAndSortedTransactions_run; exact H' |].
    fold result. split; [| split].
    + rewrite lookup_insert_eq. symmetry. apply lookup_insert_eq.
    + apply lookup_insert_ne. exact Hne3.
    + rewrite lookup_insert_ne by exact Hne2. exact H'. }
  split; [apply compareFn_consistent |].
  intros Hcons input tagged.
  destruct (query_positions_arrangement sortField sortDirection filterRisk searchTerm ts
              Hcons) as [Hq Huniq].
  split; [exact Hq |]. split; [exact Huniq |].
  pose proof (query_positions_stable sortField sortDirection filterRisk searchTerm ts)
    as [Hmap Hties].
  split; [exact Hmap |].
  split; [| exact Hties].
  apply V8_sort_stable; [| exact Hcons].
  intros a b. apply compareFn_antisym.
Qed.

Lemma risk_level_order (a b : Transaction) :
  JsArray.sort_order (compareFn Number_toString sf_risk_level asc a b)
  = Nat.compare (alphabetical (tx_risk_level a)) (alphabetical (tx_risk_level b)).
Proof.
  rewrite compareFn_order. unfold base_order. cbn [get directed String_of].
  destruct (tx_risk_level a), (tx_risk_level b); reflexivity.
Qed.

Lemma finite_order (x y : num) (p q : Q) (sortDirection : SortDirection) :
  x = Finite p -> y = Finite q ->
  JsArray.sort_order (Num.mul (Num.sub x y) (multiplier sortDirection))
  = directed sortDirection (p ?= q)%Q.
Proof. intros -> ->. now rewrite sort_order_times, sort_order_sub_finite. Qed.

(** C8: on the two numeric fields the comparator returns the difference
    of the numbers, times the direction, so that finite numbers are
    ordered by their value; on every other field it returns the
    comparison of the string forms, times the direction, the strings
    being compared code unit by code unit.  Sorting by risk_level
    therefore orders the levels as the words HIGH, LOW, MEDIUM: in
    ascending order a HIGH transaction comes first and a MEDIUM one
    last, which is not the order of severity. *)
Theorem comparator_rule (sortDirection : SortDirection) (a b c : Transaction) :
  compareFn Number_toString sf_amount sortDirection a b
  = Num.mul (Num.sub (tx_amount a) (tx_amount b)) (multiplier sortDirection)
  /\ compareFn Number_toString sf_risk_score sortDirection a b
     = Num.mul (Num.sub (tx_risk_score a) (tx_risk_score b)) (multiplier sortDirection)
  /\ (forall p q : Q,
        tx_amount a = Finite p -> tx_amount b = Finite q ->
        JsArray.sort_order (compareFn Number_toString sf_amount sortDirection a b)
        = directed sortDirection (p ?= q)%Q)
  /\ (forall p q : Q,
        tx_risk_score a = Finite p -> tx_risk_score b = Finite q ->
        JsArray.sort_order (compareFn Number_toString sf_risk_score sortDirection a b)
        = directed sortDirection (p ?= q)%Q)
  /\ (forall sortField : SortField,
        match text_form sortField a, text_form sortField b with
        | Some s, Some t =>
            compareFn Number_toString sortField sortDirection a b
            = Num.mul (Num.of_comparison (String.compare s t)) (multiplier sortDirection)
            /\ JsArray.sort_order (compareFn Number_toString sortField sortDirection a b)
               = directed sortDirection (String.compare s t)
        | _, _ => sortField = sf_amount \/ sortField = sf_risk_score
        end)
  /\ JsArray.sort_order (compareFn Number_toString sf_risk_level asc a b)
     = Nat.compare (alphabetical (tx_risk_level a)) (alphabetical (tx_risk_level b))
  /\ (tx_risk_level a = HIGH -> tx_risk_level b = LOW -> tx_risk_level c = MEDIUM ->
      query Number_toString sf_risk_level asc "all" "" [c; b; a] = [a; b; c]
      /\ (Spec.severity (tx_risk_level b) < Spec.severity (tx_risk_level c)
          < Spec.severity (tx_risk_level a))%nat).
Proof.
  split; [reflexivity |]. split; [reflexivity |].
  split; [intros p q Hp Hq; now apply finite_order |].
  split; [intros p q Hp Hq; now apply finite_order |].
  split.
  { intros sortField.
    destruct sortField; cbn [text_form]; try (left; reflexivity); try (right; reflexivity);
      (split; [reflexivity |]);
      now rewrite compareFn_order. }
  split; [apply risk_level_order |].
  intros Ha Hb Hc. split.
  - unfold query. rewrite filter_matches_all.
    cbn [JsArray.sort JsArray.insert].
    rewrite (risk_level_order b a), Ha, Hb. cbn [alphabetical Nat.compare JsArray.insert].
    rewrite (risk_level_order c a), Ha, Hc. cbn [alphabetical Nat.compare JsArray.insert].
    rewrite (risk_level_order c b), Hb, Hc. reflexivity.
  - rewrite Ha, Hb, Hc. cbn. lia.
Qed.
End QueryFacts.

(** ** The theorems with a premise, at a concrete input *)

Lemma query_is_pure_and_stable_witness :
  ({[ 7%nat := two_ties ]} : heap) !! 7%nat = Some two_ties
  /\ exists (out : loc) (h' : heap),
       filteredAndSortedTransactions (fun _ => "") V8.sort sf_amount desc "all" "" 7%nat
         {[ 7%nat := two_ties ]} = Some (out, h')
       /\ h' !! 7%nat = Some two_ties
       /\ h' !! out = Some two_ties.
Proof.
  split; [apply lookup_singleton_eq |].
  destruct (query_is_pure_and_stable (fun _ => "") V8.sort sf_amount desc "all" ""
              7%nat two_ties {[ 7%nat := two_ties ]} (lookup_singleton_eq _ _))
    as (out & h' & Hrun & _ & _ & Hin & Hout & _).
  exists out, h'. split; [exact Hrun |]. split; [exact Hin |].
  rewrite Hout. reflexivity.
Defined.

(** C7 as the specification states it, for every list of transactions,
    fails on V8.  Four records with the amount cells 2, 1, n/a and 0 are
    uploaded; the store then holds four transactions with the amounts 2,
    1, [NaN] and 0.  They are sorted by amount, ascending, nothing
    filtered out.  The array the query returns holds the amounts 0, 1,
    2, [NaN].  The
    comparator ties the transaction with [NaN] and the one with 0; the
    first stood third and the second fourth in the input, and in the
    output the second stands before the first.  The comparator is not a
    consistent ordering of the four: it ties 2 with [NaN] and [NaN] with
    0, and puts 2 after 0. *)
Lemma v8_sort_breaks_tie_order :
  suspiciousTransactions
    (dashboard (handleDataUpload nan_rows (Sample.initial (Sample.draws []))))
  = nan_amounts
  /\ (exists (out : loc) (h' : heap),
        filteredAndSortedTransactions (fun _ => "") V8.sort sf_amount asc "all" "" 7%nat
          {[ 7%nat := nan_amounts ]} = Some (out, h')
        /\ h' !! 7%nat = Some nan_amounts
        /\ h' !! out
           = Some [ amount_of "TXN-000004" (Finite 0); amount_of "TXN-000002" (Finite 1);
                    amount_of "TXN-000001" (Finite 2); amount_of "TXN-000003" NaN ])
  /\ V8.sort (fun p q => compareFn (fun _ => "") sf_amount asc (snd p) (snd q))
       (List.filter (fun p => matches "" "all" (snd p)) (JsArray.positions nan_amounts))
     = [ (3%nat, amount_of "TXN-000004" (Finite 0));
         (1%nat, amount_of "TXN-000002" (Finite 1));
         (0%nat, amount_of "TXN-000001" (Finite 2));
         (2%nat, amount_of "TXN-000003" NaN) ]
  /\ JsArray.sort_order
       (compareFn (fun _ => "") sf_amount asc
          (amount_of "TXN-000004" (Finite 0)) (amount_of "TXN-000003" NaN)) = Eq
  /\ ~ (forall (i j : nat) (p q : nat * Transaction),
          (i < j)%nat ->
          V8.sort (fun p q => compareFn (fun _ => "") sf_amount asc (snd p) (snd q))
            (List.filter (fun p => matches "" "all" (snd p))
               (JsArray.positions nan_amounts)) !! i = Some p ->
          V8.sort (fun p q => compareFn (fun _ => "") sf_amount asc (snd p) (snd q))
            (List.filter (fun p => matches "" "all" (snd p))
               (JsArray.positions nan_amounts)) !! j = Some q ->
          nan_amounts !! fst p = Some (snd p)
          /\ nan_amounts !! fst q = Some (snd q)
          /\ (JsArray.sort_order
                (compareFn (fun _ => "") sf_amount asc (snd p) (snd q)) = Eq ->
              (fst p < fst q)%nat))
  /\ ~ consistent (compareFn (fun _ => "") sf_amount asc) nan_amounts.
Proof.
  assert (Hout : V8.sort
                   (fun p q => compareFn (fun _ => "") sf_amount asc (snd p) (snd q))
                   (List.filter (fun p => matches "" "all" (snd p))
                      (JsArray.positions nan_amounts))
                 = [ (3%nat, amount_of "TXN-000004" (Finite 0));
                     (1%nat, amount_of "TXN-000002" (Finite 1));
                     (0%nat, amount_of "TXN-000001" (Finite 2));
                     (2%nat, amount_of "TXN-000003" NaN) ])
    by (vm_compute; reflexivity).
  assert (Htie : JsArray.sort_order
                   (compareFn (fun _ => "") sf_amount asc
                      (amount_of "TXN-000004" (Finite 0)) (amount_of "TXN-000003" NaN))
                 = Eq)
    by (vm_compute; reflexivity).
  split; [vm_compute; reflexivity |].
  split.
  { eexists _, _.
    split; [apply filteredAndSortedTransactions_run; apply lookup_singleton_eq |].
    split.
    - rewrite lookup_insert_ne; [apply lookup_singleton_eq |].
      apply (fresh_not_allocated _ _ nan_amounts), lookup_singleton_eq.
    - rewrite lookup_insert_eq. vm_compute. reflexivity. }
  split; [exact Hout |]. split; [exact Htie |].
  split.
  - intros H. rewrite Hout in H.
    destruct (H 0%nat 3%nat _ _ ltac:(lia) eq_refl eq_refl) as (_ & _ & Hlt).
    specialize (Hlt Htie). cbn [fst] in Hlt. lia.
  - intros [_ Htrans].
    apply (Htrans (amount_of "TXN-000001" (Finite 2))
             (amount_of "TXN-000003" NaN)
             (amount_of "TXN-000004" (Finite 0))).
    + left. reflexivity.
    + right. right. left. reflexivity.
    + right. right. right. left. reflexivity.
    + vm_compute. discriminate.
    + vm_compute. discriminate.
    + vm_compute. reflexivity.
Qed.

(** * Further properties *)

#[local] Set Warnings "-clear-no-such-hyp".

(** ** The CSV upload *)

Lemma split_not_nil (sep : ascii) (s : string) : Csv.split sep s <> [].
Proof.
  destruct s as [|c s]; cbn; [discriminate |].
  destruct (Ascii.eqb c sep); [discriminate |].
  destruct (Csv.split sep s); discriminate.
Qed.

Lemma append_cons (c : ascii) (s t : string) : String c s ++ t = String c (s ++ t).
Proof. reflexivity. Qed.

Lemma append_nil_l (t : string) : "" ++ t = t.
Proof. reflexivity. Qed.

Lemma split_app_sep (sep : ascii) (s : string) :
  Csv.split sep (s ++ String sep "") = (Csv.split sep s ++ [""])%list.
Proof.
  induction s as [|c s IH]; rewrite ?append_cons, ?append_nil_l; cbn [Csv.split].
  - now rewrite Ascii.eqb_refl.
  - rewrite IH. destruct (Ascii.eqb c sep); [reflexivity |].
    pose proof (split_not_nil sep s) as Hne.
    destruct (Csv.split sep s); [contradiction | reflexivity].
Qed.

Lemma split_hd (sep : ascii) (a b : string) :
  (forall c, In c (list_ascii_of_string a) -> c <> sep) ->
  hd "" (Csv.split sep (a ++ String sep b)) = a.
Proof.
  induction a as [|c a IH]; intros Ha; rewrite ?append_cons, ?append_nil_l;
    cbn [Csv.split].
  - now rewrite Ascii.eqb_refl.
  - destruct (Ascii.eqb_spec c sep) as [->|Hc].
    + exfalso. apply (Ha sep); [now left | reflexivity].
    + assert (IHa : hd "" (Csv.split sep (a ++ String sep b)) = a).
      { apply IH. intros c' Hc'. apply Ha. now right. }
      pose proof (split_not_nil sep (a ++ String sep b)) as Hne.
      destruct (Csv.split sep (a ++ String sep b)); [contradiction |].
      cbn in *. now rewrite IHa.
Qed.

Lemma assign_columns_lookup (name : string) (headers values : list string) :
  name <> "id" -> name <> "__proto__" ->
  forall (i : nat) (row : Csv.Row),
    Csv.csv_fields (Csv.assign_columns headers values i row) !! name
    = match last_column name headers i with
      | Some j => Some (nth j values "")
      | None => Csv.csv_fields row !! name
      end.
Proof.
  intros Hid Hproto. induction headers as [|header headers IH]; intros i row;
    [reflexivity |].
  cbn [Csv.assign_columns last_column]. rewrite IH.
  destruct (last_column name headers (S i)); [reflexivity |].
  unfold Csv.set_property.
  destruct (String.eqb_spec header name) as [->|Hne].
  - apply String.eqb_neq in Hid, Hproto. rewrite Hid, Hproto. cbn.
    apply lookup_insert_eq.
  - destruct (String.eqb header "__proto__"); [reflexivity |].
    destruct (String.eqb header "id"); [reflexivity |]. cbn.
    now apply lookup_insert_ne.
Qed.

Lemma assign_columns_dom (headers values : list string) :
  forall (i : nat) (row : Csv.Row),
    dom (Csv.csv_fields (Csv.assign_columns headers values i row))
    = dom (Csv.csv_fields row)
      ∪ (list_to_set headers ∖ {[ "id"; "__proto__" ]} : gset string).
Proof.
  induction headers as [|header headers IH]; intros i row; cbn [Csv.assign_columns].
  - cbn. clear. set_solver.
  - rewrite IH. clear IH. unfold Csv.set_property.
    destruct (String.eqb_spec header "__proto__") as [->|Hp]; [cbn; set_solver |].
    destruct (String.eqb_spec header "id") as [->|Hi]; cbn; [set_solver |].
    rewrite dom_insert_L. set_solver.
Qed.

Lemma assign_columns_id (headers values : list string) :
  ~ In "id" headers ->
  forall (i : nat) (row : Csv.Row),
    Csv.csv_id (Csv.assign_columns headers values i row) = Csv.csv_id row.
Proof.
  induction headers as [|header headers IH]; intros Hid i row; [reflexivity |].
  cbn [Csv.assign_columns]. rewrite IH by (intros H; apply Hid; now right).
  unfold Csv.set_property.
  destruct (String.eqb header "__proto__"); [reflexivity |].
  destruct (String.eqb_spec header "id") as [->|_]; [| reflexivity].
  exfalso. apply Hid. now left.
Qed.

Lemma parse_lookup (csv : string) (j : nat) :
  Csv.parse csv !! j
  = (fun line =>
       Csv.assign_columns (header_names csv) (Csv.cells line) 0
         {| Csv.csv_id := Csv.IdNumber (j + 1); Csv.csv_fields := ∅ |})
    <$> data_lines csv !! j.
Proof. unfold Csv.parse. now rewrite list_lookup_imap. Qed.

(** X1: the parser makes one row for each line after the first that is
    not blank, in the order of the file; unless a column is itself called
    id, the rows are numbered 1, 2, 3, ... and blank lines take no
    number. *)
Theorem parse_rows (csv : string) :
  length (Csv.parse csv)
  = length (List.filter (fun line => negb (falsy (Csv.trim line)))
              (tl (Csv.split "010" csv)))
  /\ forall (j : nat) (row : Csv.Row),
       Csv.parse csv !! j = Some row ->
       (j < length (data_lines csv))%nat
       /\ (~ In "id" (header_names csv) -> Csv.csv_id row = Csv.IdNumber (j + 1)).
Proof.
  split; [unfold Csv.parse; apply length_imap |].
  intros j row Hrow. rewrite parse_lookup in Hrow.
  destruct (data_lines csv !! j) as [line|] eqn:Hline; [| discriminate].
  split; [eapply lookup_lt_Some; exact Hline |].
  intros Hid. injection Hrow as <-. now rewrite assign_columns_id.
Qed.

(** X2: a newline at the end of the file adds no row. *)
Theorem parse_trailing_newline (csv : string) :
  Csv.parse (csv ++ String "010" "") = Csv.parse csv.
Proof.
  unfold Csv.parse. rewrite split_app_sep.
  pose proof (split_not_nil "010" csv) as Hne.
  destruct (Csv.split "010" csv) as [|first rest]; [contradiction |].
  cbn [hd tl app]. now rewrite List.filter_app, app_nil_r.
Qed.

(** X3: every row has exactly the columns of the header line as its
    properties, whatever the number of cells on its line: a column of a
    short line is there with the empty text, the cells beyond the last
    column are dropped.  (The names id and __proto__ are apart: the first
    is the row's id, the second is never set.) *)
Theorem parse_columns (csv : string) (j : nat) (row : Csv.Row) :
  Csv.parse csv !! j = Some row ->
  dom (Csv.csv_fields row)
  = (list_to_set (header_names csv) ∖ {[ "id"; "__proto__" ]} : gset string).
Proof.
  intros Hrow. rewrite parse_lookup in Hrow.
  destruct (data_lines csv !! j) as [line|]; [| discriminate].
  injection Hrow as <-. rewrite assign_columns_dom. cbn. set_solver.
Qed.

(** X4: the text a row holds under a column name is the cell of its line
    at the place of the last column of that name, without the white
    space around it, and the empty text when the line has no cell
    there. *)
Theorem parse_cell (csv : string) (j : nat) (row : Csv.Row) (name : string) :
  Csv.parse csv !! j = Some row ->
  name <> "id" -> name <> "__proto__" ->
  exists line,
    data_lines csv !! j = Some line
    /\ Csv.csv_fields row !! name
       = match last_column name (header_names csv) 0 with
         | Some c => Some (default "" (Csv.trim <$> Csv.split "," line !! c))
         | None => None
         end.
Proof.
  intros Hrow Hid Hproto. rewrite parse_lookup in Hrow.
  destruct (data_lines csv !! j) as [line|]; [| discriminate].
  injection Hrow as <-. exists line. split; [reflexivity |].
  rewrite assign_columns_lookup by assumption.
  destruct (last_column name (header_names csv) 0) as [c|]; [| reflexivity].
  f_equal. unfold Csv.cells. generalize (Csv.split "," line). intros l. revert c.
  induction l as [|x l IH]; intros [|c]; try reflexivity. apply IH.
Qed.

Lemma handleDataUpload_resume_world (data : list RawRow) (w : World) :
  dashboard (handleDataUpload_resume data w)
  = {| uploadedData := uploadedData (dashboard w);
       suspiciousTransactions := predicted data (env w);
       isProcessing := false;
       selectedTransaction := selectedTransaction (dashboard w) |}
  /\ exists finished,
       toasts (handleDataUpload_resume data w) = (toasts w ++ [finished])%list
       /\ toast_title finished = "Analysis Complete".
Proof.
  unfold handleDataUpload_resume, in_env, mockPredict, predicted, bind.
  rewrite slice_first_ten.
  destruct (map_indexed predict_row (firstn 10 data) 0 (env w)) as [txs e'].
  cbn. split; [reflexivity |]. eexists. split; reflexivity.
Qed.

Lemma handleDataUpload_phases (data : list RawRow) (w : World) :
  handleDataUpload data w
  = handleDataUpload_resume data (handleDataUpload_begin data w).
Proof. reflexivity. Qed.

Lemma row_outcome_of_row (row : Csv.Row) (j : nat) (tx : Transaction) :
  row_outcome (Csv.to_raw row) j tx ->
  tx_id tx = transaction_id j
  /\ (forall s, Csv.csv_fields row !! "amount" = Some s -> s <> "" ->
                tx_amount tx = Parse.parseFloat s)
  /\ (forall s, Csv.csv_fields row !! "from_account" = Some s -> s <> "" ->
                tx_from_account tx = s)
  /\ (forall s, Csv.csv_fields row !! "to_account" = Some s -> s <> "" ->
                tx_to_account tx = s).
Proof.
  intros [Hid Ha Hf Ht _]. cbn [Csv.to_raw row_amount row_from_account row_to_account] in *.
  split; [exact Hid |].
  repeat split; intros s Hs Hne.
  - rewrite Hs in Ha. destruct s; [contradiction | exact Ha].
  - rewrite Hs in Hf. destruct s; [contradiction | exact Hf].
  - rewrite Hs in Ht. destruct s; [contradiction | exact Ht].
Qed.

(** X5: choosing a file, whatever its type, parses it and ingests its
    rows.  Afterwards the card shows the file's name, the dashboard
    counts one uploaded record per row, the store holds the first ten
    rows as transactions in the order of the file, each with the texts of
    the columns amount, from_account and to_account of its row when they
    are not empty, and two messages were shown: first that the file was
    uploaded, then that the analysis is complete. *)
Theorem file_select_end_to_end (f : File) (p : Page) :
  let p' := handleFileSelect (Some f) p in
  let rows := Csv.parse (file_text f) in
  let store := suspiciousTransactions (dashboard (world p')) in
  file (upload p') = Some f
  /\ getStatusText p' = file_name f
  /\ length (uploadedData (dashboard (world p'))) = length rows
  /\ length store = Nat.min 10 (length rows)
  /\ (exists finished,
        toasts (world p')
        = (toasts (world p) ++ [file_uploaded (length rows); finished])%list
        /\ toast_title finished = "Analysis Complete")
  /\ forall (j : nat) (row : Csv.Row),
       (j < 10)%nat -> rows !! j = Some row ->
       exists tx,
         store !! j = Some tx
         /\ tx_id tx = transaction_id j
         /\ (forall s, Csv.csv_fields row !! "amount" = Some s -> s <> "" ->
                       tx_amount tx = Parse.parseFloat s)
         /\ (forall s, Csv.csv_fields row !! "from_account" = Some s -> s <> "" ->
                       tx_from_account tx = s)
         /\ (forall s, Csv.csv_fields row !! "to_account" = Some s -> s <> "" ->
                       tx_to_account tx = s).
Proof.
  intros p' rows store. subst p' store.
  unfold handleFileSelect, processFile, in_world, setFile.
  cbn [world upload file]. fold rows.
  set (data := map Csv.to_raw rows).
  set (w1 := toast _ (handleDataUpload_begin data (world p))).
  destruct (handleDataUpload_resume_world data w1) as (Hd & finished & Ht & Htitle).
  assert (Hlen : length data = length rows) by apply length_map.
  split; [reflexivity |].
  split; [unfold getStatusText; cbn [world upload file]; now rewrite Hd |].
  rewrite Hd. cbn [uploadedData suspiciousTransactions].
  split; [exact Hlen |].
  split; [now rewrite predicted_length, Hlen |].
  split.
  { exists finished. split; [| exact Htitle]. rewrite Ht. subst w1. cbn.
    rewrite Hlen. now rewrite <- app_assoc. }
  intros j row Hj Hrow.
  assert (Hdata : data !! j = Some (Csv.to_raw row)).
  { subst data. rewrite lookup_map, Hrow. reflexivity. }
  destruct (predicted_lookup data (env w1) j _ Hj Hdata) as (tx & Htx & Hout).
  exists tx. split; [exact Htx |]. now apply row_outcome_of_row.
Qed.

(** X6: dropping something that is not a file of type text/csv only
    reports the invalid type: nothing is parsed, the dashboard and the
    chosen file stay as they were, no random number is drawn.  A dropped
    text/csv file is handled like a chosen one. *)
Theorem handleDrop_rejects_other_types (droppedFile : option File) (p : Page) :
  (forall f, droppedFile = Some f -> file_type f <> "text/csv") ->
  handleDrop droppedFile p
  = in_world (toast invalid_file_type) (setIsDragging false p)
  /\ dashboard (world (handleDrop droppedFile p)) = dashboard (world p)
  /\ file (upload (handleDrop droppedFile p)) = file (upload p)
  /\ env (world (handleDrop droppedFile p)) = env (world p).
Proof.
  intros H.
  assert (E : handleDrop droppedFile p
              = in_world (toast invalid_file_type) (setIsDragging false p)).
  { unfold handleDrop. destruct droppedFile as [f|]; [| reflexivity].
    specialize (H f eq_refl). apply String.eqb_neq in H. now rewrite H. }
  rewrite E. repeat split.
Qed.

Lemma handleDrop_accepts_csv (f : File) (p : Page) :
  file_type f = "text/csv" ->
  handleDrop (Some f) p = handleFileSelect (Some f) (setIsDragging false p).
Proof. intros H. unfold handleDrop, handleFileSelect. now rewrite H. Qed.

Lemma handleDrop_rejects_other_types_witness :
  handleDrop (Some pdf_file) first_page
  = in_world (toast invalid_file_type) (setIsDragging false first_page).
Proof.
  refine (proj1 (handleDrop_rejects_other_types (Some pdf_file) first_page _)).
  intros f [= <-]. discriminate.
Defined.

(** ** What the mock scorer produces *)

Lemma Math_random_source (e : Env) :
  random_source (snd (Math_random e)) = random_source e.
Proof. reflexivity. Qed.

Lemma unit_source_next (e : Env) :
  unit_source e -> unit_source (snd (Math_random e)).
Proof. intros H n. apply H. Qed.

Lemma random_count_range (e : Env) :
  unit_source e ->
  let n := fst (random_count e) in (n = 1 \/ n = 2 \/ n = 3)%Z.
Proof.
  intros H. unfold random_count, bind, Math_random, ret, Num.floor.
  cbv beta iota zeta delta [fst].
  destruct (H (random_calls e)) as [H0 H1].
  set (r := random_source e (random_calls e)) in *.
  assert (Hlo : (0 <= Qfloor (r * 3))%Z).
  { change 0%Z with (Qfloor 0). apply Qfloor_resp_le.
    apply Qmult_le_0_compat; [exact H0 | discriminate]. }
  assert (Hhi : (Qfloor (r * 3) < 3)%Z).
  { rewrite Zlt_Qlt. eapply Qle_lt_trans; [apply Qfloor_le |].
    apply Qlt_le_trans with (1 * 3)%Q; [| discriminate].
    apply Qmult_lt_compat_r; [reflexivity | exact H1]. }
  lia.
Qed.

Lemma slice_leading (count : Z) (a b c : string) :
  (count = 1 \/ count = 2 \/ count = 3)%Z ->
  leading_part [a; b; c] (slice_0 count [a; b; c]).
Proof.
  intros [-> | [-> | ->]]; [left | right; left | right; right]; reflexivity.
Qed.

Lemma or_else_source {A : Type} (v : option string) (f : string -> A)
    (d : Eff A) (e : Env) :
  (unit_source e -> unit_source (snd (d e))) ->
  unit_source e -> unit_source (snd (or_else v f d e)).
Proof.
  intros Hd He. unfold or_else. destruct v as [s|]; [| now apply Hd].
  destruct (falsy s); [now apply Hd | exact He].
Qed.

Lemma predict_row_in_range (row : RawRow) (index : nat) (e : Env) :
  unit_source e ->
  scored_in_range (fst (predict_row row index e))
  /\ unit_source (snd (predict_row row index e)).
Proof.
  intros He. unfold predict_row, bind.
  pose proof (or_else_source (row_amount row) Parse.parseFloat
                (fun e => let '(r, e') := Math_random e in
                          ret (Num.mul (Finite r) (Finite 100000)) e') e
                (fun H => H) He) as H1.
  destruct (or_else (row_amount row) _ _ e) as [amount e1]. cbn [snd] in H1.
  pose proof (or_else_source (row_from_account row) (fun s => s) random_account e1
                (fun H => H) H1) as H2.
  destruct (or_else (row_from_account row) _ _ e1) as [from_account e2]. cbn [snd] in H2.
  pose proof (or_else_source (row_to_account row) (fun s => s) random_account e2
                (fun H => H) H2) as H3.
  destruct (or_else (row_to_account row) _ _ e2) as [to_account e3]. cbn [snd] in H3.
  pose proof (or_else_source (row_timestamp row) (fun s => s) Date_toISOString e3
                (fun H => H) H3) as H4.
  destruct (or_else (row_timestamp row) _ _ e3) as [timestamp e4]. cbn [snd] in H4.
  pose proof (H4 (random_calls e4)) as Hscore.
  pose proof (unit_source_next e4 H4) as H5.
  destruct (Math_random e4) as [risk_score e5] eqn:E5.
  injection E5 as <- E5'. cbn [snd] in H5.
  pose proof (unit_source_next e5 H5) as H6.
  destruct (Math_random e5) as [r1 e6]. cbn [snd] in H6.
  assert (Hfinal : forall (level : RiskLevel) (e7 : Env),
             unit_source e7 ->
             scored_in_range
               (fst (let '(count, e8) := random_count e7 in
                     ret {| tx_id := "TXN-" ++ Str.padStart 6 "0" (Str.of_nat (index + 1));
                            tx_amount := amount; tx_from_account := from_account;
                            tx_to_account := to_account; tx_timestamp := timestamp;
                            tx_risk_score := Finite (random_source e4 (random_calls e4));
                            tx_risk_level := level;
                            tx_reason_codes :=
                              slice_0 count ["LARGE_AMOUNT"; "UNUSUAL_PATTERN"; "CROSS_BORDER"];
                            tx_status := FLAGGED |} e8))
             /\ unit_source
                  (snd (let '(count, e8) := random_count e7 in
                        ret {| tx_id := "TXN-" ++ Str.padStart 6 "0" (Str.of_nat (index + 1));
                               tx_amount := amount; tx_from_account := from_account;
                               tx_to_account := to_account; tx_timestamp := timestamp;
                               tx_risk_score := Finite (random_source e4 (random_calls e4));
                               tx_risk_level := level;
                               tx_reason_codes :=
                                 slice_0 count ["LARGE_AMOUNT"; "UNUSUAL_PATTERN"; "CROSS_BORDER"];
                               tx_status := FLAGGED |} e8))).
  { intros level e7 H7.
    pose proof (random_count_range e7 H7) as Hc.
    pose proof (unit_source_next e7 H7) as H8.
    unfold random_count, bind in *.
    destruct (Math_random e7) as [r3 e8]. cbn in Hc, H8 |- *.
    split; [| exact H8].
    split; [eexists; split; [reflexivity | exact Hscore] |].
    split; [now apply slice_leading | reflexivity]. }
  destruct (Num.gt (Finite r1) (Finite (7 # 10))).
  - apply Hfinal. exact H6.
  - pose proof (unit_source_next e6 H6) as H7.
    destruct (Math_random e6) as [r2 e7]. cbn [snd] in H7.
    apply Hfinal. exact H7.
Qed.

Lemma map_indexed_Forall {A B : Type} (good : Env -> Prop) (P : B -> Prop)
    (f : A -> nat -> Eff B) :
  (forall a index e, good e -> P (fst (f a index e)) /\ good (snd (f a index e))) ->
  forall (l : list A) index e,
    good e ->
    Forall P (fst (map_indexed f l index e)) /\ good (snd (map_indexed f l index e)).
Proof.
  intros Hf. induction l as [|a l IH]; intros index e He; cbn [map_indexed].
  - split; [constructor | exact He].
  - unfold bind. destruct (Hf a index e He) as [Hp He1].
    destruct (f a index e) as [b e1]. cbn [fst snd] in Hp, He1.
    destruct (IH (S index) e1 He1) as [Hps He2].
    destruct (map_indexed f l (S index) e1) as [bs e2]. cbn [fst snd ret] in *.
    split; [constructor; assumption | exact He2].
Qed.

Lemma stored_transactions_in_range_helper (data : list RawRow) (w : World) :
  unit_source (env w) ->
  Forall (fun tx => unit_score (tx_risk_score tx))
    (suspiciousTransactions (dashboard (handleDataUpload data w))).
Proof.
  intros He. rewrite handleDataUpload_dashboard. cbn [suspiciousTransactions].
  unfold predicted.
  eapply Forall_impl;
    [apply (map_indexed_Forall unit_source scored_in_range predict_row
              predict_row_in_range (firstn 10 data) 0%nat (env w) He) |].
  intros tx H. apply H.
Qed.

(** X7: as long as Math.random returns values in [0, 1), every
    transaction an upload stores has a risk_score in [0, 1), has the
    status FLAGGED, and has one, two or three reason codes: the first
    ones of LARGE_AMOUNT, UNUSUAL_PATTERN, CROSS_BORDER, so never none
    and never one twice. *)
Theorem stored_transactions_in_range (data : list RawRow) (w : World) :
  unit_source (env w) ->
  Forall (fun tx =>
            unit_score (tx_risk_score tx)
            /\ leading_part ["LARGE_AMOUNT"; "UNUSUAL_PATTERN"; "CROSS_BORDER"]
                 (tx_reason_codes tx)
            /\ tx_status tx = FLAGGED)
    (suspiciousTransactions (dashboard (handleDataUpload data w))).
Proof.
  intros He. rewrite handleDataUpload_dashboard. cbn [suspiciousTransactions].
  unfold predicted.
  apply (map_indexed_Forall unit_source scored_in_range predict_row
           predict_row_in_range (firstn 10 data) 0%nat (env w) He).
Qed.

Lemma unit_source_draws (l : list Q) :
  forallb (fun q => Qle_bool 0 q && negb (Qle_bool 1 q)) l = true ->
  unit_source (Sample.draws l).
Proof.
  intros H n. cbn [Sample.draws random_source].
  destruct (nth_in_or_default n l 0%Q) as [Hin | ->];
    [| split; [apply Qle_refl | reflexivity]].
  rewrite forallb_forall in H. specialize (H _ Hin).
  apply andb_true_iff in H as [H0 H1]. apply Qle_bool_iff in H0.
  split; [exact H0 |].
  apply Qnot_le_lt. intros Hle. apply Qle_bool_iff in Hle. now rewrite Hle in H1.
Qed.

Lemma stored_transactions_in_range_witness :
  Forall (fun tx =>
            unit_score (tx_risk_score tx)
            /\ leading_part ["LARGE_AMOUNT"; "UNUSUAL_PATTERN"; "CROSS_BORDER"]
                 (tx_reason_codes tx)
            /\ tx_status tx = FLAGGED)
    (suspiciousTransactions
       (dashboard (handleDataUpload [Sample.raw "10000" "A" "B"]
                     (Sample.initial (Sample.draws [9 # 10; 1 # 10; 1 # 10]))))).
Proof.
  apply (stored_transactions_in_range [Sample.raw "10000" "A" "B"]
           (Sample.initial (Sample.draws [9 # 10; 1 # 10; 1 # 10]))).
  apply unit_source_draws. reflexivity.
Defined.

(** X8: a submission of a complete form through the dashboard's scorer
    shows a result whose score is in [0, 1) (as long as Math.random keeps
    to that range), whose level is the quantization of that score, whose
    risk factors are the first one, two or three of LARGE_AMOUNT,
    UNUSUAL_TIME, NEW_RECIPIENT, and whose explanation names the level in
    lower case.  The form is kept, the loading flag is off again, no
    message is shown, and exactly two random numbers were drawn. *)
Theorem handleSimulate_shows_result (w : World) :
  unit_source (env w) ->
  form_amount (formData (simulator w)) <> "" ->
  form_from_account (formData (simulator w)) <> "" ->
  form_to_account (formData (simulator w)) <> "" ->
  let w' := handleSimulate dashboard_scorer w in
  exists r,
    result (simulator w') = Some r
    /\ unit_score (sim_risk_score r)
    /\ sim_risk_level r = Spec.quantize (sim_risk_score r)
    /\ leading_part ["LARGE_AMOUNT"; "UNUSUAL_TIME"; "NEW_RECIPIENT"] (sim_risk_factors r)
    /\ sim_explanation r
       = "This transaction has a " ++ level_word (sim_risk_level r)
         ++ " risk profile based on amount, timing, and recipient analysis."
    /\ isLoading (simulator w') = false
    /\ formData (simulator w') = formData (simulator w)
    /\ toasts w' = toasts w
    /\ random_calls (env w') = (random_calls (env w) + 2)%nat.
Proof.
  intros He Ha Hf Ht w'. subst w'. unfold handleSimulate.
  destruct (form_amount (formData (simulator w))) as [|c1 s1]; [contradiction |].
  destruct (form_from_account (formData (simulator w))) as [|c2 s2]; [contradiction |].
  destruct (form_to_account (formData (simulator w))) as [|c3 s3]; [contradiction |].
  cbn [falsy orb].
  unfold dashboard_scorer, in_env, Date_toISOString, mockSimulate, bind.
  cbn [env setIsLoading set_simulator set_env].
  pose proof (He (random_calls (env w))) as Hscore.
  pose proof (random_count_range (snd (Math_random (env w)))
                (unit_source_next _ He)) as Hcount.
  unfold random_count, bind in *. cbn [Math_random fst snd ret] in *.
  cbv beta iota zeta in Hcount |- *.
  eexists. split; [reflexivity |].
  cbn [sim_risk_score sim_risk_level sim_risk_factors sim_explanation].
  split; [eexists; split; [reflexivity | exact Hscore] |].
  split; [reflexivity |].
  split; [now apply slice_leading |].
  split.
  { unfold Spec.quantize.
    destruct (Num.gt _ (Finite (7 # 10))); [reflexivity |].
    destruct (Num.gt _ (Finite (4 # 10))); reflexivity. }
  repeat split. cbn. lia.
Qed.

Lemma handleSimulate_shows_result_witness :
  exists r,
    result (simulator
              (handleSimulate dashboard_scorer
                 (setFormData (Sample.form "100" "A" "B")
                    (Sample.initial (Sample.draws [5 # 10]))))) = Some r
    /\ sim_risk_level r = MEDIUM.
Proof.
  destruct (handleSimulate_shows_result
              (setFormData (Sample.form "100" "A" "B")
                 (Sample.initial (Sample.draws [5 # 10]))))
    as (r & Hr & _ & Hlevel & _).
  - apply unit_source_draws. reflexivity.
  - discriminate.
  - discriminate.
  - discriminate.
  - exists r. split; [exact Hr |]. rewrite Hlevel.
    cbn in Hr. injection Hr as <-. reflexivity.
Defined.

(** ** Identifiers and counts after an upload *)

Lemma transaction_id_injective (i j : nat) :
  (i < 10)%nat -> (j < 10)%nat -> transaction_id i = transaction_id j -> i = j.
Proof.
  intros Hi Hj H.
  assert (Hall : forallb (fun i => forallb (fun j =>
                    implb (String.eqb (transaction_id i) (transaction_id j))
                          (Nat.eqb i j)) (seq 0 10)) (seq 0 10) = true)
    by (vm_compute; reflexivity).
  rewrite forallb_forall in Hall.
  specialize (Hall i ltac:(apply in_seq; lia)).
  rewrite forallb_forall in Hall.
  specialize (Hall j ltac:(apply in_seq; lia)).
  apply String.eqb_eq in H. rewrite H in Hall. now apply Nat.eqb_eq.
Qed.

Lemma store_ids (data : list RawRow) (w : World) (j : nat) (tx : Transaction) :
  suspiciousTransactions (dashboard (handleDataUpload data w)) !! j = Some tx ->
  (j < 10)%nat /\ tx_id tx = transaction_id j.
Proof.
  rewrite handleDataUpload_dashboard. cbn [suspiciousTransactions]. intros Htx.
  pose proof (lookup_lt_Some _ _ _ Htx) as Hlt. rewrite predicted_length in Hlt.
  assert (Hj : (j < 10)%nat) by lia. split; [exact Hj |].
  destruct (lookup_lt_is_Some_2 data j ltac:(lia)) as [row Hrow].
  destruct (predicted_lookup data (env w) j row Hj Hrow) as (tx' & Htx' & Hout).
  rewrite Htx in Htx'. injection Htx' as <-. apply Hout.
Qed.

(** X9: the transactions an upload stores have pairwise different
    ids. *)
Theorem stored_ids_distinct (data : list RawRow) (w : World) :
  NoDup (map tx_id (suspiciousTransactions (dashboard (handleDataUpload data w)))).
Proof.
  apply NoDup_alt. intros i j x Hi Hj.
  rewrite lookup_map in Hi, Hj.
  destruct (_ !! i) as [ti|] eqn:Ei; [| discriminate].
  destruct (_ !! j) as [tj|] eqn:Ej; [| discriminate].
  injection Hi as Hi. injection Hj as Hj.
  apply store_ids in Ei as [Hi10 Ei], Ej as [Hj10 Ej].
  apply transaction_id_injective; congruence.
Qed.

Lemma of_Q_bounded (q : Q) :
  (0 <= q)%Q -> (q <= 100)%Q -> Num.of_Q q = Finite q.
Proof.
  intros H0 H1. unfold Num.of_Q.
  destruct (Qle_bool Num.overflow_bound (Qabs q)) eqn:E; [| reflexivity].
  exfalso. apply Qle_bool_iff in E. rewrite Qabs_pos in E by exact H0.
  assert (Hb : (Num.overflow_bound <= 100)%Q) by (eapply Qle_trans; eassumption).
  apply Qle_bool_iff in Hb. vm_compute in Hb. discriminate Hb.
Qed.

Lemma percent_of_ratio (a b : Q) :
  (0 <= a)%Q -> (a <= b)%Q -> (0 < b)%Q ->
  exists q : Q,
    Num.mul (num_div (Finite a) (Finite b)) (Finite 100) = Finite q
    /\ (q == a / b * 100)%Q /\ (0 <= q)%Q /\ (q <= 100)%Q.
Proof.
  intros Ha Hab Hb.
  assert (Hq0 : (0 <= a / b)%Q).
  { apply Qle_shift_div_l; [exact Hb |]. now rewrite Qmult_0_l. }
  assert (Hq1 : (a / b <= 1)%Q).
  { apply Qle_shift_div_r; [exact Hb |]. now rewrite Qmult_1_l. }
  unfold num_div.
  assert (Hz : Qeq_bool b 0 = false).
  { destruct (Qeq_bool b 0) eqn:E; [| reflexivity].
    apply Qeq_bool_iff in E. rewrite E in Hb. discriminate Hb. }
  rewrite Hz. rewrite of_Q_bounded; [| exact Hq0 |].
  2:{ eapply Qle_trans; [exact Hq1 | discriminate]. }
  cbn [Num.mul].
  assert (H100 : (a / b * 100 <= 100)%Q).
  { apply Qle_trans with (1 * 100)%Q; [| discriminate].
    apply Qmult_le_compat_r; [exact Hq1 | discriminate]. }
  assert (H0 : (0 <= a / b * 100)%Q).
  { apply Qmult_le_0_compat; [exact Hq0 | discriminate]. }
  rewrite of_Q_bounded by assumption.
  eexists. split; [reflexivity |]. split; [reflexivity |]. split; assumption.
Qed.

Lemma ratio_percent (s t : nat) :
  (0 < t)%nat -> (s <= t)%nat ->
  exists q : Q,
    Num.mul (num_div (Finite (inject_Z (Z.of_nat s))) (Finite (inject_Z (Z.of_nat t))))
      (Finite 100) = Finite q
    /\ (q == inject_Z (Z.of_nat s) / inject_Z (Z.of_nat t) * 100)%Q
    /\ (0 <= q)%Q /\ (q <= 100)%Q.
Proof.
  intros Ht Hst. apply percent_of_ratio.
  - change 0%Q with (inject_Z 0). rewrite <- Zle_Qle. lia.
  - rewrite <- Zle_Qle. lia.
  - change 0%Q with (inject_Z 0). rewrite <- Zlt_Qlt. lia.
Qed.

(** X10: after an upload, from whatever state, the dashboard counts
    every uploaded record and flags at most ten of them: the flagged
    count is the smaller of ten and the number of records, and the
    high-risk count is at most the flagged count.  The report card's
    risk percentage is then a number from 0 to 100, namely
    flagged / records * 100, or the text 0% when the upload had no
    record; its button can be pressed exactly when the upload had a
    record. *)
Theorem counts_after_upload (data : list RawRow) (w : World) :
  let d := dashboard (handleDataUpload data w) in
  stat_total d = length data
  /\ stat_flagged d = Nat.min 10 (length data)
  /\ (stat_high_risk d <= stat_flagged d)%nat
  /\ (stat_flagged d <= stat_total d)%nat
  /\ (generate_disabled false (report_suspiciousCount d) = false <-> data <> [])
  /\ match risk_percentage (report_transactionCount d) (report_suspiciousCount d) with
     | Some (Finite q) =>
         data <> []
         /\ (q == inject_Z (Z.of_nat (Nat.min 10 (length data)))
                 / inject_Z (Z.of_nat (length data)) * 100)%Q
         /\ (0 <= q)%Q /\ (q <= 100)%Q
     | Some _ => False
     | None => data = []
     end.
Proof.
  intros d. subst d. rewrite handleDataUpload_dashboard.
  unfold stat_total, stat_flagged, stat_high_risk, report_suspiciousCount,
    report_transactionCount, generate_disabled, risk_percentage.
  cbn [uploadedData suspiciousTransactions orb].
  rewrite !predicted_length.
  split; [reflexivity |]. split; [reflexivity |].
  split.
  { etransitivity; [apply filter_length_le |]. now rewrite predicted_length. }
  split; [lia |].
  split.
  { destruct data; cbn; split; congruence. }
  destruct data as [|row data]; [reflexivity |].
  replace (0 <? length (row :: data))%nat with true by reflexivity.
  destruct (ratio_percent (Nat.min 10 (length (row :: data))) (length (row :: data)))
    as (q & -> & Hq & H0 & H1); [cbn; lia | lia |].
  split; [discriminate |]. split; [exact Hq |]. split; assumption.
Qed.

Lemma sum_of_scores (txs : list Transaction) :
  Forall (fun tx => unit_score (tx_risk_score tx)) txs ->
  forall a : Q,
    (0 <= a)%Q -> (a + inject_Z (Z.of_nat (length txs)) <= 100)%Q ->
    exists s : Q,
      fold_left (fun acc tx => Num.add acc (tx_risk_score tx)) txs (Finite a) = Finite s
      /\ (a <= s)%Q /\ (s <= a + inject_Z (Z.of_nat (length txs)))%Q.
Proof.
  induction 1 as [|tx txs (r & Hr & Hr0 & Hr1) _ IH]; intros a Ha Hbound.
  - exists a. split; [reflexivity |].
    cbn [length]. change (inject_Z (Z.of_nat 0)) with 0%Q. split; lra.
  - cbn [fold_left length] in *. rewrite Hr. cbn [Num.add].
    rewrite Nat2Z.inj_succ, <- Z.add_1_r, inject_Z_plus in Hbound |- *.
    change (inject_Z 1) with 1%Q in *.
    assert (Hlen : (0 <= inject_Z (Z.of_nat (length txs)))%Q).
    { change 0%Q with (inject_Z 0). rewrite <- Zle_Qle. lia. }
    rewrite of_Q_bounded by lra.
    destruct (IH (a + r)%Q) as (s & Hs & Hs0 & Hs1); [lra | lra |].
    exists s. split; [exact Hs |]. split; lra.
Qed.

(** X11: as long as Math.random returns values in [0, 1), the "Risk
    Score" card after an upload shows the text 0% when no record was
    uploaded and otherwise a number from 0 to 100. *)
Theorem risk_score_card_in_range (data : list RawRow) (w : World) :
  unit_source (env w) ->
  match stat_risk_score (dashboard (handleDataUpload data w)) with
  | Some (Finite q) => data <> [] /\ (0 <= q)%Q /\ (q <= 100)%Q
  | Some _ => False
  | None => data = []
  end.
Proof.
  intros He.
  pose proof (stored_transactions_in_range_helper data w He) as Hall.
  pose proof (store_length_after_upload data w) as Hlen.
  unfold stat_risk_score.
  set (txs := suspiciousTransactions (dashboard (handleDataUpload data w))) in *.
  destruct (Nat.ltb_spec 0 (length txs)) as [Hpos | Hzero].
  - assert (Hn : (inject_Z (Z.of_nat (length txs)) <= 10)%Q).
    { change 10%Q with (inject_Z 10). rewrite <- Zle_Qle. lia. }
    destruct (sum_of_scores txs Hall 0%Q) as (s & -> & Hs0 & Hs1); [lra | lra |].
    destruct (percent_of_ratio s (inject_Z (Z.of_nat (length txs))))
      as (q & -> & _ & H0 & H1); [lra | lra | |].
    + change 0%Q with (inject_Z 0). rewrite <- Zlt_Qlt. lia.
    + split; [| split; assumption]. intros ->. cbn in Hlen. lia.
  - destruct data; [reflexivity |]. cbn in Hlen. lia.
Qed.

Lemma risk_score_card_in_range_witness :
  match stat_risk_score
          (dashboard (handleDataUpload [Sample.raw "10000" "A" "B"]
                        (Sample.initial (Sample.draws [9 # 10; 1 # 10; 1 # 10])))) with
  | Some (Finite q) => (0 <= q)%Q /\ (q <= 100)%Q
  | _ => False
  end.
Proof.
  pose proof (risk_score_card_in_range [Sample.raw "10000" "A" "B"]
                (Sample.initial (Sample.draws [9 # 10; 1 # 10; 1 # 10]))
                (unit_source_draws [9 # 10; 1 # 10; 1 # 10] eq_refl)) as H.
  destruct (stat_risk_score _) as [[q| | |]|]; try contradiction.
  - apply H.
  - discriminate H.
Defined.

(** ** The graph view and the node click *)

(** X12: a click on an account reports how many stored transactions
    have it as sender or receiver, and changes nothing else.  For an
    account that has a node in the graph the number is at least one; for
    an account no stored transaction names it is zero. *)
Theorem node_click_reports_related (nodeId : string) (w : World) :
  let store := suspiciousTransactions (dashboard w) in
  let related := relatedTransactions nodeId store in
  (forall tx,
     In tx related
     <-> In tx store /\ (tx_from_account tx = nodeId \/ tx_to_account tx = nodeId))
  /\ dashboard (handleNodeClick nodeId w) = dashboard w
  /\ simulator (handleNodeClick nodeId w) = simulator w
  /\ toasts (handleNodeClick nodeId w)
     = (toasts w ++ [account_analysis (length related) nodeId])%list
  /\ ((exists n, In n (graphNodes store) /\ node_id n = nodeId) ->
      (1 <= length related)%nat)
  /\ ((forall tx, In tx store ->
         tx_from_account tx <> nodeId /\ tx_to_account tx <> nodeId) ->
      related = []).
Proof.
  intros store related.
  assert (Hin : forall tx,
             In tx related
             <-> In tx store /\ (tx_from_account tx = nodeId \/ tx_to_account tx = nodeId)).
  { intros tx. subst related. unfold relatedTransactions.
    rewrite filter_In, orb_true_iff, !String.eqb_eq. reflexivity. }
  split; [exact Hin |].
  split; [reflexivity |]. split; [reflexivity |]. split; [reflexivity |].
  clearbody related. split.
  - intros (n & Hn & Hid). unfold graphNodes in Hn. apply in_map_iff in Hn.
    destruct Hn as (tx & <- & Htx). cbn [node_id] in Hid.
    assert (Hr : In tx related) by (apply Hin; auto).
    destruct related; [contradiction | cbn; lia].
  - intros Hnone. destruct related as [|tx rest]; [reflexivity |].
    exfalso. destruct (proj1 (Hin tx) ltac:(now left)) as [Hs Hc].
    destruct (Hnone tx Hs) as [Hf Ht]. destruct Hc; contradiction.
Qed.

(** X13: the nodes are laid out four to a row: a node is drawn between
    20% and 80% of the width, no two nodes are drawn at the same place,
    and a node is drawn inside the height of the panel exactly when it is
    one of the first sixteen.  The nodes of the graph derived after an
    upload are at most ten, so all of them are inside the panel. *)
Theorem node_layout :
  (forall index : nat,
     (20 <= node_x index <= 80)%nat
     /\ (20 <= node_y index)%nat
     /\ (node_y index <= 100 <-> index < 16)%nat)
  /\ (forall i j : nat, node_x i = node_x j -> node_y i = node_y j -> i = j)
  /\ (forall (data : list RawRow) (w : World) (i : nat),
        match graphNodes (suspiciousTransactions (dashboard (handleDataUpload data w))) !! i with
        | Some _ => (node_x i <= 80 /\ node_y i <= 70)%nat
        | None => True
        end).
Proof.
  unfold node_x, node_y. split; [| split].
  - intros index. pose proof (Nat.mod_upper_bound index 4 ltac:(lia)).
    pose proof (Nat.div_mod_eq index 4). lia.
  - intros i j Hx Hy.
    pose proof (Nat.mod_upper_bound i 4 ltac:(lia)).
    pose proof (Nat.mod_upper_bound j 4 ltac:(lia)).
    pose proof (Nat.div_mod_eq i 4). pose proof (Nat.div_mod_eq j 4). lia.
  - intros data w i.
    destruct (graphNodes _ !! i) as [n|] eqn:E; [| exact I].
    apply lookup_lt_Some in E. unfold graphNodes in E.
    rewrite length_map, store_length_after_upload in E.
    pose proof (Nat.mod_upper_bound i 4 ltac:(lia)).
    pose proof (Nat.div_mod_eq i 4). lia.
Qed.

Lemma find_index_map {A B : Type} (f : A -> B) (p : B -> bool) (l : list A) :
  find_index p (map f l) = find_index (fun a => p (f a)) l.
Proof.
  induction l as [|a l IH]; [reflexivity |]. cbn.
  destruct (p (f a)); [reflexivity |]. now rewrite IH.
Qed.

Lemma find_index_is_Some {A : Type} (p : A -> bool) (l : list A) :
  is_Some (find_index p l) <-> exists a, In a l /\ p a = true.
Proof.
  induction l as [|a l IH]; cbn.
  - split; [intros [i Hi]; discriminate | intros (a & [] & _)].
  - destruct (p a) eqn:E.
    + split; [intros _; exists a; auto | intros _; now eexists].
    + rewrite <- (fmap_is_Some S (find_index p l)) in IH.
      change (option_map S (find_index p l)) with (S <$> find_index p l).
      rewrite IH. split.
      * intros (b & Hb & Hp). exists b. auto.
      * intros (b & [-> | Hb] & Hp); [congruence |]. exists b. auto.
Qed.

(** X14: the line of an edge is drawn exactly when the account that
    receives the transaction is also the sender of some stored
    transaction; otherwise the edge is skipped, because only senders have
    nodes.  A drawn line runs from the node of the first transaction with
    the edge's sender to the node of the first transaction sent by its
    receiver. *)
Theorem edge_drawn_iff_receiver_sends (ts : list Transaction) (e : Edge) :
  In e (graphEdges ts) ->
  (is_Some (edge_line (graphNodes ts) e)
   <-> exists tx, In tx ts /\ tx_from_account tx = edge_to e)
  /\ edge_line (graphNodes ts) e
     = match find_index (fun tx => String.eqb (tx_from_account tx) (edge_from e)) ts,
             find_index (fun tx => String.eqb (tx_from_account tx) (edge_to e)) ts with
       | Some i, Some j => Some (node_x i * 4, node_y i * 4, node_x j * 4, node_y j * 4)%nat
       | _, _ => None
       end.
Proof.
  intros He.
  assert (Hline : edge_line (graphNodes ts) e
                  = match find_index (fun tx => String.eqb (tx_from_account tx) (edge_from e)) ts,
                          find_index (fun tx => String.eqb (tx_from_account tx) (edge_to e)) ts with
                    | Some i, Some j =>
                        Some (node_x i * 4, node_y i * 4, node_x j * 4, node_y j * 4)%nat
                    | _, _ => None
                    end).
  { unfold edge_line, graphNodes. now rewrite !find_index_map. }
  split; [| exact Hline]. rewrite Hline.
  assert (Hfrom : is_Some (find_index
                             (fun tx => String.eqb (tx_from_account tx) (edge_from e)) ts)).
  { apply find_index_is_Some. unfold graphEdges in He. apply in_map_iff in He.
    destruct He as (tx & <- & Htx). exists tx. split; [exact Htx |].
    apply String.eqb_refl. }
  destruct Hfrom as [i ->].
  assert (Hto : is_Some (find_index
                           (fun tx => String.eqb (tx_from_account tx) (edge_to e)) ts)
                <-> exists tx, In tx ts /\ tx_from_account tx = edge_to e).
  { rewrite find_index_is_Some. split; intros (tx & Htx & H); exists tx;
      (split; [exact Htx |]); now apply String.eqb_eq. }
  rewrite <- Hto. clear Hto Hline.
  destruct (find_index (fun tx => String.eqb (tx_from_account tx) (edge_to e)) ts)
    as [j|]; split; intros [x Hx]; try discriminate; eexists; reflexivity.
Qed.

Lemma edge_drawn_iff_receiver_sends_witness :
  edge_line (graphNodes store_A_to_B)
    {| edge_from := "A"; edge_to := "B"; edge_amount := Finite 10000;
       edge_suspicious := true |} = None.
Proof.
  refine (eq_trans
            (proj2 (edge_drawn_iff_receiver_sends store_A_to_B
                      {| edge_from := "A"; edge_to := "B"; edge_amount := Finite 10000;
                         edge_suspicious := true |} _)) _).
  - left. reflexivity.
  - reflexivity.
Defined.

(** ** The order of the table *)

Lemma directed_not_Gt (sortDirection : SortDirection) (p q : Q) :
  directed sortDirection (p ?= q)%Q <> Gt -> key_ordered sortDirection p q.
Proof.
  destruct sortDirection; cbn [directed key_ordered]; intros H.
  - apply Qle_alt. exact H.
  - apply Qle_alt. rewrite <- Qcompare_antisym. exact H.
Qed.

Lemma directed_Gt (sortDirection : SortDirection) (p q : Q) :
  directed sortDirection (p ?= q)%Q = Gt -> key_ordered sortDirection q p.
Proof.
  destruct sortDirection; cbn [directed key_ordered]; intros H.
  - apply Qlt_le_weak. apply Qgt_alt. exact H.
  - apply Qlt_le_weak. apply Qlt_alt. now destruct (p ?= q)%Q.
Qed.

Lemma key_ordered_trans (sortDirection : SortDirection) (p q r : Q) :
  key_ordered sortDirection p q -> key_ordered sortDirection q r ->
  key_ordered sortDirection p r.
Proof.
  destruct sortDirection; cbn [key_ordered]; intros H1 H2;
    eapply Qle_trans; eassumption.
Qed.

Section SortedFacts.
Context {A : Type} (comparefn : A -> A -> num) (key : A -> Q)
  (sortDirection : SortDirection).

Let ordered (a b : A) : Prop := key_ordered sortDirection (key a) (key b).

Let by_key (l : list A) : Prop :=
  forall a b, In a l -> In b l ->
    JsArray.sort_order (comparefn a b) = directed sortDirection (key a ?= key b)%Q.

Lemma insert_ordered (x : A) (l : list A) :
  by_key (x :: l) ->
  StronglySorted ordered l ->
  StronglySorted ordered (JsArray.insert comparefn x l).
Proof.
  induction l as [|y l IH]; intros Hkey Hl; cbn [JsArray.insert].
  - constructor; constructor.
  - apply StronglySorted_inv in Hl as [Hl Hy].
    pose proof (Hkey x y ltac:(now left) ltac:(right; now left)) as Hxy.
    destruct (JsArray.sort_order (comparefn x y)) eqn:E.
    + constructor; [now constructor |].
      assert (Hle : ordered x y) by (apply directed_not_Gt; rewrite <- Hxy; discriminate).
      constructor; [exact Hle |].
      eapply Forall_impl; [exact Hy |]. intros z Hz.
      eapply key_ordered_trans; eassumption.
    + constructor; [now constructor |].
      assert (Hle : ordered x y) by (apply directed_not_Gt; rewrite <- Hxy; discriminate).
      constructor; [exact Hle |].
      eapply Forall_impl; [exact Hy |]. intros z Hz.
      eapply key_ordered_trans; eassumption.
    + constructor.
      * apply IH; [| exact Hl].
        intros a b Ha Hb. apply Hkey.
        -- destruct Ha as [-> | Ha]; [now left | right; now right].
        -- destruct Hb as [-> | Hb]; [now left | right; now right].
      * eapply Permutation_Forall; [symmetry; apply insert_perm |].
        constructor; [| exact Hy].
        apply directed_Gt. now rewrite <- Hxy.
Qed.

Lemma sort_ordered (l : list A) :
  by_key l -> StronglySorted ordered (JsArray.sort comparefn l).
Proof.
  induction l as [|x l IH]; intros Hkey; cbn [JsArray.sort]; [constructor |].
  apply insert_ordered.
  - intros a b Ha Hb. apply Hkey.
    + destruct Ha as [-> | Ha]; [now left | right].
      eapply Permutation_in; [apply sort_perm | exact Ha].
    + destruct Hb as [-> | Hb]; [now left | right].
      eapply Permutation_in; [apply sort_perm | exact Hb].
  - apply IH. intros a b Ha Hb. apply Hkey; now right.
Qed.
End SortedFacts.

Section TableFacts.
Variable Number_toString : num -> string.

(** X15: the table shows every transaction that passes the filter
    exactly once: the query's output is a rearrangement of the filtered
    input, so it is never longer than the input, and it is empty exactly
    when no transaction passes the filter. *)
Theorem query_rearranges_matches (sortField : SortField) (sortDirection : SortDirection)
    (filterRisk searchTerm : string) (ts : list Transaction) :
  let out := query Number_toString sortField sortDirection filterRisk searchTerm ts in
  Permutation out (List.filter (matches searchTerm filterRisk) ts)
  /\ (length out <= length ts)%nat
  /\ (out = [] <-> forall tx, In tx ts -> matches searchTerm filterRisk tx = false).
Proof.
  intros out. subst out. unfold query.
  pose proof (sort_perm (compareFn Number_toString sortField sortDirection)
                (List.filter (matches searchTerm filterRisk) ts)) as Hperm.
  split; [exact Hperm |]. split.
  - rewrite (Permutation_length Hperm). apply filter_length_le.
  - split.
    + intros E tx Htx. rewrite E in Hperm. apply Permutation_nil in Hperm.
      destruct (matches searchTerm filterRisk tx) eqn:Hm; [| reflexivity].
      exfalso.
      assert (Hin : In tx (List.filter (matches searchTerm filterRisk) ts))
        by (apply filter_In; split; assumption).
      rewrite Hperm in Hin. exact Hin.
    + intros Hnone.
      assert (Hf : List.filter (matches searchTerm filterRisk) ts = []).
      { clear Hperm. induction ts as [|tx ts IH]; [reflexivity |]. cbn.
        rewrite (Hnone tx) by now left. apply IH.
        intros tx' Htx'. apply Hnone. now right. }
      rewrite Hf. reflexivity.
Qed.

Lemma compareFn_by_key (sortField : SortField) (sortDirection : SortDirection)
    (l : list Transaction) :
  (forall tx, In tx l -> is_Some (number_key sortField tx)) ->
  forall a b, In a l -> In b l ->
    JsArray.sort_order (compareFn Number_toString sortField sortDirection a b)
    = directed sortDirection
        (default 0%Q (number_key sortField a) ?= default 0%Q (number_key sortField b))%Q.
Proof.
  intros Hnum a b Ha Hb. rewrite compareFn_order. f_equal.
  destruct (Hnum a Ha) as [p Hp], (Hnum b Hb) as [q Hq].
  rewrite Hp, Hq. cbn [default]. unfold number_key in Hp, Hq. unfold base_order.
  destruct (get sortField a) as [[p'| | |]| |]; try discriminate.
  destruct (get sortField b) as [[q'| | |]| |]; try discriminate.
  injection Hp as ->. injection Hq as ->. apply sort_order_sub_finite.
Qed.

Lemma number_key_filter (sortField : SortField) (p : Transaction -> bool)
    (ts : list Transaction) :
  (forall tx, In tx ts -> is_Some (number_key sortField tx)) ->
  forall tx, In tx (List.filter p ts) -> is_Some (number_key sortField tx).
Proof. intros H tx Htx. apply filter_In in Htx. now apply H. Qed.

Lemma query_sorted (sortField : SortField) (sortDirection : SortDirection)
    (filterRisk searchTerm : string) (ts : list Transaction) :
  (forall tx, In tx ts -> is_Some (number_key sortField tx)) ->
  StronglySorted
    (fun a b => key_ordered sortDirection
                  (default 0%Q (number_key sortField a))
                  (default 0%Q (number_key sortField b)))
    (query Number_toString sortField sortDirection filterRisk searchTerm ts).
Proof.
  intros Hnum. unfold query.
  apply (sort_ordered (compareFn Number_toString sortField sortDirection)
           (fun tx => default 0%Q (number_key sortField tx)) sortDirection
           (List.filter (matches searchTerm filterRisk) ts)).
  apply compareFn_by_key. apply number_key_filter. exact Hnum.
Qed.

(** X16: sorted by a field that holds a finite number in every
    transaction, the table is in order: of two rows the upper one has the
    smaller or equal number when the direction is ascending, the larger
    or equal one when it is descending. *)
Theorem numeric_sort_is_ordered (sortField : SortField) (sortDirection : SortDirection)
    (filterRisk searchTerm : string) (ts : list Transaction) :
  (forall tx, In tx ts -> is_Some (number_key sortField tx)) ->
  forall (i j : nat) (a b : Transaction) (p q : Q),
    (i < j)%nat ->
    query Number_toString sortField sortDirection filterRisk searchTerm ts !! i = Some a ->
    query Number_toString sortField sortDirection filterRisk searchTerm ts !! j = Some b ->
    number_key sortField a = Some p ->
    number_key sortField b = Some q ->
    key_ordered sortDirection p q.
Proof.
  intros Hnum i j a b p q Hij Ha Hb Hp Hq.
  pose proof (query_sorted sortField sortDirection filterRisk searchTerm ts Hnum)
    as Hsorted.
  pose proof (StronglySorted_lookup _ _ Hsorted i j a b Hij Ha Hb) as H.
  cbv beta in H. now rewrite Hp, Hq in H.
Qed.

(** X17: when every transaction holds a finite number in the sort field
    and no two transactions hold the same number, the table in descending
    order is the table in ascending order read from the bottom up. *)
Theorem reversing_direction_reverses (sortField : SortField)
    (filterRisk searchTerm : string) (ts : list Transaction) :
  (forall tx, In tx ts -> is_Some (number_key sortField tx)) ->
  NoDup (map (fun tx => Qred (default 0%Q (number_key sortField tx))) ts) ->
  query Number_toString sortField desc filterRisk searchTerm ts
  = rev (query Number_toString sortField asc filterRisk searchTerm ts).
Proof.
  intros Hnum Hnd. unfold query.
  set (l := List.filter (matches searchTerm filterRisk) ts).
  set (key := fun tx => default 0%Q (number_key sortField tx)).
  assert (Hl : forall tx, In tx l -> is_Some (number_key sortField tx))
    by (apply number_key_filter; exact Hnum).
  pose proof (sort_ordered (compareFn Number_toString sortField desc) key desc l
                (compareFn_by_key sortField desc l Hl)) as Hdesc.
  pose proof (sort_ordered (compareFn Number_toString sortField asc) key asc l
                (compareFn_by_key sortField asc l Hl)) as Hasc.
  apply StronglySorted_rev in Hasc.
  apply (sorted_arrangement_unique
           (fun a b => key_ordered desc (key a) (key b))
           (fun tx => Qred (key tx))); try assumption.
  - intros a b Hab Hba. cbn [key_ordered] in Hab, Hba.
    apply Qred_complete. now apply Qle_antisym.
  - rewrite (Permutation_map (fun tx => Qred (key tx))
               (sort_perm (compareFn Number_toString sortField desc) l)).
    subst l key. clear -Hnd. induction ts as [|tx ts IH]; [constructor |].
    cbn in *. apply NoDup_cons in Hnd as [Hk Hnd].
    destruct (matches searchTerm filterRisk tx); [| now apply IH].
    cbn. apply NoDup_cons. split; [| now apply IH].
    intros Hin. apply Hk. apply list_elem_of_In, in_map_iff in Hin.
    destruct Hin as (tx' & Heq & Hin'). apply filter_In in Hin' as [Hin' _].
    apply list_elem_of_In, in_map_iff. exists tx'. split; assumption.
  - etransitivity; [apply sort_perm |].
    etransitivity; [| apply Permutation_rev]. symmetry. apply sort_perm.
Qed.
End TableFacts.

Lemma two_ties_scores (tx : Transaction) :
  In tx two_ties -> is_Some (number_key sf_risk_score tx).
Proof. intros [<- | [<- | []]]; eexists; reflexivity. Qed.

Lemma numeric_sort_is_ordered_witness :
  key_ordered desc (85 # 100) (10 # 100).
Proof.
  refine (numeric_sort_is_ordered (fun _ => "") sf_risk_score desc "all" "" two_ties
            two_ties_scores 0 1 _ _ (85 # 100) (10 # 100) _ _ _ _ _).
  - lia.
  - reflexivity.
  - reflexivity.
  - reflexivity.
  - reflexivity.
Defined.

Lemma reversing_direction_reverses_witness :
  query (fun _ => "") sf_risk_score desc "all" "" two_ties
  = rev (query (fun _ => "") sf_risk_score asc "all" "" two_ties).
Proof.
  apply (reversing_direction_reverses (fun _ => "") sf_risk_score "all" "" two_ties
           two_ties_scores).
  cbn. apply NoDup_cons. split.
  - intros H. apply list_elem_of_In in H. destruct H as [H | []]. discriminate H.
  - apply NoDup_cons. split; [intros H; inversion H | constructor].
Defined.

Lemma predict_row_score_finite (row : RawRow) (index : nat) (e : Env) :
  True ->
  is_Some (number_key sf_risk_score (fst (predict_row row index e))) /\ True.
Proof.
  intros _. split; [| exact I]. unfold predict_row, bind. run_eff.
  destruct (Num.gt _ _); run_eff; eexists; reflexivity.
Qed.

Lemma stored_scores_finite (data : list RawRow) (w : World) (tx : Transaction) :
  In tx (suspiciousTransactions (dashboard (handleDataUpload data w))) ->
  is_Some (number_key sf_risk_score tx).
Proof.
  rewrite handleDataUpload_dashboard. cbn [suspiciousTransactions]. unfold predicted.
  intros Htx.
  pose proof (map_indexed_Forall (fun _ => True)
                (fun tx => is_Some (number_key sf_risk_score tx)) predict_row
                predict_row_score_finite (firstn 10 data) 0%nat (env w) I) as [H _].
  rewrite Forall_forall in H. apply H. now apply list_elem_of_In.
Qed.

(** X18: the table as it first appears after an upload (sorted by risk
    score, descending, no search text, all risk levels) shows every
    stored transaction exactly once, the higher score above the lower. *)
Theorem default_view_after_upload (Number_toString : num -> string)
    (data : list RawRow) (w : World) :
  let store := suspiciousTransactions (dashboard (handleDataUpload data w)) in
  let table := query Number_toString sf_risk_score desc "all" "" store in
  Permutation table store
  /\ forall (i j : nat) (a b : Transaction) (p q : Q),
       (i < j)%nat -> table !! i = Some a -> table !! j = Some b ->
       tx_risk_score a = Finite p -> tx_risk_score b = Finite q ->
       (q <= p)%Q.
Proof.
  intros store table. split.
  - subst table. unfold query. rewrite filter_matches_all. apply sort_perm.
  - intros i j a b p q Hij Ha Hb Hp Hq.
    pose proof (query_sorted Number_toString sf_risk_score desc "all" "" store
                  (stored_scores_finite data w)) as Hsorted.
    pose proof (StronglySorted_lookup _ _ Hsorted i j a b Hij Ha Hb) as H.
    unfold number_key in H. cbn [get] in H. rewrite Hp, Hq in H. exact H.
Qed.

(** ** The sort headers *)

Lemma SortField_eqb_eq (a b : SortField) : SortField_eqb a b = true <-> a = b.
Proof. destruct a, b; cbn; split; congruence. Qed.

(** X19: after a click on a column header the table is sorted by that
    column.  A click on a column that was not the sort column starts in
    descending order.  A click on the sort column keeps the column and
    flips the direction, ascending to descending and descending to
    ascending, so the direction after the click is never the one before
    it; two clicks on the sort column give back the order there was, and
    three clicks on any header do what one does. *)
Theorem handleSort_clicks (field : SortField) (current : SortField * SortDirection) :
  fst (handleSort field current) = field
  /\ (fst current <> field -> handleSort field current = (field, desc))
  /\ (fst current = field ->
      handleSort field current
      = (field, match snd current with asc => desc | desc => asc end)
      /\ snd (handleSort field current) <> snd current)
  /\ handleSort field (field, asc) = (field, desc)
  /\ handleSort field (field, desc) = (field, asc)
  /\ (fst current = field -> handleSort field (handleSort field current) = current)
  /\ handleSort field (handleSort field (handleSort field current))
     = handleSort field current.
Proof.
  assert (Hrefl : SortField_eqb field field = true) by now apply SortField_eqb_eq.
  destruct current as [sortField sortDirection]. unfold handleSort. cbn [fst snd].
  destruct (SortField_eqb sortField field) eqn:E.
  - apply SortField_eqb_eq in E. subst sortField.
    rewrite !Hrefl. cbn [fst snd].
    split; [reflexivity |]. split; [congruence |].
    split; [intros _; split; [reflexivity | destruct sortDirection; discriminate] |].
    split; [reflexivity |]. split; [reflexivity |].
    split; intros; destruct sortDirection; reflexivity.
  - rewrite !Hrefl. cbn [fst snd].
    split; [reflexivity |]. split; [reflexivity |].
    split; [intros ->; rewrite Hrefl in E; discriminate E |].
    split; [reflexivity |]. split; [reflexivity |].
    split; [| reflexivity].
    intros ->. rewrite Hrefl in E. discriminate E.
Qed.

(** ** The report's file name and the reason codes of a row *)

(** X20: for a clock that reads a date, the letter T and a time, the
    report is downloaded as AML_Report_, the date, .pdf. *)
Theorem report_filename_is_dated (e : Env) (date time : string) :
  (forall c, In c (list_ascii_of_string date) -> c <> "T"%char) ->
  now e = date ++ String "T" time ->
  report_filename e = "AML_Report_" ++ date ++ ".pdf".
Proof.
  intros Hdate Hnow. unfold report_filename. rewrite Hnow.
  now rewrite split_hd.
Qed.

Lemma report_filename_is_dated_witness :
  report_filename (Sample.draws []) = "AML_Report_2024-01-01.pdf".
Proof.
  apply (report_filename_is_dated (Sample.draws []) "2024-01-01" "00:00:00.000Z").
  - intros c Hc. cbn in Hc.
    repeat (destruct Hc as [<- | Hc]; [discriminate |]). contradiction.
  - reflexivity.
Defined.

(** X21: a row of the table shows the first two reason codes of its
    transaction and counts the others, so the codes shown and the number
    counted add up to all the codes; the count appears exactly when there
    are more than two codes. *)
Theorem shown_reason_codes_account_for_all (tx : Transaction) :
  let '(shown, more) := shown_reason_codes tx in
  shown = firstn 2 (tx_reason_codes tx)
  /\ (length shown <= 2)%nat
  /\ (length shown + default 0 more = length (tx_reason_codes tx))%nat
  /\ (more = None <-> length (tx_reason_codes tx) <= 2)%nat
  /\ (forall n, more = Some n -> 0 < n)%nat.
Proof.
  unfold shown_reason_codes, slice_0. cbn [Z.ltb Z.compare Z.to_nat Pos.to_nat Pos.iter_op Nat.add].
  split; [reflexivity |].
  rewrite length_firstn. change (Z.to_nat 2) with 2%nat.
  destruct (Nat.ltb_spec 2 (length (tx_reason_codes tx))) as [H | H];
    cbn [default]; unfold id.
  - split; [lia |]. split; [lia |]. split; [split; [discriminate | lia] |].
    intros n [= <-]. lia.
  - split; [lia |]. split; [lia |]. split; [split; [lia | reflexivity] |].
    intros n [=].
Qed.

(** ** More on the simulator, the upload and the filter *)

(** X22: when the scoring call fails, a submission of a complete form
    reports the simulation error and nothing else: the result shown
    before, the form and the session are kept, and the loading flag is
    off again. *)
Theorem handleSimulate_reports_failure (reason : string) (w : World) :
  form_amount (formData (simulator w)) <> "" ->
  form_from_account (formData (simulator w)) <> "" ->
  form_to_account (formData (simulator w)) <> "" ->
  let w' := handleSimulate (failing_scorer reason) w in
  toasts w' = (toasts w ++ [simulation_error])%list
  /\ result (simulator w') = result (simulator w)
  /\ formData (simulator w') = formData (simulator w)
  /\ isLoading (simulator w') = false
  /\ dashboard w' = dashboard w
  /\ env w' = env w.
Proof.
  intros Ha Hf Ht w'. subst w'. unfold handleSimulate.
  destruct (form_amount (formData (simulator w))) as [|c1 s1]; [contradiction |].
  destruct (form_from_account (formData (simulator w))) as [|c2 s2]; [contradiction |].
  destruct (form_to_account (formData (simulator w))) as [|c3 s3]; [contradiction |].
  cbn [falsy orb]. unfold failing_scorer, in_env, Date_toISOString. cbn.
  destruct w as [e t d s]. destruct e. cbn. repeat split.
Qed.

Lemma handleSimulate_reports_failure_witness :
  toasts (handleSimulate (failing_scorer "timeout")
            (setFormData (Sample.form "100" "A" "B") (Sample.initial (Sample.draws []))))
  = [simulation_error].
Proof.
  refine (proj1 (handleSimulate_reports_failure "timeout"
                   (setFormData (Sample.form "100" "A" "B")
                      (Sample.initial (Sample.draws []))) _ _ _));
    discriminate.
Defined.

(** X23: an upload leaves the simulator as it is and never clears the
    transaction chosen for its details: the choice stays, also when the
    new store no longer holds that transaction. *)
Theorem upload_keeps_selection (transaction : Transaction) (data : list RawRow)
    (w : World) :
  simulator (handleDataUpload data w) = simulator w
  /\ selectedTransaction (dashboard (handleDataUpload data w))
     = selectedTransaction (dashboard w)
  /\ selectedTransaction
       (dashboard (handleDataUpload data (handleViewTransactionDetails transaction w)))
     = Some transaction
  /\ suspiciousTransactions
       (dashboard (handleDataUpload [] (handleViewTransactionDetails transaction w)))
     = [].
Proof.
  rewrite !handleDataUpload_dashboard. cbn [selectedTransaction suspiciousTransactions].
  split; [| repeat split].
  unfold handleDataUpload, in_env.
  destruct (mockPredict data _) as [[txs | reason] e']; reflexivity.
Qed.

Lemma lower_upper_char (c : ascii) :
  (nat_of_ascii c <? 128)%nat = true ->
  Str.lower_char (Str.upper_char c) = Str.lower_char c.
Proof. destruct c as [[] [] [] [] [] [] [] []]; intros H; first [reflexivity | discriminate H]. Qed.

Lemma lower_lower_char (c : ascii) :
  (nat_of_ascii c <? 128)%nat = true ->
  Str.lower_char (Str.lower_char c) = Str.lower_char c.
Proof. destruct c as [[] [] [] [] [] [] [] []]; intros H; first [reflexivity | discriminate H]. Qed.

(** On ASCII text the upper case and the text itself have the same lower
    case, and the lower case is its own lower case. *)
Lemma toLowerCase_toUpperCase (s : string) :
  Str.ascii_only s = true ->
  Str.toLowerCase (Str.toUpperCase s) = Str.toLowerCase s.
Proof.
  unfold Str.toLowerCase, Str.toUpperCase.
  induction s as [|c s IH]; [reflexivity |]. cbn.
  intros H. apply andb_true_iff in H as [Hc Hs].
  now rewrite lower_upper_char, IH.
Qed.

Lemma toLowerCase_idempotent (s : string) :
  Str.ascii_only s = true ->
  Str.toLowerCase (Str.toLowerCase s) = Str.toLowerCase s.
Proof.
  unfold Str.toLowerCase.
  induction s as [|c s IH]; [reflexivity |]. cbn.
  intros H. apply andb_true_iff in H as [Hc Hs].
  now rewrite lower_lower_char, IH.
Qed.

Lemma append_empty_r (s : string) : s ++ "" = s.
Proof. induction s as [|c s IH]; [reflexivity |]. now rewrite append_cons, IH. Qed.

Lemma includes_self (s : string) : Str.includes s s = true.
Proof.
  apply includes_iff. exists "", "". now rewrite append_nil_l, append_empty_r.
Qed.

(** X24: with the risk selector on "all", a transaction is found by its
    id, its sender or its receiver typed as it is shown; and, when that
    identifier is ASCII text, as the generated identifiers are, also
    typed all in capitals or all in small letters: the query for such a
    search text returns the transaction.  (Beyond ASCII the case
    conversions of the runtime are not the ones modelled, and an
    identifier typed in capitals need not be found.) *)
Theorem search_finds_by_identifier (Number_toString : num -> string)
    (sortField : SortField) (sortDirection : SortDirection)
    (ts : list Transaction) (tx : Transaction) (text searchTerm : string) :
  In tx ts ->
  text = tx_id tx \/ text = tx_from_account tx \/ text = tx_to_account tx ->
  searchTerm = text
  \/ (Str.ascii_only text = true
      /\ (searchTerm = Str.toUpperCase text \/ searchTerm = Str.toLowerCase text)) ->
  In tx (query Number_toString sortField sortDirection "all" searchTerm ts).
Proof.
  intros Htx Htext Hterm. unfold query.
  eapply Permutation_in; [symmetry; apply sort_perm |].
  apply filter_In. split; [exact Htx |].
  assert (Hlow : Str.toLowerCase searchTerm = Str.toLowerCase text).
  { destruct Hterm as [-> | [Hascii [-> | ->]]];
      [reflexivity | now apply toLowerCase_toUpperCase
       | now apply toLowerCase_idempotent]. }
  unfold matches. rewrite Hlow. cbn [String.eqb orb andb].
  rewrite andb_true_r.
  destruct Htext as [-> | [-> | ->]]; rewrite includes_self;
    rewrite ?orb_true_r; reflexivity.
Qed.

Lemma search_finds_by_identifier_witness :
  In (hd_tx two_ties)
    (query (fun _ => "") sf_amount desc "all" "acc-a1" two_ties).
Proof.
  apply (search_finds_by_identifier (fun _ => "") sf_amount desc two_ties
           (hd_tx two_ties) "ACC-A1" "acc-a1").
  - left. reflexivity.
  - right. left. reflexivity.
  - right. split; [reflexivity |]. right. reflexivity.
Defined.

Lemma matches_level (searchTerm : string) (level : RiskLevel) (tx : Transaction) :
  matches searchTerm (RiskLevel_string level) tx
  = matches searchTerm "all" tx && RiskLevel_eqb (tx_risk_level tx) level.
Proof.
  unfold matches.
  replace (String.eqb (RiskLevel_string level) "all") with false
    by (destruct level; reflexivity).
  replace (String.eqb "all" "all") with true by reflexivity.
  replace (String.eqb (RiskLevel_string (tx_risk_level tx)) (RiskLevel_string level))
    with (RiskLevel_eqb (tx_risk_level tx) level)
    by (destruct (tx_risk_level tx), level; reflexivity).
  cbn [orb]. now rewrite andb_true_r.
Qed.

Lemma filter_levels_partition (searchTerm : string) (ts : list Transaction) :
  (length (List.filter (matches searchTerm "HIGH") ts)
   + length (List.filter (matches searchTerm "MEDIUM") ts)
   + length (List.filter (matches searchTerm "LOW") ts)
   = length (List.filter (matches searchTerm "all") ts))%nat.
Proof.
  induction ts as [|tx ts IH]; [reflexivity |]. cbn [List.filter].
  rewrite (matches_level searchTerm HIGH), (matches_level searchTerm MEDIUM),
    (matches_level searchTerm LOW).
  destruct (matches searchTerm "all" tx); cbn [andb]; [| exact IH].
  destruct (tx_risk_level tx); cbn [RiskLevel_eqb length]; lia.
Qed.

(** X25: the risk selector splits the table: with the selector on a
    level the query returns only transactions of that level, and for any
    search text the rows under HIGH, MEDIUM and LOW together are as many
    as the rows under "all".  With no search text the rows under HIGH are
    as many as the dashboard's "High Risk" card counts. *)
Theorem risk_selector_partitions (Number_toString : num -> string)
    (sortField : SortField) (sortDirection : SortDirection)
    (searchTerm : string) (w : World) :
  let ts := suspiciousTransactions (dashboard w) in
  let rows := fun filterRisk =>
    query Number_toString sortField sortDirection filterRisk searchTerm ts in
  (forall (level : RiskLevel) (tx : Transaction),
     In tx (rows (RiskLevel_string level)) -> tx_risk_level tx = level)
  /\ (length (rows "HIGH") + length (rows "MEDIUM") + length (rows "LOW")
      = length (rows "all"))%nat
  /\ length (query Number_toString sortField sortDirection "HIGH" "" ts)
     = stat_high_risk (dashboard w).
Proof.
  intros ts rows. subst rows. cbv beta. unfold query.
  split; [| split].
  - intros level tx Htx.
    eapply Permutation_in in Htx; [| apply sort_perm].
    apply filter_In in Htx as [_ Hm].
    rewrite matches_level in Hm. apply andb_true_iff in Hm as [_ Hm].
    destruct (tx_risk_level tx), level; (reflexivity || discriminate Hm).
  - rewrite !(Permutation_length (sort_perm _ _)). apply filter_levels_partition.
  - rewrite (Permutation_length (sort_perm _ _)). unfold stat_high_risk. fold ts.
    f_equal. clear. induction ts as [|tx ts IH]; [reflexivity |]. cbn [List.filter].
    change (matches "" "HIGH" tx) with (matches "" (RiskLevel_string HIGH) tx).
    rewrite (matches_level "" HIGH tx).
    replace (matches "" "all" tx) with true.
    + cbn [andb]. now rewrite IH.
    + symmetry. apply matches_iff. split.
      * left. exists "", (Str.toLowerCase (tx_id tx)). reflexivity.
      * now left.
Qed.

Lemma split_without_separator (sep : ascii) (s : string) :
  (forall c, In c (list_ascii_of_string s) -> c <> sep) ->
  Csv.split sep s = [s].
Proof.
  induction s as [|c s IH]; intros H; [reflexivity |]. cbn [Csv.split].
  destruct (Ascii.eqb_spec c sep) as [->|Hc].
  - exfalso. apply (H sep); [now left | reflexivity].
  - rewrite IH; [reflexivity |]. intros c' Hc'. apply H. now right.
Qed.

(** X26: a file of a single line, be it empty or a header line, has no
    row; choosing it empties the store, and the report button stays
    disabled. *)
Theorem single_line_file_has_no_rows (f : File) (p : Page) :
  (forall c, In c (list_ascii_of_string (file_text f)) -> c <> "010"%char) ->
  Csv.parse (file_text f) = []
  /\ suspiciousTransactions (dashboard (world (handleFileSelect (Some f) p))) = []
  /\ uploadedData (dashboard (world (handleFileSelect (Some f) p))) = []
  /\ generate_disabled false
       (report_suspiciousCount (dashboard (world (handleFileSelect (Some f) p)))) = true.
Proof.
  intros H.
  assert (E : Csv.parse (file_text f) = []).
  { unfold Csv.parse. now rewrite split_without_separator. }
  split; [exact E |].
  unfold handleFileSelect, processFile, in_world, setFile. cbn [world upload].
  rewrite E. cbn [map length].
  destruct (handleDataUpload_resume_world []
              (toast (file_uploaded 0) (handleDataUpload_begin [] (world p))))
    as [Hd _].
  unfold report_suspiciousCount. rewrite Hd. cbn. repeat split.
Qed.

Lemma single_line_file_has_no_rows_witness :
  Csv.parse (file_text pdf_file) = [].
Proof.
  refine (proj1 (single_line_file_has_no_rows pdf_file first_page _)).
  intros c Hc. cbn in Hc.
  repeat (destruct Hc as [<- | Hc]; [discriminate |]). contradiction.
Defined.

(** ** The theorems about the parser, at a concrete file *)

Lemma parse_columns_witness :
  exists row,
    Csv.parse sample_csv !! 1%nat = Some row
    /\ dom (Csv.csv_fields row)
       = (list_to_set (header_names sample_csv) ∖ {[ "id"; "__proto__" ]} : gset string).
Proof.
  destruct (Csv.parse sample_csv !! 1%nat) as [row|] eqn:E.
  - exists row. split; [reflexivity |]. exact (parse_columns sample_csv 1 row E).
  - vm_compute in E. discriminate E.
Defined.

Lemma parse_cell_witness :
  exists row,
    Csv.parse sample_csv !! 1%nat = Some row
    /\ Csv.csv_fields row !! "from_account" = Some "".
Proof.
  destruct (Csv.parse sample_csv !! 1%nat) as [row|] eqn:E.
  - exists row. split; [reflexivity |].
    destruct (parse_cell sample_csv 1 row "from_account" E) as (line & Hline & Hcell);
      [discriminate | discriminate |].
    rewrite Hcell. vm_compute in Hline. injection Hline as <-. reflexivity.
  - vm_compute in E. discriminate E.
Defined.
